(** * The reactor runtime of hyprland-eis: iobuf, intrusive list, source/sink

    A shallow embedding of [util-io.cpp], [util-list.cpp], [util-object.h]
    and [util-sources.cpp], and the properties of the specification that
    are settled on it. *)

From Stdlib Require Import ZArith Lia.
From stdpp Require Import base option list gmap.

(** ** Constants of the platform (Linux, LP64) *)

Definition EINTR : Z := 4.
Definition EAGAIN : Z := 11.
Definition ENOMEM : Z := 12.

(** [size_t] arithmetic wraps at 2^64, [int] at 2^32 (two's complement),
    [uint32_t] at 2^32. *)
Definition size_max : Z := 2 ^ 64.
Definition wrap_size (z : Z) : Z := z mod size_max.
Definition to_int (z : Z) : Z := (z + 2 ^ 31) mod 2 ^ 32 - 2 ^ 31.
Definition wrap_u32 (z : Z) : Z := z mod 2 ^ 32.

(** What the operating system answers to one call. *)
Record os_reply := OsReply { ret : Z; errno : Z }.

(** [xerrno]: turn an errno-setting return value into value-or-negative-errno. *)
Definition xerrno (r : os_reply) : Z :=
  if (ret r <? 0)%Z then (- errno r)%Z else ret r.

Module IoBuf.

(** A byte of storage: [None] is a byte that was allocated and never
    written ([malloc] and [realloc] leave it indeterminate). *)
Abbreviation cell := (option Byte.byte).

(** [struct iobuf]: [data] is the storage [data] points to. *)
Record iobuf := Iobuf {
  sz : Z;
  len : Z;
  data : list cell;
  fds : list Z;
}.

(** System calls the buffer makes. *)
Inductive syscall :=
  | SysDup (fd : Z).

(** [ARRAY_LENGTH(buf->fds)] *)
Definition FDS_LENGTH : nat := 32.

(** [malloc(size)]: [size] indeterminate bytes; allocation is taken to
    succeed (the code asserts it). *)
Definition malloc (size : Z) : list cell := replicate (Z.to_nat size) None.

(** [realloc(old, size)]: the first min(old size, size) bytes are kept, any
    further ones are indeterminate; [old = None] is the null pointer. *)
Definition realloc (old : option (list cell)) (size : Z) : list cell :=
  match old with
  | None => malloc size
  | Some d => take (Z.to_nat size) d ++ replicate (Z.to_nat size - length d) None
  end.

(** [memcpy]/[memmove] of [src] to offset [off] of the storage; writing past
    the end of the storage is undefined behaviour, here [None]. *)
Definition write_at (off : Z) (src : list cell) (d : list cell) : option (list cell) :=
  if decide (0 <= off /\ off + Z.of_nat (length src) <= Z.of_nat (length d))%Z
  then Some (take (Z.to_nat off) d ++ src ++ drop (Z.to_nat off + length src) d)
  else None.

(** Reading [n] bytes at offset [off]; out of bounds is [None]. *)
Definition read_at (off n : Z) (d : list cell) : option (list cell) :=
  if decide (0 <= off /\ 0 <= n /\ off + n <= Z.of_nat (length d))%Z
  then Some (take (Z.to_nat n) (drop (Z.to_nat off) d))
  else None.

Definition iobuf_new (size : Z) : iobuf :=
  {| sz := size; len := 0; data := malloc size; fds := replicate FDS_LENGTH (-1)%Z |}.

Definition iobuf_len (buf : iobuf) : Z := len buf.

(** [memmove(buf->fds, buf->fds + 1, 31 * sizeof(int))]: slots 0..30 take
    the values of slots 1..31, slot 31 keeps its value. *)
Definition iobuf_take_fd (buf : iobuf) : Z * iobuf :=
  let fd := default 0%Z (fds buf !! 0) in
  if decide (fd <> -1)%Z
  then (fd, {| sz := sz buf; len := len buf; data := data buf;
               fds := take (FDS_LENGTH - 1) (drop 1 (fds buf)) ++ drop (FDS_LENGTH - 1) (fds buf) |})
  else (fd, buf).

Definition iobuf_resize (d : option (list cell)) (buf : iobuf) (to_size : Z) : iobuf :=
  {| sz := to_size; len := len buf; data := realloc d to_size; fds := fds buf |}.

Definition iobuf_extend (buf : iobuf) (extra : Z) : iobuf :=
  let newsize := wrap_size (len buf + extra) in
  if decide (newsize > sz buf)%Z then iobuf_resize (Some (data buf)) buf newsize else buf.

(** Returns the storage handed to the caller and the buffer after the call.
    [buf->data = NULL; buf->len = 0; iobuf_resize(buf, buf->sz)]. *)
Definition iobuf_take_data (buf : iobuf) : list cell * iobuf :=
  let taken := data buf in
  let buf0 := {| sz := sz buf; len := 0; data := []; fds := fds buf |} in
  (taken, iobuf_resize None buf0 (sz buf0)).

(** [iobuf_append(buf, data, len)] with [bs] the [len] bytes at [data]. *)
Definition iobuf_append (buf : iobuf) (bs : list Byte.byte) : option iobuf :=
  let n := Z.of_nat (length bs) in
  if decide (n = 0)%Z then Some buf
  else
    let buf1 := iobuf_extend buf n in
    d ← write_at (len buf1) (Some <$> bs) (data buf1);
    Some {| sz := sz buf1; len := wrap_size (len buf1 + n); data := d; fds := fds buf1 |}.

Definition iobuf_prepend (buf : iobuf) (bs : list Byte.byte) : option iobuf :=
  let n := Z.of_nat (length bs) in
  if decide (n = 0)%Z then Some buf
  else
    let buf1 :=
      if decide (wrap_size (len buf + n) > sz buf)%Z
      then iobuf_resize (Some (data buf)) buf (wrap_size (len buf + n))
      else buf in
    d1 ← (if decide (len buf1 > 0)%Z
          then old ← read_at 0 (len buf1) (data buf1); write_at n old (data buf1)
          else Some (data buf1));
    d2 ← write_at 0 (Some <$> bs) d1;
    Some {| sz := sz buf1; len := wrap_size (len buf1 + n); data := d2; fds := fds buf1 |}.

(** The loop of [iobuf_append_fd] from slot [idx], with [n] slots left to
    look at; [dup] is the answer of the operating system to [dup(fd)]. *)
Fixpoint append_fd_loop (n idx : nat) (buf : iobuf) (fd : Z) (dup : Z -> os_reply)
  : Z * iobuf * list syscall :=
  match n with
  | O => ((- ENOMEM)%Z, buf, [])
  | S n' =>
      if decide (fds buf !! idx = Some (-1)%Z)
      then
        let f := dup fd in
        if decide (ret f = -1)%Z
        then ((- errno f)%Z, buf, [SysDup fd])
        else (0%Z, {| sz := sz buf; len := len buf; data := data buf;
                      fds := <[idx := ret f]> (fds buf) |}, [SysDup fd])
      else append_fd_loop n' (S idx) buf fd dup
  end.

Definition iobuf_append_fd (buf : iobuf) (fd : Z) (dup : Z -> os_reply)
  : Z * iobuf * list syscall :=
  append_fd_loop (FDS_LENGTH - 1) 0 buf fd dup.

(** *** Reading from a descriptor *)

(** What one [read(2)] on the descriptor will answer: some bytes (none at
    end of stream) or a failure with its errno. *)
Inductive read_reply :=
  | ReadData (bs : list Byte.byte)
  | ReadFail (e : Z).

(** [xread(fd, buf, count)] = [xerrno(SYSCALL(read(fd, buf, count)))]:
    [SYSCALL] repeats the call while it fails with [EINTR]; the kernel hands
    out at most [count] bytes.  Consumes the replies it used; [None] when the
    replies run out. *)
Fixpoint xread (count : nat) (rs : list read_reply)
  : option (Z * list Byte.byte * list read_reply) :=
  match rs with
  | [] => None
  | ReadData bs :: rs' => Some (Z.of_nat (length (take count bs)), take count bs, rs')
  | ReadFail e :: rs' =>
      if decide (e = EINTR) then xread count rs'
      else Some (xerrno (OsReply (-1) e), [], rs')
  end.

(** [sizeof(data)] of the transfer unit [char data[1024]]. *)
Definition CHUNK : nat := 1024.

(** The [do ... while] loop of [iobuf_append_from_fd]; [fuel] bounds the
    number of iterations and the result is the pair of the value returned
    and the buffer. *)
Fixpoint append_from_fd_loop (fuel : nat) (rs : list read_reply) (buf : iobuf) (nread : Z)
  : option (Z * iobuf) :=
  match fuel with
  | O => None
  | S fuel' =>
      '(rc, bs, rs') ← xread CHUNK rs;
      if decide (rc = 0 \/ rc = - EAGAIN)%Z
      then Some (if decide (nread = 0)%Z then rc else to_int nread, buf)
      else if decide (rc < 0)%Z then Some (rc, buf)
      else
        buf' ← iobuf_append buf bs;
        let nread' := wrap_size (nread + rc) in
        if decide (rc = Z.of_nat CHUNK)
        then append_from_fd_loop fuel' rs' buf' nread'
        else Some (if decide (nread' = 0)%Z then rc else to_int nread', buf')
  end.

(** Every iteration consumes at least one reply, so [length rs] iterations
    are all the replies allow. *)
Definition iobuf_append_from_fd (buf : iobuf) (rs : list read_reply) : option (Z * iobuf) :=
  append_from_fd_loop (length rs) rs buf 0.

(** *** Sequences of calls, used to state the properties *)

(** The descriptor queue [q] held by the slot array: the live descriptors
    from slot 0 on, then the sentinel up to the end. *)
Definition fd_queue (buf : iobuf) (q : list Z) : Prop :=
  fds buf = q ++ replicate (FDS_LENGTH - length q) (-1)%Z
  /\ length q < FDS_LENGTH
  /\ Forall (fun f => f <> (-1)%Z) q.

(** [dup(2)] answers -1 with a positive errno, or a descriptor. *)
Definition dup_reply_ok (r : os_reply) : Prop :=
  (ret r = -1 /\ 0 < errno r)%Z \/ (0 <= ret r)%Z.

(** One [iobuf_append_fd] per element; the values returned and the final
    buffer. *)
Fixpoint append_fds (calls : list (Z * (Z -> os_reply))) (buf : iobuf) : list Z * iobuf :=
  match calls with
  | [] => ([], buf)
  | (fd, dup) :: calls' =>
      let '(rc, buf1, _) := iobuf_append_fd buf fd dup in
      let '(rcs, buf2) := append_fds calls' buf1 in
      (rc :: rcs, buf2)
  end.

(** [n] calls of [iobuf_take_fd]. *)
Fixpoint take_fds (n : nat) (buf : iobuf) : list Z * iobuf :=
  match n with
  | O => ([], buf)
  | S n' =>
      let '(fd, buf1) := iobuf_take_fd buf in
      let '(r, buf2) := take_fds n' buf1 in
      (fd :: r, buf2)
  end.

Inductive edit :=
  | Append (bs : list Byte.byte)
  | Prepend (bs : list Byte.byte).

Fixpoint edits (ops : list edit) (buf : iobuf) : option iobuf :=
  match ops with
  | [] => Some buf
  | Append bs :: ops' => buf' ← iobuf_append buf bs; edits ops' buf'
  | Prepend bs :: ops' => buf' ← iobuf_prepend buf bs; edits ops' buf'
  end.

Definition edit_length (op : edit) : Z :=
  match op with Append bs | Prepend bs => Z.of_nat (length bs) end.

Definition total_length (ops : list edit) : Z :=
  foldr (fun op acc => edit_length op + acc)%Z 0%Z ops.

Fixpoint appended (ops : list edit) : list (list Byte.byte) :=
  match ops with
  | [] => []
  | Append bs :: ops' => bs :: appended ops'
  | Prepend _ :: ops' => appended ops'
  end.

Fixpoint prepended (ops : list edit) : list (list Byte.byte) :=
  match ops with
  | [] => []
  | Append _ :: ops' => prepended ops'
  | Prepend bs :: ops' => bs :: prepended ops'
  end.

(** The bytes in use: the first [len] bytes of the storage. *)
Definition contents (buf : iobuf) : list cell := take (Z.to_nat (len buf)) (data buf).

(** A buffer whose bytes in use are [c], all of them written. *)
Definition holds (buf : iobuf) (c : list Byte.byte) : Prop :=
  sz buf = Z.of_nat (length (data buf))
  /\ (sz buf < size_max)%Z
  /\ len buf = Z.of_nat (length c)
  /\ contents buf = Some <$> c.

(** *** The other operations of the buffer *)

(** The outcome of an operation that asserts: a result, a failed [assert],
    or an access outside the storage. *)
Inductive checked (A : Type) :=
  | Ok (a : A)
  | AssertFail
  | OutOfBounds.
Arguments Ok {A} a.
Arguments AssertFail {A}.
Arguments OutOfBounds {A}.

(** [iobuf_pop(buf, nbytes)]; [nbytes] is a [size_t]. *)
Definition iobuf_pop (buf : iobuf) (nbytes : Z) : checked iobuf :=
  if decide (nbytes <= len buf)%Z
  then
    if decide (nbytes = len buf)
    then Ok {| sz := sz buf; len := 0; data := data buf; fds := fds buf |}
    else
      match (src ← read_at nbytes (len buf - nbytes) (data buf);
             write_at 0 src (data buf)) with
      | Some d => Ok {| sz := sz buf; len := len buf - nbytes; data := d; fds := fds buf |}
      | None => OutOfBounds
      end
  else AssertFail.

(** The system calls of [iobuf_free] and [iobuf_send]. *)
Inductive io_call :=
  | IoClose (fd : Z)
  | IoSend (fd : Z) (bs : list cell)
  | IoSendmsg (fd : Z) (bs : list cell) (rights : list Z).

(** [xclose(fd)] *)
Definition xclose (fd : Z) : list io_call :=
  if decide (fd <> -1)%Z then [IoClose fd] else [].

(** The loop [while ((fd = iobuf_take_fd(buf)) != -1) xclose(fd);] of
    [iobuf_free]; [fuel] bounds the number of iterations. *)
Fixpoint free_fds (fuel : nat) (buf : iobuf) : option (list io_call) :=
  match fuel with
  | O => None
  | S fuel' =>
      let '(fd, buf') := iobuf_take_fd buf in
      if decide (fd <> -1)%Z
      then rest ← free_fds fuel' buf'; Some (xclose fd ++ rest)
      else Some []
  end.

(** [iobuf_free(buf)]: nothing for the null pointer; else the storage is
    freed, the queued descriptors are closed, the buffer is freed.  The
    result is the system calls made. *)
Definition iobuf_free (fuel : nat) (buf : option iobuf) : option (list io_call) :=
  match buf with
  | None => Some []
  | Some b => free_fds fuel {| sz := 0; len := 0; data := []; fds := fds b |}
  end.

(** [SYSCALL(call)]: the call is repeated while it fails with [EINTR].
    The answer that ends the loop, the number of calls made and the answers
    left; [None] when the answers run out. *)
Fixpoint syscall_retry (rs : list os_reply) : option (os_reply * nat * list os_reply) :=
  match rs with
  | [] => None
  | r :: rs' =>
      if decide (ret r = -1 /\ errno r = EINTR)%Z
      then '(r', n, rest) ← syscall_retry rs'; Some (r', S n, rest)
      else Some (r, 1, rs')
  end.

(** The loop [for (nfds = 0; fds != NULL && fds[nfds] != -1; nfds++)] of
    [xsend_with_fd] from [i] on; reading past the end of the array is
    [None]. *)
Fixpoint count_fds (fuel i : nat) (fds : list Z) : option nat :=
  match fuel with
  | O => None
  | S fuel' =>
      v ← fds !! i;
      if decide (v <> -1)%Z then count_fds fuel' (S i) fds else Some i
  end.

(** [xsend_with_fd(fd, buf, len, fds)]: [bs] is the [len] bytes at [buf],
    [fds] the array, [None] for the null pointer; [rs] are the answers of
    the operating system.  The value returned and the calls made. *)
Definition xsend_with_fd (fd : Z) (bs : list cell) (fds : option (list Z))
    (rs : list os_reply) : option (Z * list io_call) :=
  nfds ← match fds with
         | None => Some 0
         | Some a => count_fds (S (length a)) 0 a
         end;
  '(r, n, _) ← syscall_retry rs;
  if decide (nfds = 0)
  then Some (xerrno r, replicate n (IoSend fd bs))
  else Some (xerrno r, replicate n (IoSendmsg fd bs (take nfds (default [] fds)))).

(** [iobuf_send(buf, fd)]: the first [len] bytes of the storage and the
    descriptor array go to [xsend_with_fd]. *)
Definition iobuf_send (buf : iobuf) (fd : Z) (rs : list os_reply)
  : option (Z * list io_call) :=
  bs ← read_at 0 (len buf) (data buf);
  xsend_with_fd fd bs (Some (fds buf)) rs.

(** *** Receiving bytes and descriptors *)

Definition SOL_SOCKET : Z := 1.
Definition SCM_RIGHTS : Z := 1.

(** A control message: its level and type and the [int]s of its data,
    [(cmsg_len - CMSG_LEN(0)) / sizeof(int)] of them. *)
Record cmsghdr := Cmsg { cmsg_level : Z; cmsg_type : Z; cmsg_ints : list Z }.

(** What one [recvmsg(2)] will answer: bytes with control messages, or a
    failure with its errno. *)
Inductive recv_reply :=
  | RecvMsg (bs : list Byte.byte) (control : list cmsghdr)
  | RecvFail (e : Z).

Definition MAX_FDS : nat := 32.

(** Writing slot [i] of an array of [int]s; past the end is [None]. *)
Definition array_set (i : nat) (v : Z) (a : list Z) : option (list Z) :=
  if decide (i < length a) then Some (<[i := v]> a) else None.

(** The inner loop of [xread_with_fds] over the [int]s of one control
    message: [fd_return[idx++] = *fd; fd++; if (idx >= MAX_FDS) break;]. *)
Fixpoint collect_ints (ints : list Z) (a : list Z) (idx : nat) : option (list Z * nat) :=
  match ints with
  | [] => Some (a, idx)
  | f :: ints' =>
      a' ← array_set idx f a;
      if decide (MAX_FDS <= S idx) then Some (a', S idx)
      else collect_ints ints' a' (S idx)
  end.

(** The loop over the control messages. *)
Fixpoint collect_control (hdrs : list cmsghdr) (a : list Z) (idx : nat)
  : option (list Z * nat) :=
  match hdrs with
  | [] => Some (a, idx)
  | h :: hdrs' =>
      if decide (cmsg_level h <> SOL_SOCKET \/ cmsg_type h <> SCM_RIGHTS)
      then collect_control hdrs' a idx
      else '(a', idx') ← collect_ints (cmsg_ints h) a idx;
           collect_control hdrs' a' idx'
  end.

(** [xread_with_fds(fd, buf, count, &fds)]: the value returned, the bytes
    received, the array stored in [*fds] ([None] when [*fds] is left as it
    was) and the answers left.  The kernel hands out at most [count] bytes;
    [recvmsg] is repeated while it fails with [EINTR]. *)
Fixpoint xread_with_fds (count : nat) (rs : list recv_reply)
  : option (Z * list Byte.byte * option (list Z) * list recv_reply) :=
  match rs with
  | [] => None
  | RecvFail e :: rs' =>
      if decide (e = EINTR) then xread_with_fds count rs'
      else Some (xerrno (OsReply (-1) e), [], None, rs')
  | RecvMsg bs control :: rs' =>
      let received := Z.of_nat (length (take count bs)) in
      if decide (received > 0)%Z
      then
        '(a, idx) ← collect_control control (replicate (MAX_FDS + 1) 0%Z) 0;
        a' ← array_set idx (-1) a;
        Some (received, take count bs, Some a', rs')
      else Some (received, take count bs, None, rs')
  end.

(** The loop of [iobuf_recv_from_fd] that queues the descriptors received:
    [for (idx = 0; *fd != -1 && idx < ARRAY_LENGTH(buf->fds) - 1; idx++)];
    [n] is the number of slots left, [fdp] the position of [fd] in the array
    received. *)
Fixpoint queue_fds (n idx : nat) (slots : list Z) (a : list Z) (fdp : nat)
  : option (list Z) :=
  f ← a !! fdp;
  if decide (f <> -1)%Z
  then
    match n with
    | O => Some slots
    | S n' =>
        s ← slots !! idx;
        if decide (s = -1)%Z
        then queue_fds n' (S idx) (<[idx := f]> slots) a (S fdp)
        else queue_fds n' (S idx) slots a fdp
    end
  else Some slots.

(** The [do ... while] loop of [iobuf_recv_from_fd]. *)
Fixpoint recv_from_fd_loop (fuel : nat) (rs : list recv_reply) (buf : iobuf) (nread : Z)
  : option (Z * iobuf) :=
  match fuel with
  | O => None
  | S fuel' =>
      '(rc, bs, fds_in, rs') ← xread_with_fds CHUNK rs;
      if decide (rc = 0 \/ rc = - EAGAIN)%Z
      then Some (if decide (nread = 0)%Z then rc else to_int nread, buf)
      else if decide (rc < 0)%Z then Some (rc, buf)
      else
        buf1 ← iobuf_append buf bs;
        slots ← match fds_in with
                | Some a => queue_fds (FDS_LENGTH - 1) 0 (fds buf1) a 0
                | None => Some (fds buf1)
                end;
        let buf2 := {| sz := sz buf1; len := len buf1; data := data buf1; fds := slots |} in
        let nread' := wrap_size (nread + rc) in
        if decide (rc = Z.of_nat CHUNK)
        then recv_from_fd_loop fuel' rs' buf2 nread'
        else Some (if decide (nread' = 0)%Z then rc else to_int nread', buf2)
  end.

Definition iobuf_recv_from_fd (buf : iobuf) (rs : list recv_reply) : option (Z * iobuf) :=
  recv_from_fd_loop (length rs) rs buf 0.

(** The descriptors a list of control messages carries. *)
Definition rights (control : list cmsghdr) : list Z :=
  concat ((fun h => if decide (cmsg_level h <> SOL_SOCKET \/ cmsg_type h <> SCM_RIGHTS)
                    then [] else cmsg_ints h) <$> control).

(** A message whose control messages carry descriptors that fit the control
    buffer of [xread_with_fds], which has room for [MAX_FDS] of them. *)
Definition carries (control : list cmsghdr) : Prop :=
  Forall (fun f => f <> (-1)%Z) (rights control) /\ length (rights control) <= MAX_FDS.

Definition msg_reply (m : list Byte.byte * list cmsghdr) : recv_reply := RecvMsg m.1 m.2.

(** *** Appending integers *)

(** The object representation of an unsigned integer of [n] bytes: least
    significant byte first, as on x86-64 and the other little-endian
    platforms. *)
Definition byte_of_Z (z : Z) : Byte.byte :=
  default Byte.x00 (Byte.of_N (Z.to_N (z mod 256))).
Fixpoint le_bytes (n : nat) (v : Z) : list Byte.byte :=
  match n with
  | O => []
  | S n' => byte_of_Z v :: le_bytes n' (v / 256)
  end.
Fixpoint le_value (bs : list Byte.byte) : Z :=
  match bs with
  | [] => 0
  | b :: bs' => Z.of_N (Byte.to_N b) + 256 * le_value bs'
  end.

(** The body shared by [iobuf_append_u32], [iobuf_append_u64] and
    [iobuf_append_f32]: [iobuf_extend(buf, len); memcpy(buf->data +
    buf->len, &data, len); buf->len += len;] with [bs] the bytes of
    [data]. *)
Definition append_object (buf : iobuf) (bs : list Byte.byte) : option iobuf :=
  let n := Z.of_nat (length bs) in
  let buf1 := iobuf_extend buf n in
  d ← write_at (len buf1) (Some <$> bs) (data buf1);
  Some {| sz := sz buf1; len := wrap_size (len buf1 + n); data := d; fds := fds buf1 |}.

(** [data] is a [uint32_t], a [uint64_t]. *)
Definition iobuf_append_u32 (buf : iobuf) (data : Z) : option iobuf :=
  append_object buf (le_bytes 4 data).
Definition iobuf_append_u64 (buf : iobuf) (data : Z) : option iobuf :=
  append_object buf (le_bytes 8 data).

(** *** A small buffer to run the code on *)

(** Two bytes in use out of four, two descriptors queued. *)
Definition buf_demo : iobuf :=
  {| sz := 4; len := 2; data := [Some Byte.x01; Some Byte.x02; None; None];
     fds := [9; 10]%Z ++ replicate 30 (-1)%Z |}.

End IoBuf.

(** ** The intrusive list and the source/sink reactor *)

Module Reactor.

(** Faults that end the run of the program: a failed [assert], an access
    to storage that was freed, a null pointer followed, and a loop of the
    model cut off by its fuel. *)
Inductive fault := AssertionFailed | UseAfterFree | NullDereference | OutOfFuel.

Inductive outcome (A : Type) :=
  | Done (a : A)
  | Fault (f : fault).
Arguments Done {A} a.
Arguments Fault {A} f.

Global Instance outcome_ret : MRet outcome := fun A a => Done a.
Global Instance outcome_bind : MBind outcome := fun A B f m =>
  match m with Done a => f a | Fault e => Fault e end.

Definition assert (b : bool) : outcome unit :=
  if b then Done () else Fault AssertionFailed.

(** A [struct list *]: the list heads of a sink or the link of a source.
    Sinks and sources are named by their address, a number. *)
Inductive node :=
  | SinkSources (k : nat)
  | SinkRemoved (k : nat)
  | SourceLink (p : nat).

Global Instance node_eq_dec : EqDecision node.
Proof. solve_decision. Defined.

(** [struct list]; [None] is the null pointer. *)
Record list_node := ListNode { prev : option node; next : option node }.

Global Instance list_node_eq_dec : EqDecision list_node.
Proof. solve_decision. Defined.

Inductive source_close_behavior :=
  | SOURCE_CLOSE_FD_ON_REMOVE
  | SOURCE_CLOSE_FD_ON_DESTROY
  | SOURCE_CLOSE_FD_NEVER.

Global Instance source_close_behavior_eq_dec : EqDecision source_close_behavior.
Proof. solve_decision. Defined.

(** What a dispatch callback does to the reactor: the calls of user code
    into this library, in order. *)
Inductive call :=
  | CallSourceRemove (q : nat)
  | CallSourceUnref (q : nat).

(** [struct source].  [refcount] is [object.refcount]; [object.parent] is
    null and [object.destroy] is [source_destroy] for every source.
    [dispatch] is the program of the callback. *)
Record source := Source {
  refcount : Z;
  src_sink : option nat;
  link : list_node;
  dispatch : list call;
  user_data : Z;
  close_behavior : source_close_behavior;
  fd : Z;
  is_active : bool;
}.

(** [struct sink]. *)
Record sink := Sink {
  sink_refcount : Z;
  epollfd : Z;
  sources : list_node;
  sources_removed : list_node;
}.

Inductive epoll_op := EPOLL_CTL_ADD | EPOLL_CTL_DEL | EPOLL_CTL_MOD.

(** The system calls of the reactor, as they are issued. *)
Inductive syscall :=
  | SysEpollCtl (epfd : Z) (op : epoll_op) (fd : Z) (ptr : option nat)
  | SysEpollWait (epfd : Z) (maxevents : nat) (timeout : Z)
  | SysClose (fd : Z).

(** The heap of sources and sinks, the system calls made so far and the
    callbacks invoked so far. *)
Record world := World {
  srcs : gmap nat source;
  sinks : gmap nat sink;
  trace : list syscall;
  dispatched : list nat;
}.

Definition with_srcs (m : gmap nat source) (w : world) : world :=
  {| srcs := m; sinks := sinks w; trace := trace w; dispatched := dispatched w |}.
Definition with_sinks (m : gmap nat sink) (w : world) : world :=
  {| srcs := srcs w; sinks := m; trace := trace w; dispatched := dispatched w |}.
Definition emit (c : syscall) (w : world) : world :=
  {| srcs := srcs w; sinks := sinks w; trace := trace w ++ [c]; dispatched := dispatched w |}.
Definition log_dispatch (p : nat) (w : world) : world :=
  {| srcs := srcs w; sinks := sinks w; trace := trace w; dispatched := dispatched w ++ [p] |}.

Definition set_refcount (r : Z) (s : source) : source :=
  {| refcount := r; src_sink := src_sink s; link := link s; dispatch := dispatch s;
     user_data := user_data s; close_behavior := close_behavior s; fd := fd s;
     is_active := is_active s |}.
Definition set_src_sink (k : option nat) (s : source) : source :=
  {| refcount := refcount s; src_sink := k; link := link s; dispatch := dispatch s;
     user_data := user_data s; close_behavior := close_behavior s; fd := fd s;
     is_active := is_active s |}.
Definition set_link (l : list_node) (s : source) : source :=
  {| refcount := refcount s; src_sink := src_sink s; link := l; dispatch := dispatch s;
     user_data := user_data s; close_behavior := close_behavior s; fd := fd s;
     is_active := is_active s |}.
Definition set_close_behavior (c : source_close_behavior) (s : source) : source :=
  {| refcount := refcount s; src_sink := src_sink s; link := link s; dispatch := dispatch s;
     user_data := user_data s; close_behavior := c; fd := fd s;
     is_active := is_active s |}.
Definition set_fd (f : Z) (s : source) : source :=
  {| refcount := refcount s; src_sink := src_sink s; link := link s; dispatch := dispatch s;
     user_data := user_data s; close_behavior := close_behavior s; fd := f;
     is_active := is_active s |}.
Definition set_is_active (b : bool) (s : source) : source :=
  {| refcount := refcount s; src_sink := src_sink s; link := link s; dispatch := dispatch s;
     user_data := user_data s; close_behavior := close_behavior s; fd := fd s;
     is_active := b |}.
Definition set_sources (l : list_node) (s : sink) : sink :=
  {| sink_refcount := sink_refcount s; epollfd := epollfd s; sources := l;
     sources_removed := sources_removed s |}.
Definition set_sources_removed (l : list_node) (s : sink) : sink :=
  {| sink_refcount := sink_refcount s; epollfd := epollfd s; sources := sources s;
     sources_removed := l |}.

(** Following a pointer to a source or a sink. *)
Definition get_source (p : nat) (w : world) : outcome source :=
  match srcs w !! p with Some s => Done s | None => Fault UseAfterFree end.
Definition get_sink (k : nat) (w : world) : outcome sink :=
  match sinks w !! k with Some s => Done s | None => Fault UseAfterFree end.

(** Writing a field of a source through a pointer. *)
Definition update_source (p : nat) (f : source -> source) (w : world) : outcome world :=
  s ← get_source p w; Done (with_srcs (<[p := f s]> (srcs w)) w).
Definition update_sink (k : nat) (f : sink -> sink) (w : world) : outcome world :=
  s ← get_sink k w; Done (with_sinks (<[k := f s]> (sinks w)) w).

(** Reading and writing a [struct list] through a pointer to it. *)
Definition load (n : node) (w : world) : outcome list_node :=
  match n with
  | SinkSources k => s ← get_sink k w; Done (sources s)
  | SinkRemoved k => s ← get_sink k w; Done (sources_removed s)
  | SourceLink p => s ← get_source p w; Done (link s)
  end.
Definition store (n : node) (v : list_node) (w : world) : outcome world :=
  match n with
  | SinkSources k => update_sink k (set_sources v) w
  | SinkRemoved k => update_sink k (set_sources_removed v) w
  | SourceLink p => update_source p (set_link v) w
  end.

Definition set_prev (n : node) (v : option node) (w : world) : outcome world :=
  l ← load n w; store n {| prev := v; next := next l |} w.
Definition set_next (n : node) (v : option node) (w : world) : outcome world :=
  l ← load n w; store n {| prev := prev l; next := v |} w.

(** Following [elm->next] or [elm->prev] to write through it. *)
Definition deref (v : option node) : outcome node :=
  match v with Some n => Done n | None => Fault NullDereference end.

(** *** util-list.cpp *)

Definition list_init (l : node) (w : world) : outcome world :=
  w ← set_prev l (Some l) w;
  set_next l (Some l) w.

Definition list_empty (l : node) (w : world) : outcome bool :=
  v ← load l w;
  _ ← assert (bool_decide (next v <> None /\ prev v <> None));
  Done (bool_decide (next v = Some l)).

(** The two assertions that open [list_insert] and [list_append]. *)
Definition list_check (l elm : node) (w : world) : outcome unit :=
  lv ← load l w;
  _ ← assert (bool_decide (next lv <> None /\ prev lv <> None));
  ev ← load elm w;
  ok ← (if bool_decide (next ev = None /\ prev ev = None) then Done true
        else list_empty elm w);
  assert ok.

Definition list_insert (l elm : node) (w : world) : outcome world :=
  _ ← list_check l elm w;
  w ← set_prev elm (Some l) w;
  lv ← load l w;
  w ← set_next elm (next lv) w;
  w ← set_next l (Some elm) w;
  ev ← load elm w;
  n ← deref (next ev);
  set_prev n (Some elm) w.

Definition list_append (l elm : node) (w : world) : outcome world :=
  _ ← list_check l elm w;
  w ← set_next elm (Some l) w;
  lv ← load l w;
  w ← set_prev elm (prev lv) w;
  w ← set_prev l (Some elm) w;
  ev ← load elm w;
  p ← deref (prev ev);
  set_next p (Some elm) w.

Definition list_remove (elm : node) (w : world) : outcome world :=
  ev ← load elm w;
  _ ← assert (bool_decide (next ev <> None /\ prev ev <> None));
  p ← deref (prev ev);
  w ← set_next p (next ev) w;
  ev ← load elm w;
  n ← deref (next ev);
  w ← set_prev n (prev ev) w;
  w ← set_next elm None w;
  set_prev elm None w.

(** Modelled from the spec: [list_for_each_safe] of util-list.h, which is
    not among the sources.  "Safe iteration during mutation (elements
    removing themselves mid-traversal) must be supported by taking the next
    pointer before invoking any callback that might mutate the list": [pos]
    is the element visited, [tmp] the one after it, read before the body
    runs on [pos]; the loop ends when [pos] is the head. *)
Fixpoint list_for_each_safe_from (fuel : nat) (head pos tmp : node)
    (body : node -> world -> outcome world) (w : world) : outcome world :=
  match fuel with
  | O => Fault OutOfFuel
  | S fuel' =>
      if decide (pos = head) then Done w
      else
        w ← body pos w;
        tv ← load tmp w;
        tmp' ← deref (next tv);
        list_for_each_safe_from fuel' head tmp tmp' body w
  end.

Definition list_for_each_safe (fuel : nat) (head : node)
    (body : node -> world -> outcome world) (w : world) : outcome world :=
  hv ← load head w;
  pos ← deref (next hv);
  pv ← load pos w;
  tmp ← deref (next pv);
  list_for_each_safe_from fuel head pos tmp body w.

(** [container_of(node, struct source, link)] *)
Definition source_of_link (n : node) : outcome nat :=
  match n with
  | SourceLink p => Done p
  | _ => Fault UseAfterFree
  end.

(** *** util-io.h and util-object.h *)

(** [xclose]: closes unless the descriptor is -1, and always returns -1. *)
Definition xclose (f : Z) (w : world) : Z * world :=
  ((-1)%Z, if decide (f <> -1)%Z then emit (SysClose f) w else w).

(** [source_ref]: [object_ref] on the object of the source. *)
Definition source_ref (p : nat) (w : world) : outcome world :=
  s ← get_source p w;
  _ ← assert (bool_decide (refcount s >= 1)%Z);
  update_source p (set_refcount (wrap_u32 (refcount s + 1))) w.

(** [source_destroy], the destroy callback of a source. *)
Definition source_destroy (p : nat) (w : world) : outcome world :=
  s ← get_source p w;
  _ ← assert (negb (is_active s));
  if decide (close_behavior s = SOURCE_CLOSE_FD_ON_DESTROY)
  then let '(f, w) := xclose (fd s) w in update_source p (set_fd f) w
  else Done w.

(** [free] of a source. *)
Definition free_source (p : nat) (w : world) : outcome world :=
  _ ← get_source p w; Done (with_srcs (delete p (srcs w)) w).

(** [source_unref]: nothing for the null pointer, else [object_unref],
    which destroys and frees the object when the count reaches 0. *)
Definition source_unref (src : option nat) (w : world) : outcome world :=
  match src with
  | None => Done w
  | Some p =>
      s ← get_source p w;
      _ ← assert (bool_decide (refcount s >= 1)%Z);
      let r := wrap_u32 (refcount s - 1) in
      w ← update_source p (set_refcount r) w;
      if decide (r = 0)%Z
      then w ← source_destroy p w; free_source p w
      else Done w
  end.

(** *** util-sources.cpp *)

Definition source_remove (src : option nat) (w : world) : outcome world :=
  match src with
  | None => Done w
  | Some p =>
      s ← get_source p w;
      if negb (is_active s) then Done w
      else
        k ← (match src_sink s with Some k => Done k | None => Fault NullDereference end);
        snk ← get_sink k w;
        let w := emit (SysEpollCtl (epollfd snk) EPOLL_CTL_DEL (fd s) None) w in
        w ← (if decide (close_behavior s = SOURCE_CLOSE_FD_ON_REMOVE)
             then let '(f, w) := xclose (fd s) w in update_source p (set_fd f) w
             else Done w);
        w ← update_source p (set_is_active false) w;
        w ← source_unref (Some p) w;
        w ← list_remove (SourceLink p) w;
        s ← get_source p w;
        k ← (match src_sink s with Some k => Done k | None => Fault NullDereference end);
        w ← list_append (SinkRemoved k) (SourceLink p) w;
        update_source p (set_src_sink None) w
  end.

Definition source_new (sourcefd : Z) (prog : list call) (data : Z) (w : world)
  : nat * world :=
  let p := fresh (dom (srcs w)) in
  (p, with_srcs (<[p := {| refcount := 1; src_sink := None;
                           link := {| prev := Some (SourceLink p); next := Some (SourceLink p) |};
                           dispatch := prog; user_data := data;
                           close_behavior := SOURCE_CLOSE_FD_ON_REMOVE;
                           fd := sourcefd; is_active := false |}]> (srcs w)) w).

Definition source_never_close_fd (p : nat) (w : world) : outcome world :=
  update_source p (set_close_behavior SOURCE_CLOSE_FD_NEVER) w.

(** [sink_new]; [reply] is the answer to [epoll_create1].  [None] is the
    null pointer returned on failure. *)
Definition sink_new (reply : os_reply) (w : world) : option nat * world :=
  if decide (ret reply < 0)%Z then (None, w)
  else
    let k := fresh (dom (sinks w)) in
    (Some k, with_sinks (<[k := {| sink_refcount := 1; epollfd := ret reply;
                                   sources := {| prev := Some (SinkSources k); next := Some (SinkSources k) |};
                                   sources_removed := {| prev := Some (SinkRemoved k); next := Some (SinkRemoved k) |} |}]>
                           (sinks w)) w).

(** [sink_add_source]; [reply] is the answer to [epoll_ctl(ADD)]. *)
Definition sink_add_source (k p : nat) (reply : os_reply) (w : world) : outcome (Z * world) :=
  w ← source_ref p w;
  snk ← get_sink k w;
  s ← get_source p w;
  let w := emit (SysEpollCtl (epollfd snk) EPOLL_CTL_ADD (fd s) (Some p)) w in
  let rc := xerrno reply in
  if decide (rc < 0)%Z
  then w ← source_unref (Some p) w; Done (rc, w)
  else
    w ← update_source p (set_is_active true) w;
    w ← update_source p (set_src_sink (Some k)) w;
    w ← source_ref p w;
    w ← list_append (SinkSources k) (SourceLink p) w;
    Done (0%Z, w).

(** [source_enable_write]; [reply] is the answer to [epoll_ctl(MOD)]. *)
Definition source_enable_write (p : nat) (reply : os_reply) (w : world) : outcome (Z * world) :=
  s ← get_source p w;
  _ ← assert (is_active s);
  k ← (match src_sink s with Some k => Done k | None => Fault NullDereference end);
  snk ← get_sink k w;
  let w := emit (SysEpollCtl (epollfd snk) EPOLL_CTL_MOD (fd s) (Some p)) w in
  let rc := xerrno reply in
  if decide (rc < 0)%Z
  then w ← source_unref (Some p) w; Done (rc, w)
  else Done (0%Z, w).

(** One call of user code. *)
Definition exec_call (c : call) (w : world) : outcome world :=
  match c with
  | CallSourceRemove q => source_remove (Some q) w
  | CallSourceUnref q => source_unref (Some q) w
  end.

Fixpoint exec_calls (cs : list call) (w : world) : outcome world :=
  match cs with
  | [] => Done w
  | c :: cs' => w ← exec_call c w; exec_calls cs' w
  end.

(** The answer to [epoll_wait]: a failure with its errno, or the sources
    whose descriptors are ready, in the order of the kernel. *)
Inductive epoll_reply :=
  | EpollFail (e : Z)
  | EpollReady (ready : list nat).

(** [sizeof(ep)/sizeof(ep[0])] for [epoll_event ep[32]]. *)
Definition MAX_EVENTS : nat := 32.

(** [epoll_wait(2)] fills in at most [maxevents] events. *)
Definition epoll_wait (ready : list nat) (maxevents : nat) : list nat :=
  take maxevents ready.

(** The first loop of [sink_dispatch], over the events returned. *)
Fixpoint dispatch_events (evs : list nat) (w : world) : outcome world :=
  match evs with
  | [] => Done w
  | p :: evs' =>
      s ← get_source p w;
      w ← (if decide (fd s = -1)%Z then Done w
           else exec_calls (dispatch s) (log_dispatch p w));
      dispatch_events evs' w
  end.

(** The body of the second loop of [sink_dispatch]. *)
Definition reap (n : node) (w : world) : outcome world :=
  p ← source_of_link n;
  w ← list_remove (SourceLink p) w;
  w ← list_init (SourceLink p) w;
  source_unref (Some p) w.

Definition sink_dispatch (fuel : nat) (k : nat) (reply : epoll_reply) (w : world)
  : outcome (Z * world) :=
  snk ← get_sink k w;
  let w := emit (SysEpollWait (epollfd snk) MAX_EVENTS 0) w in
  match reply with
  | EpollFail e => Done ((- e)%Z, w)
  | EpollReady ready =>
      w ← dispatch_events (epoll_wait ready MAX_EVENTS) w;
      w ← list_for_each_safe fuel (SinkRemoved k) reap w;
      Done (0%Z, w)
  end.

(** *** The lists behind the pointers *)

(** The storage of the node has not been freed. *)
Definition alive (w : world) (n : node) : Prop := exists v, load n w = Done v.

Definition next_of (w : world) (n : node) : option node :=
  match load n w with Done v => next v | Fault _ => None end.
Definition prev_of (w : world) (n : node) : option node :=
  match load n w with Done v => prev v | Fault _ => None end.

(** [b] follows [a]: [a->next == b] and [b->prev == a]. *)
Definition links (w : world) (a b : node) : Prop :=
  next_of w a = Some b /\ prev_of w b = Some a.

Fixpoint path (w : world) (l : list node) : Prop :=
  match l with
  | [] => True
  | a :: l' => match l' with [] => True | b :: _ => links w a b /\ path w l' end
  end.

(** The circular list of head [h] holds the nodes [L], in this order. *)
Definition dll (w : world) (h : node) (L : list node) : Prop :=
  NoDup (h :: L) /\ path w (h :: L ++ [h]).

(** The list heads that exist: those of the sinks of the heap. *)
Definition is_head (w : world) (h : node) : Prop :=
  match h with
  | SinkSources k | SinkRemoved k => is_Some (sinks w !! k)
  | SourceLink _ => False
  end.

Definition self_loop (n : node) : list_node := {| prev := Some n; next := Some n |}.

(** A link that is on no list: null pointers (after [list_remove]) or a
    list of its own (after [list_init]). *)
Definition detached_link (w : world) (p : nat) : Prop :=
  load (SourceLink p) w = Done (ListNode None None)
  \/ load (SourceLink p) w = Done (self_loop (SourceLink p)).

(** The lists are well formed: [mem h] lists the sources on the list of
    head [h], in order; no source is on two lists; a source on no list has
    a detached link. *)
Record lists_ok (w : world) (mem : node -> list nat) : Prop := {
  ok_dll : forall h, is_head w h -> dll w h (SourceLink <$> mem h);
  ok_nohead : forall h, ~ is_head w h -> mem h = [];
  ok_disjoint : forall h h' p, p ∈ mem h -> p ∈ mem h' -> h = h';
  ok_detached : forall p, alive w (SourceLink p) -> (forall h, p ∉ mem h) -> detached_link w p;
}.

(** The state of the reactor is consistent, and [spare q] references on [q]
    can be dropped by user code.  A source on [sink.sources] is active and
    counted two times for the sink, a source on [sink.sources_removed] is
    inactive and counted once, any other source is inactive. *)
Record reactor_inv (w : world) (mem : node -> list nat) (spare : nat -> Z) : Prop := {
  inv_lists : lists_ok w mem;
  inv_spare : forall q, (0 <= spare q)%Z;
  inv_active : forall k p, p ∈ mem (SinkSources k) ->
    exists s, srcs w !! p = Some s /\ is_active s = true /\ src_sink s = Some k
              /\ (2 + spare p <= refcount s < 2 ^ 32)%Z;
  inv_pending : forall k p, p ∈ mem (SinkRemoved k) ->
    exists s, srcs w !! p = Some s /\ is_active s = false
              /\ (1 + spare p <= refcount s < 2 ^ 32)%Z;
  inv_detached : forall p s, srcs w !! p = Some s -> (forall h, p ∉ mem h) ->
    is_active s = false /\ (1 <= refcount s < 2 ^ 32)%Z;
}.

(** [mem] with the list of head [h] replaced by [L]. *)
Definition mem_set (h : node) (L : list nat) (mem : node -> list nat) : node -> list nat :=
  fun h' => if decide (h' = h) then L else mem h'.

(** A source is registered when it is on a list of a sink. *)
Definition registered (mem : node -> list nat) (q : nat) : Prop := exists h, q ∈ mem h.

(** Everything but the list pointers is the same in [w] and [w']. *)
Definition erase_link (s : source) : source := set_link (ListNode None None) s.
Definition erase_heads (s : sink) : sink :=
  set_sources (ListNode None None) (set_sources_removed (ListNode None None) s).
Definition frame (w w' : world) : Prop :=
  trace w' = trace w /\ dispatched w' = dispatched w
  /\ (forall p, erase_link <$> srcs w' !! p = erase_link <$> srcs w !! p)
  /\ (forall k, erase_heads <$> sinks w' !! k = erase_heads <$> sinks w !! k).



(** The program of the callback of [p]. *)
Definition program (w : world) (p : nat) : list call :=
  match srcs w !! p with Some s => dispatch s | None => [] end.

(** *** Definitions used to state the properties *)

(** The nodes of the list of head [h]. *)
Definition cycle (mem : node -> list nat) (h : node) : list node :=
  h :: (SourceLink <$> mem h).

(** The fields of a source other than its link. *)
Definition fields (w : world) (p : nat) : option source := erase_link <$> srcs w !! p.

(** Writing a source back into the heap. *)
Definition put (p : nat) (s : source) (w : world) : world :=
  with_srcs (<[p := s]> (srcs w)) w.

(** What releasing the reference of the pending list does to a source:
    its storage is freed when that was the last reference. *)
Definition released (o : option source) : option source :=
  match o with
  | Some s => if decide (refcount s = 1)%Z then None
              else Some (set_refcount (refcount s - 1) s)
  | None => None
  end.

(** [w'] comes from [w] by system calls only: no callback was invoked. *)
Definition quiet (w w' : world) : Prop :=
  dispatched w' = dispatched w /\ exists rest, trace w' = trace w ++ rest.


(** *** Small reactors to run the code on *)

Definition w_empty : world := {| srcs := ∅; sinks := ∅; trace := []; dispatched := [] |}.

(** One sink, at address 0, on epoll descriptor 3. *)
Definition w_sink : world := (sink_new (OsReply 3 0) w_empty).2.

Definition done_or (w0 : world) (o : outcome world) : world :=
  match o with Done w => w | Fault _ => w0 end.

(** A source at address 0 on descriptor 7 with a callback that does nothing;
    then linked into the list of the sink by hand, then unlinked. *)
Definition w_one : world := (source_new 7 [] 0 w_sink).2.
Definition w_linked : world :=
  done_or w_one (list_append (SinkSources 0) (SourceLink 0) w_one).
Definition w_removed : world :=
  done_or w_linked (list_remove (SourceLink 0) w_linked).

(** A source whose callback removes the source and drops the reference of
    the caller; then added to the sink. *)
Definition demo_source : source :=
  {| refcount := 1; src_sink := None; link := self_loop (SourceLink 0);
     dispatch := [CallSourceRemove 0; CallSourceUnref 0]; user_data := 0;
     close_behavior := SOURCE_CLOSE_FD_ON_REMOVE; fd := 7; is_active := false |}.
Definition demo_sink : sink :=
  {| sink_refcount := 1; epollfd := 3; sources := self_loop (SinkSources 0);
     sources_removed := self_loop (SinkRemoved 0) |}.
Definition w_new : world :=
  (source_new 7 [CallSourceRemove 0; CallSourceUnref 0] 0 w_sink).2.
Definition w_active : world :=
  match sink_add_source 0 0 (OsReply 0 0) w_new with
  | Done (_, w) => w
  | Fault _ => w_new
  end.
Definition mem_active : node -> list nat := mem_set (SinkSources 0) [0] (fun _ => []).

(** The same source with a descriptor that is never closed, added and then
    removed: it waits on the pending list with its descriptor open. *)
Definition w_keep : world := done_or w_new (source_never_close_fd 0 w_new).
Definition w_keep_active : world :=
  match sink_add_source 0 0 (OsReply 0 0) w_keep with
  | Done (_, w) => w
  | Fault _ => w_keep
  end.
Definition w_keep_pending : world :=
  done_or w_keep_active (source_remove (Some 0) w_keep_active).

(** [n] sources with idle callbacks added to sink 0. *)
Fixpoint populate (n : nat) (w : world) : world :=
  match n with
  | O => w
  | S n' =>
      let w1 := populate n' w in
      let '(p, w2) := source_new (Z.of_nat (10 + n')) [] 0 w1 in
      match sink_add_source 0 p (OsReply 0 0) w2 with
      | Done (_, w3) => w3
      | Fault _ => w2
      end
  end.

Definition w_crowd : world := populate 33 w_sink.

(** The reactor after one pass over [w_crowd] with every source ready. *)
Definition w_crowd_after : world :=
  match sink_dispatch 40 0 (EpollReady (seq 0 33)) w_crowd with
  | Done (_, w) => w
  | Fault _ => w_crowd
  end.

(** *** The end of a sink *)

Definition set_sink_refcount (r : Z) (s : sink) : sink :=
  {| sink_refcount := r; epollfd := epollfd s; sources := sources s;
     sources_removed := sources_removed s |}.

(** [sink_get_fd]; [None] is the null pointer. *)
Definition sink_get_fd (snk : option nat) (w : world) : outcome Z :=
  match snk with
  | None => Fault AssertionFailed
  | Some k => s ← get_sink k w; Done (epollfd s)
  end.

(** [sink_destroy], the destroy callback of a sink: every source on
    [sources] is removed, every source on [sources_removed] loses a
    reference, the epoll descriptor is closed. *)
Definition remove_body (n : node) (w : world) : outcome world :=
  p ← source_of_link n; source_remove (Some p) w.
Definition unref_body (n : node) (w : world) : outcome world :=
  p ← source_of_link n; source_unref (Some p) w.
Definition sink_destroy (fuel : nat) (k : nat) (w : world) : outcome world :=
  w ← list_for_each_safe fuel (SinkSources k) remove_body w;
  w ← list_for_each_safe fuel (SinkRemoved k) unref_body w;
  snk ← get_sink k w;
  Done (xclose (epollfd snk) w).2.

(** [free] of a sink. *)
Definition free_sink (k : nat) (w : world) : outcome world :=
  _ ← get_sink k w; Done (with_sinks (delete k (sinks w)) w).

(** [sink_unref]: nothing for the null pointer, else [object_unref]. *)
Definition sink_unref (fuel : nat) (snk : option nat) (w : world) : outcome world :=
  match snk with
  | None => Done w
  | Some k =>
      s ← get_sink k w;
      _ ← assert (bool_decide (sink_refcount s >= 1)%Z);
      let r := wrap_u32 (sink_refcount s - 1) in
      w ← update_sink k (set_sink_refcount r) w;
      if decide (r = 0)%Z
      then w ← sink_destroy fuel k w; free_sink k w
      else Done w
  end.

(** *** Further definitions used to state the properties *)

(** A node that may be linked: its pointers are null or it is a list of
    its own. *)
Definition unlinked (w : world) (e : node) : Prop :=
  load e w = Done (ListNode None None) \/ load e w = Done (self_loop e).

(** The descriptor of the source is closed, or the source is freed. *)
Definition gone (w : world) (q : nat) : Prop :=
  match srcs w !! q with Some s => fd s = (-1)%Z | None => True end.

(** Every source of [w'] was a source of [w], with the same descriptor
    unless it was closed since. *)
Definition fd_kept (w w' : world) : Prop :=
  forall q s', srcs w' !! q = Some s' ->
    exists s, srcs w !! q = Some s /\ (fd s' = fd s \/ fd s' = (-1)%Z).

(** What [source_remove] leaves of an active source. *)
Definition removed (s : source) : source :=
  set_src_sink None (set_refcount (refcount s - 1) (set_is_active false
    (if decide (close_behavior s = SOURCE_CLOSE_FD_ON_REMOVE) then set_fd (-1) s else s))).

(** The [next] pointers lead from each node of [L] to the one after it, and
    from the last one to [h]. *)
Fixpoint chain (w : world) (h : node) (L : list node) : Prop :=
  match L with
  | [] => True
  | x :: L' => next_of w x = Some (hd h L') /\ chain w h L'
  end.

(** The system calls [source_remove] makes for an active source of a sink
    on epoll descriptor [epfd]. *)
Definition removal_calls (epfd : Z) (s : source) : list syscall :=
  SysEpollCtl epfd EPOLL_CTL_DEL (fd s) None
  :: (if decide (close_behavior s = SOURCE_CLOSE_FD_ON_REMOVE /\ fd s <> (-1)%Z)
      then [SysClose (fd s)] else []).

(** The system calls [source_unref] makes for an inactive source. *)
Definition release_calls (s : source) : list syscall :=
  if decide (refcount s = 1%Z /\ close_behavior s = SOURCE_CLOSE_FD_ON_DESTROY
             /\ fd s <> (-1)%Z)
  then [SysClose (fd s)] else [].

(** The sources at the addresses [L], without their links. *)
Definition the_sources (w : world) (L : list nat) : list source :=
  omap (fields w) L.

(** *** The small reactors, continued *)

(** The source and the sink of [w_active], and the reactor after the source
    has been removed. *)
Definition active_source : source :=
  {| refcount := 3; src_sink := Some 0;
     link := {| prev := Some (SinkSources 0); next := Some (SinkSources 0) |};
     dispatch := [CallSourceRemove 0; CallSourceUnref 0]; user_data := 0;
     close_behavior := SOURCE_CLOSE_FD_ON_REMOVE; fd := 7; is_active := true |}.
Definition active_sink : sink :=
  {| sink_refcount := 1; epollfd := 3;
     sources := {| prev := Some (SourceLink 0); next := Some (SourceLink 0) |};
     sources_removed := self_loop (SinkRemoved 0) |}.
Definition w_pending : world := done_or w_active (source_remove (Some 0) w_active).

End Reactor.

(** * Properties *)

Module IoBufFacts.
Import IoBuf.

Lemma append_fd_loop_full n idx buf fd dup :
  (forall i, idx <= i < idx + n -> fds buf !! i <> Some (-1)%Z) ->
  append_fd_loop n idx buf fd dup = ((- ENOMEM)%Z, buf, []).
Proof.
  revert idx. induction n as [|n IH]; intros idx Hfull; simpl; [done|].
  destruct (decide (fds buf !! idx = Some (-1)%Z)) as [Hfree|_].
  - exfalso. apply (Hfull idx); [lia | done].
  - apply IH. intros i Hi. apply Hfull. lia.
Qed.

Lemma append_fd_loop_free n idx i buf fd dup :
  idx <= i < idx + n ->
  fds buf !! i = Some (-1)%Z ->
  (forall j, idx <= j < i -> fds buf !! j <> Some (-1)%Z) ->
  append_fd_loop n idx buf fd dup =
    if decide (ret (dup fd) = -1)%Z
    then ((- errno (dup fd))%Z, buf, [SysDup fd])
    else (0%Z, {| sz := sz buf; len := len buf; data := data buf;
                  fds := <[i := ret (dup fd)]> (fds buf) |}, [SysDup fd]).
Proof.
  revert idx. induction n as [|n IH]; intros idx Hi Hfree Hbefore; simpl; [lia|].
  destruct (decide (fds buf !! idx = Some (-1)%Z)) as [Hidx|Hidx].
  - assert (i = idx) as ->; [|done].
    destruct (decide (i = idx)) as [|Hne]; [done|].
    exfalso. apply (Hbefore idx); [lia | done].
  - apply IH; [|done|].
    + destruct (decide (i = idx)) as [->|]; [congruence | lia].
    + intros j Hj. apply Hbefore. lia.
Qed.

Lemma append_fd_loop_slot n idx buf fd dup k :
  idx + n <= k ->
  fds (append_fd_loop n idx buf fd dup).1.2 !! k = fds buf !! k.
Proof.
  revert idx. induction n as [|n IH]; intros idx Hk; simpl; [done|].
  destruct (decide (fds buf !! idx = Some (-1)%Z)).
  - destruct (decide (ret (dup fd) = -1)%Z); simpl; [done|].
    apply list_lookup_insert_ne. lia.
  - apply IH. lia.
Qed.

(** C2: with all 31 usable slots taken, [iobuf_append_fd] returns -ENOMEM,
    calls [dup] not at all and gives the buffer back as it was; with a free
    slot among the first 31, [dup] is called once on the descriptor and its
    result goes into the first free slot (when [dup] fails, its errno is
    returned and the buffer stays as it was); the last slot is never
    written. *)
Theorem iobuf_append_fd_capacity (buf : iobuf) (fd : Z) (dup : Z -> os_reply) :
  length (fds buf) = FDS_LENGTH ->
  ((forall i, i < FDS_LENGTH - 1 -> fds buf !! i <> Some (-1)%Z) ->
     iobuf_append_fd buf fd dup = ((- ENOMEM)%Z, buf, []))
  /\ (forall i, i < FDS_LENGTH - 1 ->
        fds buf !! i = Some (-1)%Z ->
        (forall j, j < i -> fds buf !! j <> Some (-1)%Z) ->
        let '(rc, buf', calls) := iobuf_append_fd buf fd dup in
        calls = [SysDup fd]
        /\ (ret (dup fd) <> (-1)%Z ->
              rc = 0%Z /\ fds buf' = <[i := ret (dup fd)]> (fds buf)
              /\ fds buf' !! i = Some (ret (dup fd))
              /\ sz buf' = sz buf /\ len buf' = len buf /\ data buf' = data buf)
        /\ (ret (dup fd) = (-1)%Z -> rc = (- errno (dup fd))%Z /\ buf' = buf))
  /\ fds (iobuf_append_fd buf fd dup).1.2 !! (FDS_LENGTH - 1) = fds buf !! (FDS_LENGTH - 1).
Proof.
  intros Hlen. unfold iobuf_append_fd. split; [|split].
  - intros Hfull. apply append_fd_loop_full. intros i Hi. apply Hfull. lia.
  - intros i Hi Hfree Hbefore.
    rewrite (append_fd_loop_free _ _ i); [|lia|done|intros j Hj; apply Hbefore; lia].
    destruct (decide (ret (dup fd) = -1)%Z) as [Hf|Hf].
    + split; [done|]. split; [done|]. done.
    + split; [done|]. split; [|done]. intros _. simpl.
      split; [done|]. split; [done|]. split; [|done].
      apply list_lookup_insert_eq. unfold FDS_LENGTH in *. lia.
  - apply append_fd_loop_slot. unfold FDS_LENGTH. lia.
Qed.

Lemma iobuf_append_fd_capacity_witness :
  let buf := iobuf_new 16 in
  length (fds buf) = FDS_LENGTH
  /\ fds (iobuf_append_fd buf 5 (fun _ => OsReply 9 0)).1.2 !! (FDS_LENGTH - 1)
     = fds buf !! (FDS_LENGTH - 1).
Proof.
  split; [reflexivity|].
  apply (iobuf_append_fd_capacity (iobuf_new 16) 5 (fun _ => OsReply 9 0)). reflexivity.
Defined.

Lemma fd_queue_lookup_free buf q i :
  fd_queue buf q -> length q <= i < FDS_LENGTH -> fds buf !! i = Some (-1)%Z.
Proof.
  intros (Hfds & Hlen & _) Hi. rewrite Hfds, lookup_app_r by lia.
  apply lookup_replicate_2. lia.
Qed.

Lemma fd_queue_lookup_live buf q i :
  fd_queue buf q -> i < length q -> fds buf !! i <> Some (-1)%Z.
Proof.
  intros (Hfds & Hlen & Hlive) Hi Hfree.
  rewrite Hfds, lookup_app_l in Hfree by lia.
  rewrite Forall_forall in Hlive. apply (Hlive (-1)%Z); [|done].
  eapply list_elem_of_lookup_2, Hfree.
Qed.

Lemma iobuf_append_fd_queue buf q fd dup :
  fd_queue buf q ->
  dup_reply_ok (dup fd) ->
  (iobuf_append_fd buf fd dup).1.1 = 0%Z ->
  fd_queue (iobuf_append_fd buf fd dup).1.2 (q ++ [ret (dup fd)]).
Proof.
  intros Hq Hdup. unfold iobuf_append_fd.
  destruct (decide (length q < FDS_LENGTH - 1)) as [Hroom|Hfull].
  - rewrite (append_fd_loop_free _ _ (length q)).
    + destruct (decide (ret (dup fd) = -1)%Z) as [Hf|Hf]; simpl.
      * destruct Hdup as [[_ He]|Hret]; lia.
      * intros _. destruct Hq as (Hfds & Hlen & Hlive).
        unfold fd_queue. simpl. rewrite Hfds. split; [|split].
        -- replace (length q) with (length q + 0) at 1 by lia.
           rewrite insert_app_r, length_app. simpl.
           replace (FDS_LENGTH - length q) with (S (FDS_LENGTH - (length q + 1))) by lia.
           simpl. by rewrite <- app_assoc.
        -- rewrite length_app. simpl. lia.
        -- apply Forall_app. split; [done|]. by apply Forall_singleton.
    + lia.
    + apply (fd_queue_lookup_free _ q); [done|]. unfold FDS_LENGTH in *. lia.
    + intros j Hj. apply (fd_queue_lookup_live _ q); [done | lia].
  - rewrite append_fd_loop_full; [simpl; unfold ENOMEM; lia|].
    intros i Hi. apply (fd_queue_lookup_live _ q); [done | lia].
Qed.

Lemma iobuf_take_fd_nil buf :
  fd_queue buf [] -> iobuf_take_fd buf = ((-1)%Z, buf).
Proof.
  intros Hq. unfold iobuf_take_fd.
  rewrite (fd_queue_lookup_free buf []); [done..|]. simpl. unfold FDS_LENGTH. lia.
Qed.

Lemma iobuf_take_fd_cons buf f q :
  fd_queue buf (f :: q) ->
  (iobuf_take_fd buf).1 = f /\ fd_queue (iobuf_take_fd buf).2 q.
Proof.
  intros (Hfds & Hlen & Hlive). unfold iobuf_take_fd. rewrite Hfds. simpl in *.
  apply Forall_cons in Hlive as [Hf Hlive].
  destruct (decide (f <> (-1)%Z)); [|done]. simpl. split; [done|].
  unfold fd_queue. simpl. split; [|split; [lia | done]].
  rewrite drop_0.
  rewrite take_ge by (rewrite length_app, length_replicate; unfold FDS_LENGTH in *; lia).
  rewrite <- app_assoc. f_equal.
  change (f :: q ++ replicate (FDS_LENGTH - S (length q)) (-1)%Z)
    with ((f :: q) ++ replicate (FDS_LENGTH - S (length q)) (-1)%Z).
  rewrite drop_app_ge by (simpl; unfold FDS_LENGTH in *; lia).
  rewrite drop_replicate, <- replicate_add. f_equal.
  simpl. unfold FDS_LENGTH in *. lia.
Qed.

Lemma append_fds_queue calls : forall buf q,
  fd_queue buf q ->
  Forall (fun c => dup_reply_ok (c.2 c.1)) calls ->
  Forall (fun rc => rc = 0%Z) (append_fds calls buf).1 ->
  fd_queue (append_fds calls buf).2 (q ++ ((fun c => ret (c.2 c.1)) <$> calls)).
Proof.
  induction calls as [|[fd dup] calls IH]; intros buf q Hq Hok Hrc; simpl in *.
  - by rewrite app_nil_r.
  - apply Forall_cons in Hok as [Hok1 Hok].
    pose proof (iobuf_append_fd_queue buf q fd dup Hq Hok1) as Hstep.
    destruct (iobuf_append_fd buf fd dup) as [[rc buf1] tr]. simpl in *.
    specialize (IH buf1 (q ++ [ret (dup fd)])).
    destruct (append_fds calls buf1) as [rcs buf2]. simpl in *.
    apply Forall_cons in Hrc as [Hrc1 Hrc].
    rewrite <- app_assoc in IH. apply IH; auto.
Qed.

Lemma take_fds_queue n : forall buf q,
  fd_queue buf q ->
  (take_fds n buf).1 = take n q ++ replicate (n - length q) (-1)%Z.
Proof.
  induction n as [|n IH]; intros buf q Hq; simpl; [done|].
  destruct q as [|f q].
  - rewrite (iobuf_take_fd_nil _ Hq). specialize (IH buf [] Hq).
    destruct (take_fds n buf) as [r buf2]. simpl in *. rewrite IH.
    rewrite take_nil. simpl. do 2 f_equal. lia.
  - destruct (iobuf_take_fd_cons _ _ _ Hq) as [Hfd Hq'].
    destruct (iobuf_take_fd buf) as [fd buf1]. simpl in *. subst fd.
    specialize (IH buf1 q Hq').
    destruct (take_fds n buf1) as [r buf2]. simpl in *. by rewrite IH.
Qed.

Lemma iobuf_new_fd_queue size : fd_queue (iobuf_new size) [].
Proof. split; [done|]. split; [simpl; unfold FDS_LENGTH; lia | constructor]. Qed.

(** C3: on a buffer whose queue holds [q] (empty for a new buffer), after
    calls of [iobuf_append_fd] that all returned 0, any number [n] of
    [iobuf_take_fd] calls returns the queued descriptors followed by those
    [dup] returned, oldest first, and -1 from then on. *)
Theorem iobuf_fd_fifo (buf : iobuf) (q : list Z) (calls : list (Z * (Z -> os_reply))) (n : nat) :
  fd_queue buf q ->
  Forall (fun c => dup_reply_ok (c.2 c.1)) calls ->
  Forall (fun rc => rc = 0%Z) (append_fds calls buf).1 ->
  let queued := q ++ ((fun c => ret (c.2 c.1)) <$> calls) in
  (take_fds n (append_fds calls buf).2).1
  = take n queued ++ replicate (n - length queued) (-1)%Z.
Proof.
  intros Hq Hok Hrc. simpl. apply take_fds_queue. by apply append_fds_queue.
Qed.

Lemma iobuf_fd_fifo_witness :
  let calls := [(3%Z, fun _ : Z => OsReply 10 0); (4%Z, fun _ : Z => OsReply 11 0)] in
  (take_fds 4 (append_fds calls (iobuf_new 8)).2).1 = [10; 11; -1; -1]%Z.
Proof.
  apply (iobuf_fd_fifo (iobuf_new 8) []
           [(3%Z, fun _ : Z => OsReply 10 0); (4%Z, fun _ : Z => OsReply 11 0)] 4).
  - apply iobuf_new_fd_queue.
  - repeat (constructor; [right; simpl; lia|]). constructor.
  - repeat constructor.
Defined.

Lemma holds_length buf c : holds buf c -> length c <= length (data buf).
Proof.
  intros (Hsz & _ & Hlen & Hc). unfold contents in Hc.
  apply (f_equal length) in Hc. rewrite length_fmap, length_take in Hc. lia.
Qed.

Lemma wrap_size_small z : (0 <= z < size_max)%Z -> wrap_size z = z.
Proof. intros. unfold wrap_size. by apply Z.mod_small. Qed.

Lemma iobuf_extend_holds buf c extra :
  holds buf c -> (0 <= extra)%Z -> (Z.of_nat (length c) + extra < size_max)%Z ->
  holds (iobuf_extend buf extra) c
  /\ (Z.of_nat (length c) + extra <= Z.of_nat (length (data (iobuf_extend buf extra))))%Z
  /\ fds (iobuf_extend buf extra) = fds buf.
Proof.
  intros Hh Hex Hfit. pose proof (holds_length _ _ Hh) as Hle.
  destruct Hh as (Hsz & Hmax & Hlen & Hc). unfold iobuf_extend.
  rewrite wrap_size_small by lia.
  destruct (decide (len buf + extra > sz buf)%Z) as [Hgrow|Hkeep].
  - unfold iobuf_resize, holds, contents. simpl.
    rewrite take_ge by lia.
    rewrite length_app, length_replicate.
    split; [|split; [lia | done]].
    split; [lia|]. split; [lia|]. split; [done|].
    rewrite take_app_le by lia. exact Hc.
  - split; [done|]. split; [lia | done].
Qed.

Lemma iobuf_append_holds buf c bs :
  holds buf c -> (Z.of_nat (length c) + Z.of_nat (length bs) < size_max)%Z ->
  exists buf', iobuf_append buf bs = Some buf' /\ holds buf' (c ++ bs) /\ fds buf' = fds buf.
Proof.
  intros Hh Hfit. unfold iobuf_append.
  destruct (decide (Z.of_nat (length bs) = 0)%Z) as [Hz|Hnz].
  { assert (bs = []) as -> by (destruct bs; [done | simpl in Hz; lia]).
    exists buf. by rewrite app_nil_r. }
  destruct (iobuf_extend_holds buf c (Z.of_nat (length bs)) Hh) as (Hh1 & Hroom & Hfds); [lia..|].
  set (buf1 := iobuf_extend buf (Z.of_nat (length bs))) in *.
  destruct Hh1 as (Hsz & Hmax & Hlen & Hc).
  unfold write_at. rewrite length_fmap.
  destruct (decide _) as [_|Hbad]; [|lia]. simpl.
  eexists. split; [done|]. split; [|done].
  unfold holds, contents. simpl.
  rewrite !length_app, length_take, length_fmap, length_drop.
  rewrite wrap_size_small by lia.
  split; [lia|]. split; [lia|]. split; [lia|].
  unfold contents in Hc. rewrite Hlen, !Nat2Z.id in *.
  rewrite <- Nat2Z.inj_add, Nat2Z.id.
  rewrite Hc. rewrite app_assoc.
  rewrite take_app_length'; [by rewrite fmap_app|].
  by rewrite length_app, !length_fmap.
Qed.

Lemma iobuf_prepend_holds buf c bs :
  holds buf c -> (Z.of_nat (length c) + Z.of_nat (length bs) < size_max)%Z ->
  exists buf', iobuf_prepend buf bs = Some buf' /\ holds buf' (bs ++ c) /\ fds buf' = fds buf.
Proof.
  intros Hh Hfit. unfold iobuf_prepend.
  destruct (decide (Z.of_nat (length bs) = 0)%Z) as [Hz|Hnz].
  { assert (bs = []) as -> by (destruct bs; [done | simpl in Hz; lia]).
    by exists buf. }
  destruct (iobuf_extend_holds buf c (Z.of_nat (length bs)) Hh) as (Hh1 & Hroom & Hfds); [lia..|].
  change (if decide (wrap_size (len buf + Z.of_nat (length bs)) > sz buf)%Z
          then iobuf_resize (Some (data buf)) buf (wrap_size (len buf + Z.of_nat (length bs)))
          else buf) with (iobuf_extend buf (Z.of_nat (length bs))).
  set (buf1 := iobuf_extend buf (Z.of_nat (length bs))) in *. clearbody buf1.
  destruct Hh1 as (Hsz & Hmax & Hlen & Hc). unfold contents in Hc.
  rewrite Hlen in *. rewrite Nat2Z.id in Hc.
  assert (exists rest, data buf1 = (Some <$> c) ++ rest) as [rest Hdata].
  { exists (drop (length c) (data buf1)). by rewrite <- Hc, take_drop. }
  assert (length (data buf1) = length c + length rest) as Hdlen
    by (by rewrite Hdata, length_app, length_fmap).
  assert (exists d1, (if decide (Z.of_nat (length c) > 0)%Z
            then old ← read_at 0 (Z.of_nat (length c)) (data buf1);
                 write_at (Z.of_nat (length bs)) old (data buf1)
            else Some (data buf1)) = Some d1
          /\ length d1 = length (data buf1)
          /\ take (length c) (drop (length bs) d1) = Some <$> c) as (d1 & -> & Hd1len & Hd1).
  { destruct (decide (Z.of_nat (length c) > 0)%Z) as [Hpos|Hzero].
    - unfold read_at. destruct (decide _) as [_|Hbad]; [|lia]. simpl.
      rewrite Nat2Z.id, drop_0, Hc.
      unfold write_at. rewrite length_fmap. destruct (decide _) as [_|Hbad]; [|lia].
      eexists. split; [done|]. rewrite Nat2Z.id.
      rewrite !length_app, length_take_le, length_fmap, length_drop by lia.
      split; [lia|].
      rewrite drop_app_length' by (rewrite length_take_le; lia).
      by rewrite take_app_length' by (by rewrite length_fmap).
    - exists (data buf1). split; [done|]. split; [done|].
      assert (c = []) as -> by (destruct c; [done | simpl in Hzero; lia]). done. }
  simpl. unfold write_at. rewrite length_fmap.
  destruct (decide _) as [_|Hbad]; [|lia]. simpl.
  eexists. split; [done|]. split; [|done].
  unfold holds, contents. simpl.
  rewrite length_app, length_fmap, length_drop, wrap_size_small by lia.
  split; [lia|]. split; [lia|]. split; [rewrite length_app; lia|].
  rewrite Z.add_comm, <- Nat2Z.inj_add, Nat2Z.id.
  rewrite take_app_add' by (by rewrite length_fmap).
  by rewrite Hd1, fmap_app.
Qed.

Lemma edits_holds ops : forall buf c,
  holds buf c -> (Z.of_nat (length c) + total_length ops < size_max)%Z ->
  exists buf', edits ops buf = Some buf'
    /\ holds buf' (concat (reverse (prepended ops)) ++ c ++ concat (appended ops))
    /\ fds buf' = fds buf.
Proof.
  induction ops as [|[bs|bs] ops IH]; intros buf c Hh Hfit; simpl in *.
  - exists buf. by rewrite app_nil_r.
  - assert (0 <= total_length ops)%Z as Hnn.
    { clear. induction ops as [|[?|?] ? ?]; simpl; lia. }
    destruct (iobuf_append_holds buf c bs Hh) as (buf1 & -> & Hh1 & Hfds1); [lia|].
    simpl. destruct (IH buf1 (c ++ bs) Hh1) as (buf2 & -> & Hh2 & Hfds2).
    { rewrite length_app. lia. }
    exists buf2. split; [done|]. rewrite <- app_assoc in Hh2. split; [done | congruence].
  - assert (0 <= total_length ops)%Z as Hnn.
    { clear. induction ops as [|[?|?] ? ?]; simpl; lia. }
    destruct (iobuf_prepend_holds buf c bs Hh) as (buf1 & -> & Hh1 & Hfds1); [lia|].
    simpl. destruct (IH buf1 (bs ++ c) Hh1) as (buf2 & -> & Hh2 & Hfds2).
    { rewrite length_app. lia. }
    exists buf2. split; [done|]. split; [|congruence].
    rewrite reverse_cons, concat_app. simpl. rewrite app_nil_r, <- !app_assoc.
    by rewrite <- app_assoc in Hh2.
Qed.

Lemma iobuf_new_holds size : (0 <= size < size_max)%Z -> holds (iobuf_new size) [].
Proof.
  intros Hsize. unfold holds, contents, iobuf_new, malloc. simpl.
  rewrite length_replicate. split; [lia|]. split; [lia|]. done.
Qed.

Lemma total_length_sum ops :
  total_length ops = Z.of_nat (length (concat (reverse (prepended ops)) ++ concat (appended ops))).
Proof.
  induction ops as [|[bs|bs] ops IH]; simpl; [done|..]; rewrite IH.
  - rewrite !length_app. lia.
  - rewrite reverse_cons, concat_app, !length_app. simpl. rewrite app_nil_r. lia.
Qed.

(** C4: any sequence of [iobuf_append] and [iobuf_prepend] on a new buffer
    whose lengths add up to less than [SIZE_MAX] completes; the length of
    the buffer is then the sum of the lengths, and its bytes are the
    prepended chunks, last call first, followed by the appended chunks in
    call order.  A single append or prepend on a buffer holding [c] leaves
    it holding [c] with the new bytes after or before. *)
Theorem iobuf_append_prepend_contents (size : Z) (ops : list edit) :
  (0 <= size < size_max)%Z ->
  (total_length ops < size_max)%Z ->
  exists buf,
    edits ops (iobuf_new size) = Some buf
    /\ iobuf_len buf = total_length ops
    /\ contents buf = Some <$> (concat (reverse (prepended ops)) ++ concat (appended ops))
    /\ (forall b c bs, holds b c ->
          (Z.of_nat (length c) + Z.of_nat (length bs) < size_max)%Z ->
          (exists b', iobuf_append b bs = Some b' /\ contents b' = Some <$> (c ++ bs))
          /\ (exists b', iobuf_prepend b bs = Some b' /\ contents b' = Some <$> (bs ++ c))).
Proof.
  intros Hsize Htotal.
  destruct (edits_holds ops (iobuf_new size) [] (iobuf_new_holds size Hsize)) as (buf & Hrun & Hh & _).
  { simpl. lia. }
  exists buf. simpl in Hh. destruct Hh as (_ & _ & Hlen & Hc).
  split; [done|]. split; [|split; [done|]].
  - unfold iobuf_len. by rewrite Hlen, total_length_sum.
  - intros b c bs Hb Hfit. split.
    + destruct (iobuf_append_holds b c bs Hb Hfit) as (b' & ? & (_ & _ & _ & ?) & _). eauto.
    + destruct (iobuf_prepend_holds b c bs Hb Hfit) as (b' & ? & (_ & _ & _ & ?) & _). eauto.
Qed.

Lemma iobuf_append_prepend_contents_witness :
  let ops := [Append [Byte.x01; Byte.x02]; Prepend [Byte.x03]; Append [Byte.x04]] in
  exists buf,
    edits ops (iobuf_new 2) = Some buf
    /\ iobuf_len buf = 4%Z
    /\ contents buf = Some <$> [Byte.x03; Byte.x01; Byte.x02; Byte.x04].
Proof.
  intros ops.
  destruct (iobuf_append_prepend_contents 2 ops) as (buf & Hrun & Hlen & Hc & _).
  - unfold size_max. lia.
  - vm_compute. reflexivity.
  - exists buf. split; [exact Hrun|]. split; [exact Hlen|exact Hc].
Defined.

(** After a buffer has grown, [iobuf_take_data] does not leave it with the
    capacity given to [iobuf_new]. *)
Lemma iobuf_take_data_original_capacity_cex :
  ~ (forall (size : Z) (ops : list edit) (buf : iobuf),
       edits ops (iobuf_new size) = Some buf ->
       sz (iobuf_take_data buf).2 = size).
Proof.
  intros H.
  specialize (H 2%Z [Append (replicate 5 Byte.x00)]).
  simpl in H. unfold iobuf_append in H. simpl in H.
  specialize (H _ eq_refl). vm_compute in H. discriminate H.
Qed.

(** C8: [iobuf_take_data] returns the storage of the buffer and leaves the
    buffer with length 0 and new storage of its current capacity [sz],
    the descriptors untouched; with no descriptor queued this is the buffer
    that [iobuf_new] makes for that capacity. *)
Theorem iobuf_take_data_current_capacity (buf : iobuf) :
  iobuf_take_data buf
  = (data buf, {| sz := sz buf; len := 0; data := malloc (sz buf); fds := fds buf |})
  /\ (fds buf = replicate FDS_LENGTH (-1)%Z -> (iobuf_take_data buf).2 = iobuf_new (sz buf)).
Proof.
  split; [reflexivity|]. intros Hfds. unfold iobuf_take_data, iobuf_resize, iobuf_new. simpl.
  by rewrite Hfds.
Qed.

(** Reading full chunks: the loop goes on, appending each chunk. *)
Lemma iobuf_append_chunks (cs : list (list Byte.byte)) : forall fuel rest buf c nread,
  Forall (fun bs => length bs = CHUNK) cs ->
  holds buf c ->
  (Z.of_nat (length c) + Z.of_nat CHUNK * Z.of_nat (length cs) < size_max)%Z ->
  (0 <= nread)%Z ->
  (nread + Z.of_nat CHUNK * Z.of_nat (length cs) < size_max)%Z ->
  exists buf',
    holds buf' (c ++ concat cs)
    /\ fds buf' = fds buf
    /\ append_from_fd_loop (length cs + fuel) ((ReadData <$> cs) ++ rest) buf nread
       = append_from_fd_loop fuel rest buf' (nread + Z.of_nat CHUNK * Z.of_nat (length cs)).
Proof.
  induction cs as [|bs cs IH]; intros fuel rest buf c nread Hcs Hh Hfit Hnn Hn.
  - exists buf. simpl. rewrite app_nil_r, Z.mul_0_r, Z.add_0_r. done.
  - apply Forall_cons in Hcs as [Hbs Hcs].
    cbn [length fmap list_fmap app Nat.add append_from_fd_loop xread] in *.
    rewrite take_ge by lia. rewrite Hbs.
    cbn [mbind option_bind].
    destruct (decide (Z.of_nat CHUNK = 0 \/ Z.of_nat CHUNK = - EAGAIN)%Z) as [Hbad|_].
    { exfalso. unfold CHUNK, EAGAIN in Hbad. lia. }
    destruct (decide (Z.of_nat CHUNK < 0)%Z) as [Hbad|_]; [lia|].
    destruct (iobuf_append_holds buf c bs Hh) as (buf1 & -> & Hh1 & Hfds1); [lia|].
    cbn [mbind option_bind].
    destruct (decide (Z.of_nat CHUNK = Z.of_nat CHUNK)) as [_|]; [|done].
    rewrite wrap_size_small by lia.
    destruct (IH fuel rest buf1 (c ++ bs) (nread + Z.of_nat CHUNK)%Z Hcs Hh1)
      as (buf2 & Hh2 & Hfds2 & ->); [rewrite length_app; lia | lia | lia |].
    exists buf2. rewrite <- app_assoc in Hh2. split; [done|]. split; [congruence|].
    f_equal. lia.
Qed.

(** C5: after 4194304 reads of a full chunk of 1024 bytes and an end of
    stream, [iobuf_append_from_fd] has appended 4294967296 bytes to the
    buffer and returns 0: the count is kept in a [size_t] and returned as
    an [int]. *)
Theorem iobuf_append_from_fd_count_truncated :
  let chunk := replicate CHUNK Byte.x00 in
  let replies := replicate (Z.to_nat 4194304) (ReadData chunk) ++ [ReadData []] in
  exists buf,
    iobuf_append_from_fd (iobuf_new 1024) replies = Some (0%Z, buf)
    /\ iobuf_len buf = 4294967296%Z.
Proof.
  intros chunk replies. subst replies.
  assert (exists k, k = Z.to_nat 4194304) as [k Hk] by eauto.
  assert (Z.of_nat k = 4194304%Z) as HkZ by (subst k; by rewrite Z2Nat.id).
  rewrite <- Hk. clear Hk.
  unfold iobuf_append_from_fd.
  rewrite length_app, length_replicate.
  rewrite <- (fmap_replicate ReadData k chunk).
  destruct (iobuf_append_chunks (replicate k chunk) 1 [ReadData []] (iobuf_new 1024) [] 0)
    as (buf & Hh & _ & Hrun).
  - apply Forall_replicate. subst chunk. apply length_replicate.
  - apply iobuf_new_holds. unfold size_max. lia.
  - rewrite length_replicate, HkZ. unfold CHUNK, size_max. simpl length. lia.
  - lia.
  - rewrite length_replicate, HkZ. unfold CHUNK, size_max. lia.
  - rewrite length_replicate in Hrun. simpl length. rewrite Hrun.
    rewrite HkZ. exists buf. split.
    + reflexivity.
    + destruct Hh as (_ & _ & Hlen & _). unfold iobuf_len. rewrite Hlen.
      simpl app. rewrite length_concat, fmap_replicate.
      subst chunk. rewrite length_replicate.
      rewrite sum_list_replicate. unfold CHUNK. lia.
Qed.

Lemma iobuf_take_data_current_capacity_witness :
  (iobuf_take_data (iobuf_new 4)).2 = iobuf_new 4.
Proof.
  apply (proj2 (iobuf_take_data_current_capacity (iobuf_new 4))). reflexivity.
Defined.

Lemma to_int_small z : (0 <= z < 2 ^ 31)%Z -> to_int z = z.
Proof. intros Hz. unfold to_int. rewrite Z.mod_small; lia. Qed.

Lemma sum_list_chunks (n : nat) (cs : list (list Byte.byte)) :
  Forall (fun bs => length bs = n) cs -> sum_list (length <$> cs) = n * length cs.
Proof.
  induction 1 as [|b cs' Hb _ IH]; [simpl; lia|]. rewrite fmap_cons.
  change (sum_list (length b :: (length <$> cs')))
    with (length b + sum_list (length <$> cs')).
  rewrite IH, Hb. simpl length. lia.
Qed.

(** X6: below 2^31 bytes [iobuf_append_from_fd] behaves as documented: after the full
    transfer units [cs] the loop ends at the first reply that is not a full
    unit, whatever replies [rest] would follow. *)
Lemma iobuf_append_from_fd_small (cs : list (list Byte.byte)) (final : read_reply)
    (rest : list read_reply) (buf : iobuf) (c : list Byte.byte) :
  Forall (fun bs => length bs = CHUNK) cs ->
  holds buf c ->
  let total := (Z.of_nat CHUNK * Z.of_nat (length cs))%Z in
  (Z.of_nat (length c) + total + Z.of_nat CHUNK < size_max)%Z ->
  (total + Z.of_nat CHUNK < 2 ^ 31)%Z ->
  match final with
  | ReadData bs =>
      length bs < CHUNK ->
      exists buf', iobuf_append_from_fd buf ((ReadData <$> cs) ++ final :: rest)
                   = Some ((total + Z.of_nat (length bs))%Z, buf')
                   /\ holds buf' (c ++ concat cs ++ bs)
  | ReadFail e =>
      (0 < e)%Z -> e <> EINTR ->
      exists buf', iobuf_append_from_fd buf ((ReadData <$> cs) ++ final :: rest)
                   = Some (if decide (e = EAGAIN /\ total <> 0%Z) then total else (- e)%Z, buf')
                   /\ holds buf' (c ++ concat cs)
  end.
Proof.
  intros Hcs Hh total Hfit Hsmall. unfold iobuf_append_from_fd.
  rewrite length_app, length_fmap. cbn [length].
  destruct (iobuf_append_chunks cs (S (length rest)) (final :: rest) buf c 0 Hcs Hh)
    as (buf1 & Hh1 & _ & ->); [fold total; unfold CHUNK in *; lia.. |].
  fold total. rewrite Z.add_0_l.
  assert (0 <= total)%Z as Htot by (subst total; lia).
  destruct final as [bs|e].
  - intros Hshort. cbn [append_from_fd_loop xread mbind option_bind].
    rewrite take_ge by lia.
    destruct (decide (Z.of_nat (length bs) = 0 \/ Z.of_nat (length bs) = - EAGAIN)%Z) as [[Hz|Hneg]|Hpos].
    + assert (bs = []) as -> by (destruct bs; [done | simpl in Hz; lia]).
      exists buf1. rewrite !app_nil_r. split; [|done]. simpl length.
      destruct (decide (total = 0)%Z) as [->|]; [done|].
      rewrite to_int_small by lia. f_equal. f_equal. lia.
    + unfold EAGAIN in Hneg. lia.
    + destruct (decide (Z.of_nat (length bs) < 0)%Z); [lia|].
      destruct (iobuf_append_holds buf1 (c ++ concat cs) bs Hh1) as (buf2 & -> & Hh2 & _).
      { rewrite length_app, length_concat.
        rewrite (sum_list_chunks CHUNK) by done. subst total. lia. }
      cbn [mbind option_bind].
      destruct (decide (Z.of_nat (length bs) = Z.of_nat CHUNK)); [lia|].
      rewrite wrap_size_small by (unfold size_max, CHUNK in *; lia).
      exists buf2. rewrite <- app_assoc in Hh2. split; [|done].
      destruct (decide (total + Z.of_nat (length bs) = 0)%Z); [lia|].
      rewrite to_int_small by (unfold CHUNK in *; lia). done.
  - intros He Hintr. cbn [append_from_fd_loop xread].
    destruct (decide (e = EINTR)); [done|].
    cbn [mbind option_bind]. unfold xerrno. simpl.
    exists buf1. split; [|done].
    destruct (decide (- e = 0 \/ - e = - EAGAIN)%Z) as [[?|Hag]|Hother]; [lia|..].
    + assert (e = EAGAIN) as -> by lia.
      destruct (decide (total = 0)%Z) as [Hz|Hnz].
      * rewrite decide_False by tauto. done.
      * rewrite decide_True by done. rewrite to_int_small by (unfold CHUNK in *; lia). done.
    + destruct (decide (- e < 0)%Z); [|lia].
      rewrite decide_False; [done|]. intros [-> _]. lia.
Qed.

(** ** The other operations of the buffer *)

(** X1: [iobuf_pop] drops the first [n] bytes in use and keeps the capacity
    and the descriptors; asking for more bytes than are in use fails the
    assertion. *)
Theorem iobuf_pop_drops (buf : iobuf) (c : list Byte.byte) (n : Z) :
  holds buf c -> (0 <= n)%Z ->
  ((n <= Z.of_nat (length c))%Z ->
     exists buf', iobuf_pop buf n = Ok buf'
       /\ holds buf' (drop (Z.to_nat n) c)
       /\ iobuf_len buf' = (iobuf_len buf - n)%Z
       /\ sz buf' = sz buf /\ fds buf' = fds buf)
  /\ ((Z.of_nat (length c) < n)%Z -> iobuf_pop buf n = AssertFail).
Proof.
  intros Hh Hn. pose proof (holds_length _ _ Hh) as Hcl.
  destruct Hh as (Hsz & Hmax & Hlen & Hc). unfold iobuf_pop, iobuf_len. split.
  - intros Hle. rewrite decide_True by lia.
    destruct (decide (n = len buf)) as [->|Hne].
    + eexists. split; [reflexivity|]. simpl. split; [|split; [lia|done]].
      split; [done|]. split; [done|]. simpl. rewrite Hlen, Nat2Z.id.
      rewrite drop_all. simpl. unfold contents. simpl. done.
    + unfold read_at. rewrite decide_True by lia. cbn [mbind option_bind].
      set (src := take (Z.to_nat (len buf - n)) (drop (Z.to_nat n) (data buf))).
      assert (length src = Z.to_nat (len buf - n)) as Hsrc.
      { subst src. rewrite length_take, length_drop. lia. }
      unfold write_at. rewrite decide_True by lia.
      eexists. split; [reflexivity|]. simpl. split; [|done].
      split; [|split; [done|split]].
      * simpl. rewrite !length_app, length_drop, Hsrc. simpl. lia.
      * simpl. rewrite length_drop. lia.
      * unfold contents. simpl. rewrite take_app_length' by lia.
        subst src. rewrite take_drop_commute.
        replace (Z.to_nat n + Z.to_nat (len buf - n)) with (Z.to_nat (len buf)) by lia.
        unfold contents in Hc. rewrite Hc. by rewrite fmap_drop.
  - intros Hgt. rewrite decide_False by lia. done.
Qed.

Lemma free_fds_queue q : forall fuel buf,
  fd_queue buf q -> length q < fuel -> free_fds fuel buf = Some (IoClose <$> q).
Proof.
  induction q as [|f q IH]; intros fuel buf Hq Hfuel.
  - destruct fuel as [|fuel]; [simpl in Hfuel; lia|]. simpl.
    rewrite (iobuf_take_fd_nil _ Hq). by rewrite decide_False by lia.
  - destruct fuel as [|fuel]; [simpl in Hfuel; lia|]. cbn [free_fds].
    destruct (iobuf_take_fd_cons _ _ _ Hq) as [Hf Hq'].
    destruct (iobuf_take_fd buf) as [fd buf'] eqn:E. simpl in Hf, Hq'. subst fd.
    assert (f <> (-1)%Z) as Hne.
    { destruct Hq as (_ & _ & Hall). by apply Forall_cons in Hall as [? _]. }
    rewrite decide_True by done.
    rewrite (IH fuel buf' Hq') by (simpl in Hfuel; lia). cbn [mbind option_bind].
    unfold xclose. rewrite decide_True by done. done.
Qed.

(** X3: [iobuf_free] does nothing on the null pointer; on a buffer it
    closes the queued descriptors, each once and oldest first, and makes no
    other call; the loop ends after one [iobuf_take_fd] more than there are
    descriptors. *)
Theorem iobuf_free_closes_queue (buf : iobuf) (q : list Z) (fuel : nat) :
  iobuf_free fuel None = Some []
  /\ (fd_queue buf q -> length q < fuel ->
      iobuf_free fuel (Some buf) = Some (IoClose <$> q)).
Proof.
  split; [done|]. intros Hq Hfuel. unfold iobuf_free. apply free_fds_queue; [|done].
  destruct Hq as (Hfds & Hlen & Hall). split; [done|]. split; done.
Qed.

Lemma count_fds_queue (a : list Z) (q : list Z) (k : nat) :
  a = q ++ replicate k (-1)%Z -> 0 < k -> Forall (fun f => f <> (-1)%Z) q ->
  forall fuel i, i <= length q -> length q - i < fuel ->
  count_fds fuel i a = Some (length q).
Proof.
  intros -> Hk Hall fuel. induction fuel as [|fuel IH]; intros i Hi Hfuel; [lia|].
  cbn [count_fds]. destruct (decide (i = length q)) as [->|Hne].
  - rewrite lookup_app_r by lia. rewrite Nat.sub_diag.
    destruct k; [lia|]. cbn [replicate lookup list_lookup mbind option_bind].
    by rewrite decide_False by lia.
  - assert (i < length q) as Hlt by lia.
    destruct (lookup_lt_is_Some_2 q i Hlt) as [v Hv].
    rewrite lookup_app_l by done. rewrite Hv. cbn [mbind option_bind].
    rewrite decide_True.
    + apply IH; lia.
    + by eapply (Forall_lookup_1 _ _ _ _ Hall).
Qed.

Lemma syscall_retry_final rs r n rest :
  syscall_retry rs = Some (r, n, rest) ->
  0 < n /\ ~ (ret r = -1 /\ errno r = EINTR)%Z
  /\ exists skipped, rs = skipped ++ r :: rest /\ length skipped = n - 1
       /\ Forall (fun x => ret x = (-1)%Z /\ errno x = EINTR) skipped.
Proof.
  revert r n rest. induction rs as [|x rs IH]; intros r n rest H; [done|].
  cbn [syscall_retry] in H. case_decide as Hx.
  - destruct (syscall_retry rs) as [[[r' n'] rest']|] eqn:E; [|done].
    cbn in H. injection H as <- <- <-.
    destruct (IH _ _ _ eq_refl) as (Hn & Hr & skipped & -> & Hlen & Hall).
    split; [lia|]. split; [done|]. exists (x :: skipped).
    split; [done|]. split; [simpl; lia|]. by constructor.
  - injection H as <- <- <-. split; [lia|]. split; [done|]. exists []. done.
Qed.

(** X4: [iobuf_send] passes the bytes in use and the queued descriptors to
    the kernel: one [send] when no descriptor is queued, else one [sendmsg]
    whose control message carries the queue, oldest first.  The call is
    repeated while it is interrupted, and the value returned is that of the
    call that was not: its result, or minus its errno. *)
Theorem iobuf_send_message (buf : iobuf) (c : list Byte.byte) (q : list Z) (fd : Z)
    (rs : list os_reply) (r : os_reply) (n : nat) (rest : list os_reply) :
  holds buf c -> fd_queue buf q -> syscall_retry rs = Some (r, n, rest) ->
  (-1 <= ret r)%Z ->
  iobuf_send buf fd rs
  = Some (xerrno r,
          replicate n (if decide (q = []) then IoSend fd (Some <$> c)
                       else IoSendmsg fd (Some <$> c) q))
  /\ 0 < n /\ xerrno r <> (- EINTR)%Z.
Proof.
  intros Hh Hq Hrs Hret. pose proof (holds_length _ _ Hh) as Hcl.
  destruct Hh as (Hsz & Hmax & Hlen & Hc).
  destruct (syscall_retry_final _ _ _ _ Hrs) as (Hn & Hr & _).
  split; [|split; [done|]].
  2:{ unfold xerrno. destruct (ret r <? 0)%Z eqn:E.
      - apply Z.ltb_lt in E. intros He. apply Hr. split; [lia|lia].
      - apply Z.ltb_ge in E. unfold EINTR. lia. }
  unfold iobuf_send, read_at. rewrite decide_True by lia. cbn [mbind option_bind].
  rewrite drop_0. fold (contents buf). rewrite Hc.
  unfold xsend_with_fd. destruct Hq as (Hfds & Hql & Hall).
  rewrite (count_fds_queue (fds buf) q (FDS_LENGTH - length q) Hfds) by
    (try done; unfold FDS_LENGTH in *; rewrite ?Hfds, ?length_app, ?length_replicate; lia).
  cbn [mbind option_bind]. rewrite Hrs. cbn [mbind option_bind].
  destruct q as [|f q].
  - rewrite decide_True by done. rewrite decide_True by done. done.
  - rewrite decide_False by done. rewrite decide_False by done. do 4 f_equal.
    simpl default. rewrite Hfds. by rewrite take_app_length.
Qed.

(** The array [xread_with_fds] builds: the descriptors collected so far,
    then slots not written yet. *)
Lemma collect_ints_fits ints : forall pre k,
  length pre + length ints <= MAX_FDS -> length pre + length ints < length pre + k ->
  collect_ints ints (pre ++ replicate k 0%Z) (length pre)
  = Some ((pre ++ ints) ++ replicate (k - length ints) 0%Z, length pre + length ints).
Proof.
  induction ints as [|f ints IH]; intros pre k Hfit Hk.
  - simpl. by rewrite app_nil_r, Nat.sub_0_r, Nat.add_0_r.
  - cbn [collect_ints]. unfold array_set.
    rewrite decide_True by (rewrite length_app, length_replicate; simpl in *; lia).
    cbn [mbind option_bind].
    assert (<[length pre := f]> (pre ++ replicate k 0%Z)
            = (pre ++ [f]) ++ replicate (k - 1) 0%Z) as ->.
    { rewrite insert_app_r_alt by lia. rewrite Nat.sub_diag.
      destruct k; [simpl in *; lia|]. simpl. rewrite Nat.sub_0_r. by rewrite <- app_assoc. }
    case_decide as Hfull.
    + assert (ints = []) as ->.
      { destruct ints; [done|]. simpl in *. lia. }
      simpl. f_equal. apply pair_equal_spec. split; [done|lia].
    + replace (S (length pre)) with (length (pre ++ [f])) by (rewrite length_app; simpl; lia).
      rewrite IH; [| rewrite length_app; simpl in *; lia..].
      rewrite length_app. simpl. f_equal. apply pair_equal_spec. split; [|lia].
      rewrite <- !app_assoc. simpl. do 4 f_equal. lia.
Qed.

Lemma collect_control_fits control : forall pre k,
  length pre + length (rights control) <= MAX_FDS ->
  length pre + length (rights control) < length pre + k ->
  collect_control control (pre ++ replicate k 0%Z) (length pre)
  = Some ((pre ++ rights control) ++ replicate (k - length (rights control)) 0%Z,
          length pre + length (rights control)).
Proof.
  induction control as [|h control IH]; intros pre k Hfit Hk.
  - simpl. by rewrite app_nil_r, Nat.sub_0_r, Nat.add_0_r.
  - unfold rights in *. rewrite fmap_cons in *. cbn [concat] in *.
    cbn [collect_control]. case_decide as Hh.
    + simpl app in *. by apply IH.
    + rewrite length_app in Hfit, Hk.
      rewrite collect_ints_fits by lia. cbn [mbind option_bind].
      replace (length pre + length (cmsg_ints h)) with (length (pre ++ cmsg_ints h))
        by (by rewrite length_app).
      rewrite IH by (rewrite length_app; lia).
      rewrite !length_app. f_equal. apply pair_equal_spec. split; [|lia].
      rewrite <- !app_assoc. do 3 f_equal. f_equal. lia.
Qed.

(** Queueing the descriptors received: those still to queue are [drop fdp r]. *)
Lemma queue_fds_fits (r : list Z) (k : nat) :
  Forall (fun f => f <> (-1)%Z) r ->
  forall n idx Q fdp,
    idx + n = FDS_LENGTH - 1 -> idx <= length Q -> length Q <= FDS_LENGTH - 1 ->
    (idx < length Q -> fdp = 0) -> fdp <= length r ->
    Forall (fun f => f <> (-1)%Z) Q ->
    let Qf := take (FDS_LENGTH - 1) (Q ++ drop fdp r) in
    queue_fds n idx (Q ++ replicate (FDS_LENGTH - length Q) (-1)%Z)
              (r ++ (-1)%Z :: replicate k 0%Z) fdp
    = Some (Qf ++ replicate (FDS_LENGTH - length Qf) (-1)%Z).
Proof.
  intros Hr n. unfold FDS_LENGTH.
  induction n as [|n IH]; intros idx Q fdp Hn Hidx HQ Hphase Hfdp HQne;
    set (Qf := take (32 - 1) (Q ++ drop fdp r)).
  - assert (length Q = 31) as HQl by lia.
    assert (Qf = Q) as HQf.
    { subst Qf. rewrite take_app_le by lia. apply take_ge. lia. }
    rewrite HQf. cbn [queue_fds].
    destruct ((r ++ (-1)%Z :: replicate k 0%Z) !! fdp) as [f|] eqn:Hf; [|exfalso].
    + cbn [mbind option_bind]. by case_decide.
    + apply lookup_ge_None in Hf. rewrite length_app in Hf. simpl in Hf. lia.
  - cbn [queue_fds]. destruct (decide (fdp = length r)) as [->|Hlt].
    + rewrite (lookup_app_r r) by lia. rewrite Nat.sub_diag.
      cbn [lookup list_lookup mbind option_bind]. rewrite decide_False by lia.
      subst Qf. rewrite drop_all, app_nil_r. rewrite take_ge by lia. done.
    + assert (fdp < length r) as Hfl by lia.
      destruct (lookup_lt_is_Some_2 r fdp Hfl) as [f Hf].
      rewrite (lookup_app_l r) by done. rewrite Hf. cbn [mbind option_bind].
      assert (f <> (-1)%Z) as Hfne by (by eapply (Forall_lookup_1 _ _ _ _ Hr)).
      rewrite decide_True by done.
      destruct (decide (idx = length Q)) as [->|Hne].
      * rewrite (lookup_app_r Q) by lia. rewrite Nat.sub_diag.
        destruct (32 - length Q) as [|m] eqn:Hm; [lia|].
        cbn [replicate lookup list_lookup mbind option_bind].
        rewrite decide_True by done.
        assert (<[length Q := f]> (Q ++ (-1)%Z :: replicate m (-1)%Z)
                = (Q ++ [f]) ++ replicate (32 - length (Q ++ [f])) (-1)%Z) as ->.
        { rewrite insert_app_r_alt by lia. rewrite Nat.sub_diag. simpl.
          rewrite <- app_assoc. simpl. do 3 f_equal. rewrite length_app. simpl. lia. }
        replace (S (length Q)) with (length (Q ++ [f])) by (rewrite length_app; simpl; lia).
        rewrite IH.
        -- subst Qf. rewrite <- app_assoc. simpl.
           by rewrite (drop_S r f fdp Hf).
        -- rewrite length_app. simpl. lia.
        -- done.
        -- rewrite length_app. simpl. lia.
        -- lia.
        -- lia.
        -- apply Forall_app. split; [done|]. by constructor.
      * assert (idx < length Q) as Hil by lia.
        destruct (lookup_lt_is_Some_2 Q idx Hil) as [s Hs].
        rewrite (lookup_app_l Q) by done. rewrite Hs. cbn [mbind option_bind].
        assert (s <> (-1)%Z) as Hsne by (by eapply (Forall_lookup_1 _ _ _ _ HQne)).
        rewrite decide_False by done. apply IH; try done; lia.
Qed.

Lemma take_take_app {A} (n : nat) (l k : list A) :
  take n (take n l ++ k) = take n (l ++ k).
Proof.
  destruct (decide (n <= length l)) as [Hle|Hgt].
  - rewrite (take_app_le l) by done. rewrite take_app_le by (rewrite length_take; lia).
    by rewrite take_take, Nat.min_id.
  - by rewrite (take_ge l) by lia.
Qed.

Lemma option_bind_Some {A B} (f : A -> option B) (x : A) : Some x ≫= f = f x.
Proof. reflexivity. Qed.

Lemma recv_from_fd_loop_S fuel rs buf nread :
  recv_from_fd_loop (S fuel) rs buf nread
  = ('(rc, bs, fds_in, rs') ← xread_with_fds CHUNK rs;
      if decide (rc = 0 \/ rc = - EAGAIN)%Z
      then Some (if decide (nread = 0)%Z then rc else to_int nread, buf)
      else if decide (rc < 0)%Z then Some (rc, buf)
      else
        buf1 ← iobuf_append buf bs;
        slots ← match fds_in with
                | Some a => queue_fds (FDS_LENGTH - 1) 0 (fds buf1) a 0
                | None => Some (fds buf1)
                end;
        let buf2 := {| sz := sz buf1; len := len buf1; data := data buf1; fds := slots |} in
        let nread' := wrap_size (nread + rc) in
        if decide (rc = Z.of_nat CHUNK)
        then recv_from_fd_loop fuel rs' buf2 nread'
        else Some (if decide (nread' = 0)%Z then rc else to_int nread', buf2)).
Proof. reflexivity. Qed.

Lemma xread_with_fds_msg count bs control rest :
  xread_with_fds count (RecvMsg bs control :: rest)
  = (let received := Z.of_nat (length (take count bs)) in
      if decide (received > 0)%Z
      then
        '(a, idx) ← collect_control control (replicate (MAX_FDS + 1) 0%Z) 0;
        a' ← array_set idx (-1) a;
        Some (received, take count bs, Some a', rest)
      else Some (received, take count bs, None, rest)).
Proof. reflexivity. Qed.

(** One iteration of the loop on a message of at least one byte. *)
Lemma recv_step bs control buf c q :
  0 < length bs <= CHUNK -> holds buf c -> fd_queue buf q ->
  (Z.of_nat (length c) + Z.of_nat (length bs) < size_max)%Z ->
  carries control ->
  exists buf2,
    holds buf2 (c ++ bs)
    /\ fd_queue buf2 (take (FDS_LENGTH - 1) (q ++ rights control))
    /\ forall fuel rest nread,
         recv_from_fd_loop (S fuel) (RecvMsg bs control :: rest) buf nread
         = if decide (length bs = CHUNK)
           then recv_from_fd_loop fuel rest buf2 (wrap_size (nread + Z.of_nat (length bs)))
           else Some (if decide (wrap_size (nread + Z.of_nat (length bs)) = 0)%Z
                      then Z.of_nat (length bs)
                      else to_int (wrap_size (nread + Z.of_nat (length bs))), buf2).
Proof.
  intros Hbs Hh Hq Hfit [Hne Hmax].
  destruct (iobuf_append_holds buf c bs Hh Hfit) as (buf1 & Happ & Hh1 & Hfds1).
  exists {| sz := sz buf1; len := len buf1; data := data buf1;
            fds := take (FDS_LENGTH - 1) (q ++ rights control)
                   ++ replicate (FDS_LENGTH - length (take (FDS_LENGTH - 1) (q ++ rights control)))
                        (-1)%Z |}.
  split; [exact Hh1|]. split.
  { split; [done|]. split.
    - rewrite length_take. unfold FDS_LENGTH. lia.
    - apply Forall_take, Forall_app. split; [|done]. by destruct Hq as (_ & _ & ?). }
  intros fuel rest nread. rewrite recv_from_fd_loop_S, xread_with_fds_msg. cbv zeta.
  rewrite take_ge by lia. rewrite decide_True by lia.
  pose proof (collect_control_fits control [] (MAX_FDS + 1)) as Hcc.
  cbn [app length Nat.add] in Hcc. rewrite Hcc by (unfold MAX_FDS in *; lia).
  rewrite option_bind_Some. unfold array_set.
  rewrite decide_True by (rewrite length_app, length_replicate; unfold MAX_FDS in *; lia).
  rewrite !option_bind_Some.
  assert (<[length (rights control) := (-1)%Z]>
            (rights control ++ replicate (MAX_FDS + 1 - length (rights control)) 0%Z)
          = rights control ++ (-1)%Z :: replicate (MAX_FDS - length (rights control)) 0%Z) as ->.
  { rewrite insert_app_r_alt by lia. rewrite Nat.sub_diag.
    replace (MAX_FDS + 1 - length (rights control))
      with (S (MAX_FDS - length (rights control))) by (unfold MAX_FDS in *; lia).
    done. }
  rewrite decide_False by (unfold EAGAIN; lia). rewrite decide_False by lia.
  rewrite Happ, option_bind_Some.
  rewrite Hfds1. destruct Hq as (Hfds & Hql & Hqne). rewrite Hfds.
  pose proof (queue_fds_fits (rights control) (MAX_FDS - length (rights control)) Hne
                (FDS_LENGTH - 1) 0 q 0) as Hqf.
  cbv zeta in Hqf. rewrite drop_0 in Hqf.
  rewrite Hqf by (try done; unfold FDS_LENGTH in *; lia).
  rewrite option_bind_Some.
  destruct (decide (Z.of_nat (length bs) = Z.of_nat CHUNK)) as [He|He];
    destruct (decide (length bs = CHUNK)) as [He'|He']; try lia; reflexivity.
Qed.

Lemma length_concat_chunks (n : nat) (cs : list (list Byte.byte)) :
  Forall (fun bs => length bs = n) cs -> length (concat cs) = n * length cs.
Proof.
  induction 1 as [|b cs' Hb _ IH]; [simpl; lia|].
  cbn [concat]. rewrite length_app, IH, Hb. simpl length. lia.
Qed.

(** Messages of a full transfer unit: the loop goes on, appending the bytes
    and queueing the descriptors of each. *)
Lemma recv_chunks (ms : list (list Byte.byte * list cmsghdr)) : forall fuel rest buf c q nread,
  Forall (fun m => length m.1 = CHUNK /\ carries m.2) ms ->
  holds buf c -> fd_queue buf q ->
  (Z.of_nat (length c) + Z.of_nat CHUNK * Z.of_nat (length ms) < size_max)%Z ->
  (0 <= nread)%Z ->
  (nread + Z.of_nat CHUNK * Z.of_nat (length ms) < size_max)%Z ->
  exists buf',
    holds buf' (c ++ concat (fst <$> ms))
    /\ fd_queue buf' (take (FDS_LENGTH - 1) (q ++ concat ((fun m => rights m.2) <$> ms)))
    /\ recv_from_fd_loop (length ms + fuel) ((msg_reply <$> ms) ++ rest) buf nread
       = recv_from_fd_loop fuel rest buf' (nread + Z.of_nat CHUNK * Z.of_nat (length ms)).
Proof.
  induction ms as [|[bs control] ms IH]; intros fuel rest buf c q nread Hms Hh Hq Hfit Hnn Hn.
  - exists buf. simpl. rewrite !app_nil_r, Z.mul_0_r, Z.add_0_r.
    split; [done|]. split; [|done].
    rewrite take_ge; [done|]. destruct Hq as (_ & ? & _). unfold FDS_LENGTH in *. lia.
  - apply Forall_cons in Hms as [[Hbs Hcar] Hms]. simpl in Hbs, Hcar.
    rewrite !fmap_cons. cbn [concat length app Nat.add fst snd msg_reply] in *.
    destruct (recv_step bs control buf c q) as (buf1 & Hh1 & Hq1 & Hstep);
      [unfold CHUNK in *; lia | done | done | unfold CHUNK in *; lia | done |].
    rewrite Hstep. rewrite decide_True by done.
    rewrite wrap_size_small by (unfold CHUNK in *; lia).
    destruct (IH fuel rest buf1 (c ++ bs) _ (nread + Z.of_nat (length bs))%Z Hms Hh1 Hq1)
      as (buf2 & Hh2 & Hq2 & ->);
      [rewrite length_app; unfold CHUNK in *; lia | lia | unfold CHUNK in *; lia |].
    exists buf2. rewrite <- app_assoc in Hh2. split; [done|]. split.
    + rewrite take_take_app, <- app_assoc in Hq2. done.
    + f_equal. rewrite Hbs. lia.
Qed.

(** X8: [iobuf_recv_from_fd] goes on while a message fills the transfer
    unit of 1024 bytes.  After the full messages [ms] and a last message of
    fewer bytes, it has appended all the bytes, it returns their number,
    and the descriptor queue is the old queue followed by the descriptors
    received, in order, cut off at 31: the ones that do not fit are
    neither queued nor closed.  The descriptors of a last message without
    bytes are not looked at.  A failure after at least one message is
    reported only if it is not [EAGAIN]. *)
Theorem iobuf_recv_from_fd_queues (ms : list (list Byte.byte * list cmsghdr))
    (final : recv_reply) (rest : list recv_reply) (buf : iobuf)
    (c : list Byte.byte) (q : list Z) :
  Forall (fun m => length m.1 = CHUNK /\ carries m.2) ms ->
  holds buf c -> fd_queue buf q ->
  let total := (Z.of_nat CHUNK * Z.of_nat (length ms))%Z in
  let received := concat ((fun m => rights m.2) <$> ms) in
  (Z.of_nat (length c) + total + Z.of_nat CHUNK < size_max)%Z ->
  (total + Z.of_nat CHUNK < 2 ^ 31)%Z ->
  match final with
  | RecvMsg bs control =>
      length bs < CHUNK -> (bs <> [] -> carries control) ->
      exists buf', iobuf_recv_from_fd buf ((msg_reply <$> ms) ++ final :: rest)
                   = Some ((total + Z.of_nat (length bs))%Z, buf')
        /\ holds buf' (c ++ concat (fst <$> ms) ++ bs)
        /\ fd_queue buf' (take (FDS_LENGTH - 1)
                            (q ++ received ++ if decide (bs = []) then [] else rights control))
  | RecvFail e =>
      (0 < e)%Z -> e <> EINTR ->
      exists buf', iobuf_recv_from_fd buf ((msg_reply <$> ms) ++ final :: rest)
                   = Some (if decide (e = EAGAIN /\ total <> 0%Z) then total else (- e)%Z, buf')
        /\ holds buf' (c ++ concat (fst <$> ms))
        /\ fd_queue buf' (take (FDS_LENGTH - 1) (q ++ received))
  end.
Proof.
  intros Hms Hh Hq total received Hfit Hsmall. unfold iobuf_recv_from_fd.
  rewrite length_app, length_fmap. cbn [length].
  destruct (recv_chunks ms (S (length rest)) (final :: rest) buf c q 0 Hms Hh Hq)
    as (buf1 & Hh1 & Hq1 & ->); [fold total; unfold CHUNK in *; lia.. |].
  fold total received in Hq1 |- *. rewrite Z.add_0_l.
  assert (0 <= total)%Z as Htot by (subst total; lia).
  destruct final as [bs control|e].
  - intros Hshort Hcar. destruct (decide (bs = [])) as [->|Hne].
    + rewrite recv_from_fd_loop_S, xread_with_fds_msg. cbv zeta.
      rewrite take_nil. cbn [length]. rewrite decide_False by lia.
      rewrite option_bind_Some. rewrite decide_True by (left; done).
      exists buf1. rewrite !app_nil_r. split; [|done].
      case_decide as Hz; [by rewrite Hz|].
      rewrite to_int_small by (unfold CHUNK in *; lia). f_equal. f_equal. simpl. lia.
    + assert (0 < length bs) as Hpos by (destruct bs; [done|simpl; lia]).
      destruct (recv_step bs control buf1 (c ++ concat (fst <$> ms))
                  (take (FDS_LENGTH - 1) (q ++ received))
                  (conj Hpos (Nat.lt_le_incl _ _ Hshort)) Hh1 Hq1)
        as (buf2 & Hh2 & Hq2 & Hstep); [| by apply Hcar |].
      { rewrite length_app. destruct Hh1 as (_ & _ & Hl & _).
        pose proof (f_equal length (eq_refl (c ++ concat (fst <$> ms)))) as _.
        assert (Z.of_nat (length (concat (fst <$> ms))) = total) as Hcl.
        { rewrite (length_concat_chunks CHUNK).
          - rewrite length_fmap. subst total. lia.
          - apply Forall_fmap. eapply Forall_impl; [exact Hms|]. by intros m [? _]. }
        unfold CHUNK in *. lia. }
      rewrite Hstep. rewrite decide_False by lia.
      rewrite wrap_size_small by (unfold size_max, CHUNK in *; lia).
      exists buf2. rewrite <- app_assoc in Hh2. split; [|split; [done|]].
      * rewrite decide_False by lia. rewrite to_int_small by (unfold CHUNK in *; lia). done.
      * rewrite take_take_app, <- app_assoc in Hq2. done.
  - intros He Hne. cbn [recv_from_fd_loop xread_with_fds]. rewrite decide_False by done.
    cbn [mbind option_bind]. unfold xerrno. simpl.
    exists buf1. split; [|done].
    destruct (decide (e = EAGAIN)) as [->|Hea].
    + rewrite decide_True by (right; done).
      destruct (decide (total = 0)%Z) as [Hz|Hnz].
      * by rewrite decide_False by (intros [_ ?]; done).
      * rewrite decide_True by done.
        rewrite to_int_small by (unfold CHUNK in *; lia). done.
    + rewrite decide_False by (intros [?|?]; lia).
      rewrite decide_True by lia. by rewrite decide_False by (intros [? _]; done).
Qed.

(** X5: [xread] repeats the [read] while it is interrupted: it never
    returns [-EINTR].  For a count that an [int] holds, it returns the
    number of bytes read, at most the count asked for, or minus the errno of
    the failure. *)
Theorem xread_not_interrupted (count : nat) (rs : list read_reply) (rc : Z)
    (bs : list Byte.byte) (rest : list read_reply) :
  (Z.of_nat count < 2 ^ 31)%Z ->
  Forall (fun r => match r with ReadFail e => (0 < e)%Z | ReadData _ => True end) rs ->
  xread count rs = Some (rc, bs, rest) ->
  rc <> (- EINTR)%Z
  /\ ((rc = Z.of_nat (length bs) /\ length bs <= count) \/ (rc < 0)%Z /\ bs = [])
  /\ exists n r, rs = replicate n (ReadFail EINTR) ++ r :: rest /\ r <> ReadFail EINTR.
Proof.
  intros Hcount. induction rs as [|r rs IH]; intros Hpos H; [done|].
  apply Forall_cons in Hpos as [Hr Hpos]. cbn [xread] in H. destruct r as [d|e].
  - injection H as <- <- <-. split; [unfold EINTR; lia|]. split.
    + left. split; [done|]. rewrite length_take. lia.
    + by exists 0, (ReadData d).
  - case_decide as He.
    + destruct (IH Hpos H) as (Hrc & Hbs & n & r & -> & Hne).
      split; [done|]. split; [done|]. exists (S n), r. subst e. done.
    + injection H as <- <- <-. unfold xerrno. simpl. split; [lia|]. split.
      * right. split; [lia|done].
      * exists 0, (ReadFail e). split; [done|]. congruence.
Qed.

Lemma byte_of_Z_value z : Z.of_N (Byte.to_N (byte_of_Z z)) = (z mod 256)%Z.
Proof.
  unfold byte_of_Z. pose proof (Z.mod_pos_bound z 256 ltac:(lia)) as Hb.
  destruct (Byte.of_N (Z.to_N (z mod 256))) as [b|] eqn:E.
  - simpl. apply Byte.to_of_N in E. rewrite E. lia.
  - apply Byte.of_N_None_iff in E. lia.
Qed.

Lemma length_le_bytes n : forall v, length (le_bytes n v) = n.
Proof. induction n as [|n IH]; intros v; simpl; [done|]. by rewrite IH. Qed.

Lemma le_value_bytes n : forall v, le_value (le_bytes n v) = (v mod 256 ^ Z.of_nat n)%Z.
Proof.
  induction n as [|n IH]; intros v.
  - simpl. by rewrite Z.mod_1_r.
  - cbn [le_bytes le_value]. rewrite byte_of_Z_value, IH.
    rewrite Nat2Z.inj_succ, Z.pow_succ_r by lia.
    rewrite (Z.rem_mul_r v 256 (256 ^ Z.of_nat n)) by lia. done.
Qed.

(** X2: [iobuf_append_u32] and [iobuf_append_u64] append the 4 and the 8
    bytes of the integer, least significant byte first, growing the storage
    when needed and keeping the bytes already in use; the bytes appended
    read back as the integer. *)
Theorem iobuf_append_integers (buf : iobuf) (c : list Byte.byte) (v : Z) :
  holds buf c -> (Z.of_nat (length c) + 8 < size_max)%Z ->
  ((0 <= v < 2 ^ 32)%Z ->
     exists buf', iobuf_append_u32 buf v = Some buf'
       /\ holds buf' (c ++ le_bytes 4 v) /\ iobuf_len buf' = (iobuf_len buf + 4)%Z
       /\ le_value (le_bytes 4 v) = v /\ fds buf' = fds buf)
  /\ ((0 <= v < 2 ^ 64)%Z ->
     exists buf', iobuf_append_u64 buf v = Some buf'
       /\ holds buf' (c ++ le_bytes 8 v) /\ iobuf_len buf' = (iobuf_len buf + 8)%Z
       /\ le_value (le_bytes 8 v) = v /\ fds buf' = fds buf).
Proof.
  intros Hh Hfit.
  assert (forall n, 0 < n <= 8 ->
            exists buf', append_object buf (le_bytes n v) = Some buf'
              /\ holds buf' (c ++ le_bytes n v)
              /\ iobuf_len buf' = (iobuf_len buf + Z.of_nat n)%Z
              /\ fds buf' = fds buf) as Hobj.
  { intros n Hn.
    destruct (iobuf_append_holds buf c (le_bytes n v) Hh) as (buf' & Happ & Hh' & Hfds).
    { rewrite length_le_bytes. lia. }
    exists buf'. split.
    - unfold iobuf_append in Happ. rewrite length_le_bytes in Happ.
      rewrite decide_False in Happ by lia. unfold append_object.
      by rewrite length_le_bytes.
    - split; [done|]. split; [|done]. unfold iobuf_len.
      destruct Hh as (_ & _ & -> & _). destruct Hh' as (_ & _ & -> & _).
      rewrite length_app, length_le_bytes. lia. }
  split; intros Hv.
  - destruct (Hobj 4) as (buf' & ? & ? & ? & ?); [lia|]. exists buf'.
    split; [done|]. split; [done|]. split; [done|]. split; [|done].
    rewrite le_value_bytes. apply Z.mod_small. simpl. lia.
  - destruct (Hobj 8) as (buf' & ? & ? & ? & ?); [lia|]. exists buf'.
    split; [done|]. split; [done|]. split; [done|]. split; [|done].
    rewrite le_value_bytes. apply Z.mod_small. simpl. lia.
Qed.

Lemma buf_demo_holds : holds buf_demo [Byte.x01; Byte.x02].
Proof. repeat split. Qed.

Lemma buf_demo_fd_queue : fd_queue buf_demo [9; 10]%Z.
Proof.
  split; [done|]. split; [unfold FDS_LENGTH; simpl; lia|].
  repeat (constructor; [lia|]). constructor.
Qed.

Lemma iobuf_pop_drops_witness :
  exists buf', iobuf_pop buf_demo 1 = Ok buf' /\ holds buf' [Byte.x02]
    /\ iobuf_len buf' = 1%Z /\ sz buf' = 4%Z.
Proof.
  destruct (proj1 (iobuf_pop_drops buf_demo [Byte.x01; Byte.x02] 1 buf_demo_holds ltac:(lia))
              ltac:(simpl; lia)) as (buf' & Hrun & Hh & Hlen & Hsz & _).
  exists buf'. split; [exact Hrun|]. split; [exact Hh|]. split; [exact Hlen|exact Hsz].
Defined.

Lemma iobuf_free_closes_queue_witness :
  iobuf_free 3 (Some buf_demo) = Some [IoClose 9; IoClose 10].
Proof.
  apply (proj2 (iobuf_free_closes_queue buf_demo [9; 10]%Z 3) buf_demo_fd_queue).
  simpl. lia.
Defined.

Lemma iobuf_send_message_witness :
  iobuf_send buf_demo 4 [OsReply (-1) EINTR; OsReply 2 0]
  = Some (2%Z, replicate 2 (IoSendmsg 4 [Some Byte.x01; Some Byte.x02] [9; 10]%Z)).
Proof.
  apply (proj1 (iobuf_send_message buf_demo [Byte.x01; Byte.x02] [9; 10]%Z 4
                  [OsReply (-1) EINTR; OsReply 2 0] (OsReply 2 0) 2 []
                  buf_demo_holds buf_demo_fd_queue eq_refl ltac:(simpl; lia))).
Defined.

Lemma iobuf_recv_from_fd_queues_witness :
  exists buf',
    iobuf_recv_from_fd buf_demo [RecvMsg [Byte.x03] [Cmsg SOL_SOCKET SCM_RIGHTS [11; 12]%Z]]
    = Some (1%Z, buf')
    /\ holds buf' [Byte.x01; Byte.x02; Byte.x03]
    /\ fd_queue buf' [9; 10; 11; 12]%Z.
Proof.
  apply (iobuf_recv_from_fd_queues [] (RecvMsg [Byte.x03] [Cmsg SOL_SOCKET SCM_RIGHTS [11; 12]%Z])
           [] buf_demo [Byte.x01; Byte.x02] [9; 10]%Z).
  - constructor.
  - exact buf_demo_holds.
  - exact buf_demo_fd_queue.
  - unfold size_max, CHUNK. simpl. lia.
  - unfold CHUNK. simpl. lia.
  - unfold CHUNK. simpl. lia.
  - intros _. split; [|unfold MAX_FDS; simpl; lia].
    repeat (constructor; [lia|]). constructor.
Defined.

Lemma xread_not_interrupted_witness :
  (1 <> - EINTR)%Z
  /\ ((1%Z = Z.of_nat (length [Byte.x01]) /\ length [Byte.x01] <= 1024)
      \/ (1 < 0)%Z /\ [Byte.x01] = [])
  /\ exists n r, [ReadFail EINTR; ReadData [Byte.x01]] = replicate n (ReadFail EINTR) ++ r :: []
       /\ r <> ReadFail EINTR.
Proof.
  apply (xread_not_interrupted 1024 [ReadFail EINTR; ReadData [Byte.x01]] 1 [Byte.x01] []).
  - lia.
  - repeat constructor.
  - reflexivity.
Defined.

Lemma iobuf_append_integers_witness :
  exists buf', iobuf_append_u32 buf_demo 258 = Some buf'
    /\ holds buf' [Byte.x01; Byte.x02; Byte.x02; Byte.x01; Byte.x00; Byte.x00]
    /\ iobuf_len buf' = 6%Z.
Proof.
  destruct (proj1 (iobuf_append_integers buf_demo [Byte.x01; Byte.x02] 258 buf_demo_holds
                     ltac:(unfold size_max; simpl; lia)) ltac:(lia))
    as (buf' & Hrun & Hh & Hlen & _).
  exists buf'. split; [exact Hrun|]. split; [exact Hh|exact Hlen].
Defined.

Lemma iobuf_append_from_fd_small_witness :
  exists buf', iobuf_append_from_fd buf_demo [ReadData [Byte.x03]] = Some (1%Z, buf')
    /\ holds buf' [Byte.x01; Byte.x02; Byte.x03].
Proof.
  apply (iobuf_append_from_fd_small [] (ReadData [Byte.x03]) [] buf_demo [Byte.x01; Byte.x02]).
  - constructor.
  - exact buf_demo_holds.
  - unfold size_max, CHUNK. simpl. lia.
  - unfold CHUNK. simpl. lia.
  - unfold CHUNK. simpl. lia.
Defined.

(** X7: for a count that an [int] holds, [xread_with_fds] hands back the
    descriptors of the [SCM_RIGHTS] control messages of a message that has
    bytes, at most [MAX_FDS] of them, in the order received, in an array
    ended by -1, and skips control messages of another kind.  A message
    without bytes and a failure leave [*fds] as it was, whatever the control
    messages are; an interrupted call is repeated. *)
Theorem xread_with_fds_collects (count : nat) (bs : list Byte.byte)
    (control : list cmsghdr) (rest : list recv_reply) (e : Z) :
  (Z.of_nat count < 2 ^ 31)%Z ->
  (0 < length (take count bs) -> length (rights control) <= MAX_FDS ->
     xread_with_fds count (RecvMsg bs control :: rest)
     = Some (Z.of_nat (length (take count bs)), take count bs,
             Some (rights control ++ (-1)%Z :: replicate (MAX_FDS - length (rights control)) 0%Z),
             rest))
  /\ (length (take count bs) = 0 ->
      xread_with_fds count (RecvMsg bs control :: rest) = Some (0%Z, [], None, rest))
  /\ (e <> EINTR -> xread_with_fds count (RecvFail e :: rest) = Some ((- e)%Z, [], None, rest))
  /\ xread_with_fds count (RecvFail EINTR :: rest) = xread_with_fds count rest.
Proof.
  intros Hcount. split; [|split; [|split]].
  - intros Hpos Hmax. cbn [xread_with_fds]. rewrite decide_True by lia.
    pose proof (collect_control_fits control [] (MAX_FDS + 1)) as Hcc.
    cbn [app length Nat.add] in Hcc. rewrite Hcc by (unfold MAX_FDS in *; lia).
    cbn [mbind option_bind]. unfold array_set.
    rewrite decide_True by (rewrite length_app, length_replicate; unfold MAX_FDS in *; lia).
    cbn [mbind option_bind]. do 3 f_equal.
    rewrite insert_app_r_alt by lia. rewrite Nat.sub_diag.
    replace (MAX_FDS + 1 - length (rights control))
      with (S (MAX_FDS - length (rights control))) by (unfold MAX_FDS in *; lia).
    done.
  - intros Hz. cbn [xread_with_fds]. rewrite Hz. rewrite decide_False by lia.
    destruct (take count bs); [done|simpl in Hz; lia].
  - intros He. cbn [xread_with_fds]. by rewrite decide_False.
  - cbn [xread_with_fds]. by rewrite decide_True.
Qed.

Lemma xread_with_fds_collects_witness :
  xread_with_fds 16 [RecvMsg [Byte.x01] [Cmsg SOL_SOCKET 2 [7]%Z; Cmsg SOL_SOCKET SCM_RIGHTS [5; 6]%Z]]
  = Some (1%Z, [Byte.x01], Some ([5; 6]%Z ++ (-1)%Z :: replicate 30 0%Z), []).
Proof.
  apply (proj1 (xread_with_fds_collects 16 [Byte.x01]
                  [Cmsg SOL_SOCKET 2 [7]%Z; Cmsg SOL_SOCKET SCM_RIGHTS [5; 6]%Z] [] 0
                  ltac:(lia))).
  - simpl. lia.
  - unfold MAX_FDS. simpl. lia.
Defined.

End IoBufFacts.

(** ** The reactor *)

Module ReactorFacts.
Import Reactor.

(** Inversion of the monad *)
Lemma bind_Done {A B} (m : outcome A) (f : A -> outcome B) b :
  m ≫= f = Done b <-> exists a, m = Done a /\ f a = Done b.
Proof.
  destruct m as [a|e]; simpl; split.
  - intros H. eauto.
  - by intros (a' & [= <-] & H).
  - done.
  - by intros (a' & [=] & _).
Qed.

Lemma assert_Done b : assert b = Done () <-> b = true.
Proof. destruct b; simpl; split; congruence. Qed.

Lemma get_source_Done p w s : get_source p w = Done s <-> srcs w !! p = Some s.
Proof. unfold get_source. destruct (srcs w !! p); split; congruence. Qed.

Lemma get_sink_Done k w s : get_sink k w = Done s <-> sinks w !! k = Some s.
Proof. unfold get_sink. destruct (sinks w !! k); split; congruence. Qed.

Lemma frame_refl w : frame w w.
Proof. by repeat split. Qed.

Lemma frame_trans w1 w2 w3 : frame w1 w2 -> frame w2 w3 -> frame w1 w3.
Proof.
  intros (Ht & Hd & Hs & Hk) (Ht' & Hd' & Hs' & Hk').
  repeat split; [congruence | congruence | |].
  - intros p. by rewrite Hs', Hs.
  - intros k. by rewrite Hk', Hk.
Qed.

Lemma alive_SourceLink w p : alive w (SourceLink p) <-> is_Some (srcs w !! p).
Proof.
  unfold alive, load, get_source. simpl. destruct (srcs w !! p) as [s|]; simpl; split.
  - eauto.
  - intros _. eauto.
  - by intros [v [=]].
  - by intros [? [=]].
Qed.

Lemma alive_head w h : is_head w h -> alive w h.
Proof.
  destruct h as [k|k|p]; simpl; [..|done]; intros [s Hs];
    unfold alive, load, get_sink; rewrite Hs; simpl; eauto.
Qed.

(** Laws of [store] *)
Lemma store_Done n v w :
  alive w n -> exists w', store n v w = Done w'.
Proof.
  intros [v0 Hv0]. destruct n as [k|k|p]; simpl in *;
    unfold update_sink, update_source, get_sink, get_source in *.
  - destruct (sinks w !! k); simpl in *; [eauto | done].
  - destruct (sinks w !! k); simpl in *; [eauto | done].
  - destruct (srcs w !! p); simpl in *; [eauto | done].
Qed.

Lemma load_store n v w w' m :
  store n v w = Done w' ->
  load m w' = if decide (m = n) then Done v else load m w.
Proof.
  intros Hst. destruct (decide (m = n)) as [->|Hne].
  - destruct n as [k|k|p]; simpl in Hst;
      unfold update_sink, update_source, get_sink, get_source in Hst.
    + destruct (sinks w !! k) as [s|] eqn:Hk; simpl in Hst; [|done].
      injection Hst as <-. simpl. unfold get_sink. simpl. by rewrite lookup_insert_eq.
    + destruct (sinks w !! k) as [s|] eqn:Hk; simpl in Hst; [|done].
      injection Hst as <-. simpl. unfold get_sink. simpl. by rewrite lookup_insert_eq.
    + destruct (srcs w !! p) as [s|] eqn:Hp; simpl in Hst; [|done].
      injection Hst as <-. simpl. unfold get_source. simpl. by rewrite lookup_insert_eq.
  - destruct n as [k|k|p]; simpl in Hst;
      unfold update_sink, update_source, get_sink, get_source in Hst.
    + destruct (sinks w !! k) as [s|] eqn:Hk; simpl in Hst; [|done].
      injection Hst as <-.
      destruct m as [k'|k'|p']; simpl; unfold get_sink, get_source; simpl; [| |done].
      * rewrite lookup_insert_ne; [done | congruence].
      * destruct (decide (k' = k)) as [->|Hne'].
        -- by rewrite lookup_insert_eq, Hk.
        -- by rewrite lookup_insert_ne.
    + destruct (sinks w !! k) as [s|] eqn:Hk; simpl in Hst; [|done].
      injection Hst as <-.
      destruct m as [k'|k'|p']; simpl; unfold get_sink, get_source; simpl; [| |done].
      * destruct (decide (k' = k)) as [->|Hne'].
        -- by rewrite lookup_insert_eq, Hk.
        -- by rewrite lookup_insert_ne.
      * rewrite lookup_insert_ne; [done | congruence].
    + destruct (srcs w !! p) as [s|] eqn:Hp; simpl in Hst; [|done].
      injection Hst as <-.
      destruct m as [k'|k'|p']; simpl; unfold get_sink, get_source; simpl; [done|done|].
      rewrite lookup_insert_ne; [done | congruence].
Qed.

Lemma store_frame n v w w' : store n v w = Done w' -> frame w w'.
Proof.
  intros Hst.
  destruct n as [k|k|p]; simpl in Hst;
    unfold update_sink, update_source, get_sink, get_source in Hst.
  - destruct (sinks w !! k) as [s|] eqn:Hk; simpl in Hst; [|done].
    injection Hst as <-. split; [done|]. split; [done|]. split; [done|]. intros k'. simpl.
    destruct (decide (k' = k)) as [->|Hne].
    + by rewrite lookup_insert_eq, Hk.
    + by rewrite lookup_insert_ne.
  - destruct (sinks w !! k) as [s|] eqn:Hk; simpl in Hst; [|done].
    injection Hst as <-. split; [done|]. split; [done|]. split; [done|]. intros k'. simpl.
    destruct (decide (k' = k)) as [->|Hne].
    + by rewrite lookup_insert_eq, Hk.
    + by rewrite lookup_insert_ne.
  - destruct (srcs w !! p) as [s|] eqn:Hp; simpl in Hst; [|done].
    injection Hst as <-. split; [done|]. split; [done|]. split; [|done]. intros p'. simpl.
    destruct (decide (p' = p)) as [->|Hne].
    + by rewrite lookup_insert_eq, Hp.
    + by rewrite lookup_insert_ne.
Qed.

Lemma load_alive w n :
  alive w n -> exists v, load n w = Done v /\ next v = next_of w n /\ prev v = prev_of w n.
Proof. intros [v Hv]. exists v. unfold next_of, prev_of. by rewrite Hv. Qed.

Lemma next_of_alive w n m : next_of w n = Some m -> alive w n.
Proof. unfold next_of, alive. destruct (load n w); [eauto | done]. Qed.

Lemma prev_of_alive w n m : prev_of w n = Some m -> alive w n.
Proof. unfold prev_of, alive. destruct (load n w); [eauto | done]. Qed.

Lemma store_spec n v w :
  alive w n ->
  exists w', store n v w = Done w' /\ frame w w'
    /\ (forall m, next_of w' m = if decide (m = n) then next v else next_of w m)
    /\ (forall m, prev_of w' m = if decide (m = n) then prev v else prev_of w m)
    /\ (forall m, alive w' m <-> alive w m).
Proof.
  intros Hn. destruct (store_Done n v w Hn) as [w' Hst]. exists w'.
  split; [done|]. split; [by eapply store_frame|].
  pose proof (fun m => load_store n v w w' m Hst) as Hload.
  split; [|split]; intros m; unfold next_of, prev_of, alive; rewrite Hload;
    destruct (decide (m = n)) as [->|]; try done.
  split; [done|]. eauto.
Qed.

Lemma set_next_spec n x w :
  alive w n ->
  exists w', set_next n x w = Done w' /\ frame w w'
    /\ (forall m, next_of w' m = if decide (m = n) then x else next_of w m)
    /\ (forall m, prev_of w' m = prev_of w m)
    /\ (forall m, alive w' m <-> alive w m).
Proof.
  intros Hn. destruct (load_alive w n Hn) as (v & Hv & Hnx & Hpv).
  unfold set_next. rewrite Hv. simpl.
  destruct (store_spec n {| prev := prev v; next := x |} w Hn) as (w' & -> & Hf & Hn' & Hp' & Ha).
  exists w'. do 3 (split; [done|]). split; [|done].
  intros m. rewrite Hp'. simpl. destruct (decide (m = n)) as [->|]; [done | done].
Qed.

Lemma set_prev_spec n x w :
  alive w n ->
  exists w', set_prev n x w = Done w' /\ frame w w'
    /\ (forall m, next_of w' m = next_of w m)
    /\ (forall m, prev_of w' m = if decide (m = n) then x else prev_of w m)
    /\ (forall m, alive w' m <-> alive w m).
Proof.
  intros Hn. destruct (load_alive w n Hn) as (v & Hv & Hnx & Hpv).
  unfold set_prev. rewrite Hv. simpl.
  destruct (store_spec n {| prev := x; next := next v |} w Hn) as (w' & -> & Hf & Hn' & Hp' & Ha).
  exists w'. split; [done|]. split; [done|]. split; [|done].
  intros m. rewrite Hn'. simpl. destruct (decide (m = n)) as [->|]; [done | done].
Qed.

(** What [list_remove] does to a node whose neighbours are other nodes. *)
Lemma list_remove_effect e p n w :
  prev_of w e = Some p -> next_of w e = Some n ->
  p <> e -> n <> e -> alive w p -> alive w n ->
  exists w', list_remove e w = Done w' /\ frame w w'
    /\ (forall m, next_of w' m =
          if decide (m = e) then None else if decide (m = p) then Some n else next_of w m)
    /\ (forall m, prev_of w' m =
          if decide (m = e) then None else if decide (m = n) then Some p else prev_of w m)
    /\ (forall m, alive w' m <-> alive w m).
Proof.
  intros Hp Hn Hpe Hne Hap Han.
  pose proof (next_of_alive _ _ _ Hn) as Hae.
  unfold list_remove.
  destruct (load_alive w e Hae) as (ev & -> & Hnx & Hpv). simpl.
  rewrite Hnx, Hpv, Hn, Hp. simpl.
  destruct (set_next_spec p (Some n) w Hap) as (w1 & -> & Hf1 & Hn1 & Hp1 & Ha1). simpl.
  assert (alive w1 e) as Hae1 by (by apply Ha1).
  destruct (load_alive w1 e Hae1) as (ev1 & -> & Hnx1 & Hpv1). simpl.
  rewrite Hnx1, Hpv1, Hn1, Hp1, Hn, Hp, decide_False by done. simpl.
  assert (alive w1 n) as Han1 by (by apply Ha1).
  destruct (set_prev_spec n (Some p) w1 Han1) as (w2 & -> & Hf2 & Hn2 & Hp2 & Ha2). simpl.
  assert (alive w2 e) as Hae2 by (by apply Ha2).
  destruct (set_next_spec e None w2 Hae2) as (w3 & -> & Hf3 & Hn3 & Hp3 & Ha3). simpl.
  assert (alive w3 e) as Hae3 by (by apply Ha3).
  destruct (set_prev_spec e None w3 Hae3) as (w4 & -> & Hf4 & Hn4 & Hp4 & Ha4).
  exists w4. split; [done|].
  split; [eauto using frame_trans|].
  split; [|split].
  - intros m. rewrite Hn4, Hn3, Hn2, Hn1. done.
  - intros m. rewrite Hp4, Hp3, Hp2, Hp1. done.
  - intros m. rewrite Ha4, Ha3, Ha2, Ha1. done.
Qed.

(** What [list_append] does with a node that is on no list. *)
Lemma list_append_effect h e t w :
  prev_of w h = Some t -> is_Some (next_of w h) ->
  alive w e -> alive w t ->
  (next_of w e = None /\ prev_of w e = None) \/ (next_of w e = Some e /\ is_Some (prev_of w e)) ->
  e <> h -> e <> t ->
  exists w', list_append h e w = Done w' /\ frame w w'
    /\ (forall m, next_of w' m =
          if decide (m = t) then Some e else if decide (m = e) then Some h else next_of w m)
    /\ (forall m, prev_of w' m =
          if decide (m = h) then Some e else if decide (m = e) then Some t else prev_of w m)
    /\ (forall m, alive w' m <-> alive w m).
Proof.
  intros Hp [hn Hhn] Hae Hat Hfree Heh Het.
  pose proof (prev_of_alive _ _ _ Hp) as Hah.
  unfold list_append, list_check.
  destruct (load_alive w h Hah) as (hv & -> & Hnx & Hpv). simpl.
  rewrite Hnx, Hpv, Hhn, Hp. simpl.
  destruct (load_alive w e Hae) as (ev & Hev & Henx & Hepv). rewrite Hev. simpl.
  assert ((if bool_decide (next ev = None /\ prev ev = None) then Done true
           else list_empty e w) = Done true) as ->.
  { rewrite Henx, Hepv. destruct Hfree as [[-> ->]|[Hs [x Hx]]]; [done|].
    rewrite Hs, Hx. simpl. unfold list_empty. rewrite Hev. simpl.
    rewrite Henx, Hepv, Hs, Hx. simpl. by rewrite bool_decide_true. }
  simpl.
  destruct (set_next_spec e (Some h) w Hae) as (w1 & -> & Hf1 & Hn1 & Hp1 & Ha1). simpl.
  assert (alive w1 h) as Hah1 by (by apply Ha1).
  destruct (load_alive w1 h Hah1) as (hv1 & -> & Hnx1 & Hpv1). simpl.
  rewrite Hpv1, Hp1, Hp.
  assert (alive w1 e) as Hae1 by (by apply Ha1).
  destruct (set_prev_spec e (Some t) w1 Hae1) as (w2 & -> & Hf2 & Hn2 & Hp2 & Ha2). simpl.
  assert (alive w2 h) as Hah2 by (by apply Ha2).
  destruct (set_prev_spec h (Some e) w2 Hah2) as (w3 & -> & Hf3 & Hn3 & Hp3 & Ha3). simpl.
  assert (alive w3 e) as Hae3 by (by apply Ha3, Ha2).
  destruct (load_alive w3 e Hae3) as (ev3 & -> & Hnx3 & Hpv3). simpl.
  rewrite Hpv3, Hp3, Hp2, decide_False, decide_True by done. simpl.
  assert (alive w3 t) as Hat3 by (by apply Ha3, Ha2, Ha1).
  destruct (set_next_spec t (Some e) w3 Hat3) as (w4 & -> & Hf4 & Hn4 & Hp4 & Ha4).
  exists w4. split; [done|].
  split; [eauto using frame_trans|].
  split; [|split].
  - intros m. rewrite Hn4, Hn3, Hn2, Hn1. done.
  - intros m. rewrite Hp4, Hp3, Hp2, Hp1. done.
  - intros m. rewrite Ha4, Ha3, Ha2, Ha1. done.
Qed.

Lemma list_init_effect e w :
  alive w e ->
  exists w', list_init e w = Done w' /\ frame w w'
    /\ (forall m, next_of w' m = if decide (m = e) then Some e else next_of w m)
    /\ (forall m, prev_of w' m = if decide (m = e) then Some e else prev_of w m)
    /\ (forall m, alive w' m <-> alive w m).
Proof.
  intros Hae. unfold list_init.
  destruct (set_prev_spec e (Some e) w Hae) as (w1 & -> & Hf1 & Hn1 & Hp1 & Ha1). simpl.
  assert (alive w1 e) as Hae1 by (by apply Ha1).
  destruct (set_next_spec e (Some e) w1 Hae1) as (w2 & -> & Hf2 & Hn2 & Hp2 & Ha2).
  exists w2. split; [done|]. split; [eauto using frame_trans|].
  split; [|split].
  - intros m. by rewrite Hn2, Hn1.
  - intros m. by rewrite Hp2, Hp1.
  - intros m. by rewrite Ha2, Ha1.
Qed.

Lemma set_next_load n x w w' :
  set_next n x w = Done w' -> exists v, load n w = Done v /\ load n w' = Done {| prev := prev v; next := x |}.
Proof.
  unfold set_next. intros (v & Hv & Hst)%bind_Done. exists v. split; [done|].
  rewrite (load_store _ _ _ _ n Hst). by rewrite decide_True.
Qed.

Lemma set_prev_load n x w w' :
  set_prev n x w = Done w' -> exists v, load n w = Done v /\ load n w' = Done {| prev := x; next := next v |}.
Proof.
  unfold set_prev. intros (v & Hv & Hst)%bind_Done. exists v. split; [done|].
  rewrite (load_store _ _ _ _ n Hst). by rewrite decide_True.
Qed.

Lemma list_remove_resets e w w' :
  list_remove e w = Done w' -> load e w' = Done (ListNode None None).
Proof.
  unfold list_remove.
  intros (ev & _ & H)%bind_Done.
  apply bind_Done in H as (_ & _ & H).
  apply bind_Done in H as (p & _ & H).
  apply bind_Done in H as (w1 & _ & H).
  apply bind_Done in H as (ev1 & _ & H).
  apply bind_Done in H as (n & _ & H).
  apply bind_Done in H as (w2 & _ & H).
  apply bind_Done in H as (w3 & H3 & H4).
  apply set_next_load in H3 as (v3 & _ & Hl3).
  apply set_prev_load in H4 as (v4 & Hl4 & Hl).
  rewrite Hl3 in Hl4. injection Hl4 as <-. done.
Qed.

Lemma list_check_null_head l x w :
  load l w = Done (ListNode None None) -> list_check l x w = Fault AssertionFailed.
Proof. intros Hl. unfold list_check. rewrite Hl. done. Qed.

Lemma list_check_linked h e w ev n :
  alive w h -> load e w = Done ev -> next ev = Some n -> n <> e ->
  list_check h e w = Fault AssertionFailed.
Proof.
  intros [hv Hh] He Hn Hne. unfold list_check. rewrite Hh. simpl.
  destruct (bool_decide (next hv <> None /\ prev hv <> None)); [|done]. simpl.
  rewrite He. simpl. rewrite bool_decide_false by (rewrite Hn; intros [? _]; done).
  unfold list_empty. rewrite He. simpl.
  destruct (bool_decide (next ev <> None /\ prev ev <> None)); [|done]. simpl.
  rewrite bool_decide_false; [done|]. rewrite Hn. congruence.
Qed.

Lemma list_check_detached h e w hv :
  load h w = Done hv -> next hv <> None -> prev hv <> None ->
  load e w = Done (ListNode None None) ->
  list_check h e w = Done ().
Proof.
  intros Hh Hn Hp He. unfold list_check. rewrite Hh. simpl.
  rewrite bool_decide_true by done. simpl. rewrite He. done.
Qed.

(** A node taken off a list by [list_remove] and not initialised again is
    accepted as the element of [list_insert] and of [list_append]: both
    complete and link the node. *)
Lemma list_reuse_after_remove_cex :
  (w1 ← list_append (SinkSources 0) (SourceLink 0) w_one;
   w2 ← list_remove (SourceLink 0) w1;
   w3 ← list_insert (SinkSources 0) (SourceLink 0) w2;
   load (SourceLink 0) w3)
  = Done {| prev := Some (SinkSources 0); next := Some (SinkSources 0) |}
  /\ (w1 ← list_append (SinkSources 0) (SourceLink 0) w_one;
      w2 ← list_remove (SourceLink 0) w1;
      w3 ← list_append (SinkSources 0) (SourceLink 0) w2;
      load (SourceLink 0) w3)
     = Done {| prev := Some (SinkSources 0); next := Some (SinkSources 0) |}.
Proof. split; vm_compute; reflexivity. Qed.

(** C7: [list_remove] leaves the node with two null pointers, and it
    completes on a node linked between two other live nodes.  A node in
    that state fails the assertion as the list argument of [list_insert]
    and [list_append] and as the argument of [list_remove] and
    [list_empty], but passes the check as the element to insert.  A node
    whose [next] is another node fails the assertion as the element of
    [list_insert] and [list_append]. *)
Theorem list_remove_then_reuse (w : world) (e : node) :
  (forall w', list_remove e w = Done w' -> load e w' = Done (ListNode None None))
  /\ (forall p n, prev_of w e = Some p -> next_of w e = Some n ->
        p <> e -> n <> e -> alive w p -> alive w n ->
        exists w', list_remove e w = Done w' /\ load e w' = Done (ListNode None None))
  /\ (load e w = Done (ListNode None None) ->
        (forall x, list_insert e x w = Fault AssertionFailed
                   /\ list_append e x w = Fault AssertionFailed)
        /\ list_remove e w = Fault AssertionFailed
        /\ list_empty e w = Fault AssertionFailed
        /\ (forall h hv, load h w = Done hv -> next hv <> None -> prev hv <> None ->
              list_check h e w = Done ()))
  /\ (forall h ev n, alive w h -> load e w = Done ev -> next ev = Some n -> n <> e ->
        list_insert h e w = Fault AssertionFailed
        /\ list_append h e w = Fault AssertionFailed).
Proof.
  split; [|split; [|split]].
  - apply list_remove_resets.
  - intros p n Hp Hn Hpe Hne Hap Han.
    destruct (list_remove_effect e p n w Hp Hn Hpe Hne Hap Han) as (w' & Hrun & _).
    exists w'. split; [done|]. by apply (list_remove_resets e w w').
  - intros He. split; [|split; [|split]].
    + intros x. unfold list_insert, list_append. by rewrite (list_check_null_head e x w He).
    + unfold list_remove. by rewrite He.
    + unfold list_empty. by rewrite He.
    + intros h hv Hh Hn Hp. by eapply list_check_detached.
  - intros h ev n Hh He Hn Hne. unfold list_insert, list_append.
    by rewrite (list_check_linked h e w ev n).
Qed.

Lemma path_frame w w' l :
  path w l ->
  (forall a b l1 l2, l = l1 ++ a :: b :: l2 ->
     next_of w' a = next_of w a /\ prev_of w' b = prev_of w b) ->
  path w' l.
Proof.
  induction l as [|a [|b l] IH]; [done..|].
  intros [[Hn Hp] Hpath] Hsame. split.
  - destruct (Hsame a b [] l eq_refl) as [Hn' Hp']. split; congruence.
  - apply IH; [done|]. intros a' b' l1 l2 Heq.
    apply (Hsame a' b' (a :: l1) l2). by rewrite Heq.
Qed.

Lemma path_app w l1 a l2 :
  path w (l1 ++ a :: l2) <-> path w (l1 ++ [a]) /\ path w (a :: l2).
Proof.
  induction l1 as [|x l1 IH].
  - simpl. destruct l2; tauto.
  - destruct l1 as [|y l1].
    + simpl in *. destruct l2; tauto.
    + change (path w ((x :: y :: l1) ++ a :: l2)) with
        (links w x y /\ path w ((y :: l1) ++ a :: l2)).
      change (path w ((x :: y :: l1) ++ [a])) with
        (links w x y /\ path w ((y :: l1) ++ [a])).
      tauto.
Qed.

Lemma path_same w w' l :
  path w l ->
  (forall x, x ∈ l -> next_of w' x = next_of w x /\ prev_of w' x = prev_of w x) ->
  path w' l.
Proof.
  intros Hp Hsame. apply (path_frame w); [done|].
  intros a b l1 l2 ->. split.
  - apply Hsame. rewrite elem_of_app, !elem_of_cons. tauto.
  - apply Hsame. rewrite elem_of_app, !elem_of_cons. tauto.
Qed.

Lemma dll_same w w' h L :
  dll w h L ->
  (forall x, x ∈ h :: L -> next_of w' x = next_of w x /\ prev_of w' x = prev_of w x) ->
  dll w' h L.
Proof.
  intros [Hnd Hp] Hsame. split; [done|]. apply (path_same w); [done|].
  intros x Hx. apply Hsame. change (h :: L ++ [h]) with ((h :: L) ++ [h]) in Hx.
  rewrite elem_of_app, list_elem_of_singleton in Hx. destruct Hx as [?| ->]; [done|].
  apply elem_of_cons. by left.
Qed.

(** Splitting a list at its last element. *)
Lemma snoc_view {A} (x : A) (l : list A) : exists l' y, x :: l = l' ++ [y] /\ last (x :: l) = Some y.
Proof.
  revert x. induction l as [|z l IH]; intros x.
  - by exists [], x.
  - destruct (IH z) as (l' & y & Heq & Hl). exists (x :: l'), y. split.
    + by rewrite Heq.
    + rewrite <- Hl. done.
Qed.

Lemma dll_alive w h L x : dll w h L -> x ∈ h :: L -> alive w x.
Proof.
  intros [_ Hp] Hx. revert Hp.
  change (h :: L ++ [h]) with ((h :: L) ++ [h]).
  generalize (h :: L) Hx. clear. intros l Hx.
  apply list_elem_of_split in Hx as (l1 & l2 & ->).
  rewrite <- app_assoc. simpl. intros [_ Hp]%path_app.
  destruct (l2 ++ [h]) as [|y l'] eqn:Heq.
  - by destruct l2.
  - destruct Hp as [[Hn _] _]. by eapply next_of_alive.
Qed.

(** The neighbours of a member of a list. *)
Lemma dll_neighbours w h L1 e L2 :
  dll w h (L1 ++ e :: L2) ->
  exists p n, last (h :: L1) = Some p /\ head (L2 ++ [h]) = Some n
    /\ prev_of w e = Some p /\ next_of w e = Some n
    /\ p <> e /\ n <> e /\ alive w p /\ alive w n.
Proof.
  intros Hd. pose proof Hd as [Hnd Hp].
  destruct (snoc_view h L1) as (A & p & HA & Hlast).
  assert (exists n B, L2 ++ [h] = n :: B) as (n & B & HB).
  { destruct L2 as [|n L2]; simpl; eauto. }
  exists p, n. split; [done|]. split; [by rewrite HB|].
  assert (p ∈ h :: L1) as Hpin by (rewrite HA, elem_of_app, list_elem_of_singleton; tauto).
  assert (n ∈ h :: L2) as Hnin.
  { assert (n ∈ L2 ++ [h]) as Hin by (rewrite HB; apply elem_of_cons; tauto).
    rewrite elem_of_app, list_elem_of_singleton in Hin. rewrite elem_of_cons. tauto. }
  change (h :: L1 ++ e :: L2) with ((h :: L1) ++ e :: L2) in Hnd.
  apply NoDup_app in Hnd as (Hnd1 & Hdis & Hnd2).
  apply NoDup_cons in Hnd2 as [HeL2 Hnd2].
  assert (p <> e) as Hpe.
  { intros ->. apply (Hdis e Hpin). apply elem_of_cons. tauto. }
  assert (n <> e) as Hne.
  { intros ->. apply elem_of_cons in Hnin as [-> |?]; [|done].
    apply (Hdis h); apply elem_of_cons; tauto. }
  change (h :: (L1 ++ e :: L2) ++ [h]) with ((h :: L1 ++ e :: L2) ++ [h]) in Hp.
  replace ((h :: L1 ++ e :: L2) ++ [h]) with (A ++ p :: e :: n :: B) in Hp.
  2:{ change (h :: L1 ++ e :: L2) with ((h :: L1) ++ e :: L2).
      rewrite HA, <- !app_assoc. simpl. by rewrite HB. }
  apply path_app in Hp as [_ Hp]. destruct Hp as [[Hpn Hep] [[Hen Hnp] _]].
  do 4 (split; [done|]).
  split.
  - eapply dll_alive; [exact Hd|]. change (h :: L1 ++ e :: L2) with ((h :: L1) ++ e :: L2).
    apply elem_of_app. tauto.
  - eapply dll_alive; [exact Hd|]. apply elem_of_cons in Hnin as [-> |?].
    + apply elem_of_cons. tauto.
    + apply elem_of_cons. right. rewrite elem_of_app, elem_of_cons. tauto.
Qed.

Lemma dll_remove w w' h L1 e L2 p n :
  dll w h (L1 ++ e :: L2) ->
  last (h :: L1) = Some p -> head (L2 ++ [h]) = Some n ->
  (forall m, next_of w' m =
     if decide (m = e) then None else if decide (m = p) then Some n else next_of w m) ->
  (forall m, prev_of w' m =
     if decide (m = e) then None else if decide (m = n) then Some p else prev_of w m) ->
  dll w' h (L1 ++ L2).
Proof.
  intros [Hnd Hp] Hlast Hhead Hn' Hp'.
  destruct (snoc_view h L1) as (A & p' & HA & Hlast').
  assert (p' = p) as -> by congruence. clear Hlast'.
  assert (exists B, L2 ++ [h] = n :: B) as (B & HB).
  { destruct (L2 ++ [h]); [done|]. injection Hhead as ->. eauto. }
  change (h :: L1 ++ e :: L2) with ((h :: L1) ++ e :: L2) in Hnd.
  pose proof Hnd as Hnd0.
  apply NoDup_app in Hnd as (Hnd1 & Hdis & Hnd2).
  apply NoDup_cons in Hnd2 as [HeL2 Hnd2].
  assert (forall x, x ∈ h :: L1 -> x <> e) as HeL1.
  { intros x Hx ->. apply (Hdis e Hx). apply elem_of_cons. tauto. }
  split.
  { change (h :: L1 ++ L2) with ((h :: L1) ++ L2). apply NoDup_app.
    split; [done|]. split; [|done]. intros x Hx Hx2. apply (Hdis x Hx).
    apply elem_of_cons. tauto. }
  change (h :: (L1 ++ e :: L2) ++ [h]) with ((h :: L1 ++ e :: L2) ++ [h]) in Hp.
  replace ((h :: L1 ++ e :: L2) ++ [h]) with (A ++ p :: e :: n :: B) in Hp.
  2:{ change (h :: L1 ++ e :: L2) with ((h :: L1) ++ e :: L2).
      rewrite HA, <- !app_assoc. simpl. by rewrite HB. }
  change (h :: (L1 ++ L2) ++ [h]) with ((h :: L1 ++ L2) ++ [h]).
  replace ((h :: L1 ++ L2) ++ [h]) with (A ++ p :: n :: B).
  2:{ change (h :: L1 ++ L2) with ((h :: L1) ++ L2).
      rewrite HA, <- !app_assoc. simpl. by rewrite HB. }
  apply path_app in Hp as [HpA Hp].
  destruct Hp as [_ [_ HpB]].
  (* membership facts *)
  pose proof Hnd1 as Hnd1'.
  rewrite HA in Hnd1, HeL1, Hdis.
  apply NoDup_app in Hnd1 as (HndA & HApdis & _).
  assert (p ∉ A) as HpA'.
  { intros Hin. apply (HApdis p Hin). apply list_elem_of_singleton. done. }
  assert (forall x, x ∈ B -> x <> n) as HnB.
  { intros x Hx ->. destruct L2 as [|n' L2']; simpl in HB.
    - injection HB as -> <-. by apply elem_of_nil in Hx.
    - injection HB as -> <-. apply NoDup_cons in Hnd2 as [Hn2 _].
      rewrite elem_of_app, list_elem_of_singleton in Hx. destruct Hx as [?| ->]; [done|].
      apply (Hdis h).
      + destruct A; simpl in HA; injection HA as <-; apply elem_of_cons; tauto.
      + rewrite !elem_of_cons. tauto. }
  assert (forall x, x ∈ n :: B -> x ∈ h :: L2) as HBsub.
  { intros x Hx. rewrite <- HB, elem_of_app, list_elem_of_singleton in Hx.
    apply elem_of_cons. tauto. }
  assert (h ∈ A ++ [p]) as HhA.
  { destruct A; simpl in HA; injection HA as <-; apply elem_of_cons; tauto. }
  assert (forall x, x ∈ L2 -> x ∉ A ++ [p]) as HL2A.
  { intros x Hx Hin. apply (Hdis x Hin). apply elem_of_cons. tauto. }
  apply path_app. split.
  - apply (path_frame w); [done|]. intros a b l1 l2 Heq.
    assert (a ∈ A /\ b ∈ A ++ [p] /\ (b = h -> False)) as (Ha & Hb & Hbh).
    { assert (l1 ++ [a] ++ b :: l2 = A ++ [p]) as Heq' by (by rewrite Heq).
      destruct (snoc_view b l2) as (l2' & z & Hl2 & _). rewrite Hl2 in Heq'.
      rewrite !app_assoc in Heq'. apply app_inj_tail in Heq' as [<- <-].
      split; [rewrite !elem_of_app, list_elem_of_singleton; tauto|].
      split; [rewrite Heq, elem_of_app, !elem_of_cons; tauto|].
      intros Hbh. apply NoDup_cons in Hnd1' as [Hx _]. apply Hx.
      rewrite <- HA in Heq. destruct l1 as [|y l1]; simpl in Heq.
      - injection Heq as _ Heq. rewrite Heq, <- Hbh. apply elem_of_cons. tauto.
      - injection Heq as _ Heq. rewrite Heq, <- Hbh.
        rewrite elem_of_app, !elem_of_cons. tauto. }
    rewrite Hn', Hp'.
    rewrite (decide_False (P := a = e)) by (apply HeL1; rewrite elem_of_app; tauto).
    rewrite (decide_False (P := a = p)) by (intros ->; done).
    rewrite (decide_False (P := b = e)) by (by apply HeL1).
    rewrite (decide_False (P := b = n)); [done|].
    intros ->. specialize (HBsub n). rewrite !elem_of_cons in HBsub.
    destruct HBsub as [-> |Hn2]; [tauto|done|]. by apply (HL2A n).
  - split.
    + unfold links. rewrite Hn', Hp'. split.
      * rewrite decide_False by (apply HeL1; rewrite elem_of_app, list_elem_of_singleton; tauto).
        by rewrite decide_True.
      * rewrite decide_False, decide_True; [done..|].
        intros ->. specialize (HBsub e). rewrite !elem_of_cons in HBsub.
        destruct HBsub as [-> |?]; [tauto| |done]. by apply (HeL1 h).
    + apply (path_frame w); [done|]. intros a b l1 l2 Heq.
      assert (a ∈ L2 /\ b ∈ B) as [Ha Hb].
      { split.
        - assert (l1 ++ [a] ++ b :: l2 = L2 ++ [h]) as Heq' by (by rewrite HB, Heq).
          destruct (snoc_view b l2) as (l2' & z & Hl2 & _). rewrite Hl2 in Heq'.
          rewrite !app_assoc in Heq'. apply app_inj_tail in Heq' as [<- <-].
          rewrite !elem_of_app, list_elem_of_singleton. tauto.
        - destruct l1 as [|y l1]; simpl in Heq; injection Heq as -> ->.
          + apply elem_of_cons. tauto.
          + rewrite elem_of_app, !elem_of_cons. tauto. }
      rewrite Hn', Hp'.
      rewrite (decide_False (P := a = e)) by (intros ->; done).
      rewrite (decide_False (P := a = p)).
      2:{ intros ->. apply (HL2A p Ha). rewrite elem_of_app, list_elem_of_singleton. tauto. }
      rewrite (decide_False (P := b = e)).
      2:{ intros ->. specialize (HBsub e). rewrite !elem_of_cons in HBsub.
          destruct HBsub as [-> |?]; [tauto| |done]. by apply (HeL1 h). }
      rewrite (decide_False (P := b = n)) by (by apply HnB). done.
Qed.

Lemma dll_last w h L t :
  dll w h L -> last (h :: L) = Some t ->
  prev_of w h = Some t /\ is_Some (next_of w h) /\ alive w t.
Proof.
  intros Hd Hlast. pose proof Hd as [Hnd Hp].
  destruct (snoc_view h L) as (A & t' & HA & Hlast').
  assert (t' = t) as -> by congruence.
  split; [|split].
  - change (h :: L ++ [h]) with ((h :: L) ++ [h]) in Hp. rewrite HA, <- app_assoc in Hp.
    apply path_app in Hp as [_ [[_ Hp] _]]. done.
  - destruct L as [|x L]; simpl in Hp; destruct Hp as [[Hn _] _]; eauto.
  - eapply dll_alive; [done|]. rewrite HA, elem_of_app, list_elem_of_singleton. tauto.
Qed.

Lemma dll_append w w' h L e t :
  dll w h L -> e ∉ h :: L -> last (h :: L) = Some t ->
  (forall m, next_of w' m =
     if decide (m = t) then Some e else if decide (m = e) then Some h else next_of w m) ->
  (forall m, prev_of w' m =
     if decide (m = h) then Some e else if decide (m = e) then Some t else prev_of w m) ->
  dll w' h (L ++ [e]).
Proof.
  intros [Hnd Hp] He Hlast Hn' Hp'.
  destruct (snoc_view h L) as (A & t' & HA & Hlast').
  assert (t' = t) as -> by congruence. clear Hlast'.
  split.
  { change (h :: L ++ [e]) with ((h :: L) ++ [e]). apply NoDup_app.
    split; [done|]. split; [|apply NoDup_singleton].
    intros x Hx ->%list_elem_of_singleton. done. }
  change (h :: L ++ [h]) with ((h :: L) ++ [h]) in Hp.
  change (h :: (L ++ [e]) ++ [h]) with ((h :: L ++ [e]) ++ [h]).
  change (h :: L ++ [e]) with ((h :: L) ++ [e]).
  rewrite HA in Hp, He, Hnd |- *. rewrite <- !app_assoc in *. simpl in *.
  apply path_app in Hp as [HpA _].
  pose proof Hnd as Hnd'.
  apply NoDup_app in Hnd as (HndA & HAt & _).
  assert (t <> e) as Hte.
  { intros ->. apply He. rewrite elem_of_app, list_elem_of_singleton. tauto. }
  assert (h <> e) as Hhe.
  { intros ->. apply He. destruct A; simpl in HA; injection HA as <-; apply elem_of_cons; tauto. }
  apply path_app. split.
  - apply (path_frame w); [done|]. intros a b l1 l2 Heq.
    assert (a ∈ A) as Ha.
    { assert (l1 ++ [a] ++ b :: l2 = A ++ [t]) as Heq' by (by rewrite Heq).
      destruct (snoc_view b l2) as (l2' & z & Hl2 & _). rewrite Hl2 in Heq'.
      rewrite !app_assoc in Heq'. apply app_inj_tail in Heq' as [<- <-].
      rewrite !elem_of_app, list_elem_of_singleton; tauto. }
    assert (b ∈ A ++ [t]) as Hb by (rewrite Heq, elem_of_app, !elem_of_cons; tauto).
    assert (b <> h) as Hbh.
    { intros Hbh. rewrite <- HA in Hnd'. apply NoDup_cons in Hnd' as [Hx _]. apply Hx.
      rewrite <- HA in Heq. destruct l1 as [|y l1]; simpl in Heq.
      - injection Heq as _ Heq. rewrite Heq, Hbh. apply elem_of_cons. tauto.
      - injection Heq as _ Heq. rewrite Heq, Hbh.
        rewrite elem_of_app, !elem_of_cons. tauto. }
    rewrite Hn', Hp'.
    rewrite (decide_False (P := a = t)) by (intros ->; apply (HAt t Ha), list_elem_of_singleton; done).
    rewrite (decide_False (P := a = e)) by (intros ->; apply He; rewrite elem_of_app; tauto).
    rewrite (decide_False (P := b = h)) by done.
    rewrite (decide_False (P := b = e)) by (intros ->; done). done.
  - simpl. unfold links. rewrite !Hn', !Hp'.
    rewrite (decide_True (P := t = t)) by done.
    rewrite (decide_False (P := e = h)) by done.
    rewrite (decide_True (P := e = e)) by done.
    rewrite (decide_False (P := e = t)) by done.
    rewrite (decide_True (P := h = h)) by done. rewrite ?(decide_True (P := e = e)) by done. repeat split.
Qed.

Lemma frame_is_head w w' h : frame w w' -> is_head w' h <-> is_head w h.
Proof.
  intros (_ & _ & _ & Hk).
  destruct h as [k|k|p]; simpl; [| |done];
    rewrite <- (fmap_is_Some erase_heads (sinks w' !! k)),
            <- (fmap_is_Some erase_heads (sinks w !! k)), Hk; done.
Qed.

Lemma view_load w m v :
  load m w = Done v <-> alive w m /\ next_of w m = next v /\ prev_of w m = prev v.
Proof.
  unfold alive, next_of, prev_of. split.
  - intros ->. eauto.
  - intros ([v' Hv'] & Hn & Hp). rewrite Hv' in *. destruct v, v'; simpl in *. congruence.
Qed.

Lemma load_same w w' m :
  (alive w' m <-> alive w m) -> next_of w' m = next_of w m -> prev_of w' m = prev_of w m ->
  load m w' = load m w.
Proof.
  intros Ha Hn Hp. destruct (load m w) as [v|f] eqn:Hv.
  - apply view_load. apply view_load in Hv as (? & ? & ?).
    split; [by apply Ha|]. split; congruence.
  - destruct (load m w') as [v'|f'] eqn:Hv'.
    + assert (alive w m) as [v Hv2] by (apply Ha; by exists v'). congruence.
    + unfold load, get_sink, get_source in *.
      destruct m; simpl in *;
        repeat match goal with
        | H : context [match ?x with _ => _ end] |- _ => destruct x; simpl in H
        end; congruence.
Qed.

Lemma is_head_not_link w h p : is_head w h -> h <> SourceLink p.
Proof. by intros Hh ->. Qed.

Lemma elem_of_cycle mem h x :
  x ∈ cycle mem h <-> x = h \/ exists q, x = SourceLink q /\ q ∈ mem h.
Proof.
  unfold cycle. rewrite elem_of_cons, list_elem_of_fmap. done.
Qed.

Lemma cycle_disjoint w mem h h' x :
  lists_ok w mem -> is_head w h -> is_head w h' ->
  x ∈ cycle mem h -> x ∈ cycle mem h' -> h = h'.
Proof.
  intros Hok Hh Hh' [->|(q & -> & Hq)]%elem_of_cycle [Heq|(q' & Heq & Hq')]%elem_of_cycle.
  - done.
  - subst. done.
  - subst. done.
  - injection Heq as <-. by eapply ok_disjoint.
Qed.

Lemma link_in_cycle w mem h q :
  is_head w h -> SourceLink q ∈ cycle mem h -> q ∈ mem h.
Proof.
  intros Hh [Heq|(q' & [= <-] & Hq)]%elem_of_cycle; [|done]. by subst.
Qed.

Lemma mem_is_head w mem h q : lists_ok w mem -> q ∈ mem h -> is_head w h.
Proof.
  intros Hok Hq. destruct h as [k|k|p]; simpl.
  - destruct (sinks w !! k) eqn:Hk; [by eexists|]. exfalso.
    rewrite (ok_nohead _ _ Hok (SinkSources k)) in Hq; [by apply elem_of_nil in Hq|].
    simpl. rewrite Hk. by intros [? ?].
  - destruct (sinks w !! k) eqn:Hk; [by eexists|]. exfalso.
    rewrite (ok_nohead _ _ Hok (SinkRemoved k)) in Hq; [by apply elem_of_nil in Hq|].
    simpl. rewrite Hk. by intros [? ?].
  - rewrite (ok_nohead _ _ Hok (SourceLink p)) in Hq; [by apply elem_of_nil in Hq | simpl; tauto].
Qed.

Lemma mem_alive w mem h q : lists_ok w mem -> q ∈ mem h -> alive w (SourceLink q).
Proof.
  intros Hok Hq. pose proof (mem_is_head _ _ _ _ Hok Hq) as Hh.
  eapply dll_alive; [by apply (ok_dll _ _ Hok h)|].
  apply elem_of_cons. right. apply list_elem_of_fmap. eauto.
Qed.

Lemma lists_ok_same w w' mem :
  lists_ok w mem ->
  (forall h, is_head w' h <-> is_head w h) ->
  (forall m, alive w' m -> load m w' = load m w) ->
  (forall h q, q ∈ mem h -> alive w' (SourceLink q)) ->
  lists_ok w' mem.
Proof.
  intros Hok Hhead Hload Hmem.
  assert (forall m, alive w' m -> next_of w' m = next_of w m /\ prev_of w' m = prev_of w m) as Hview.
  { intros m Hm. unfold next_of, prev_of. by rewrite (Hload m Hm). }
  split.
  - intros h Hh. apply (dll_same w); [apply (ok_dll _ _ Hok), Hhead, Hh|].
    intros x [->|(q & -> & Hq)%list_elem_of_fmap]%elem_of_cons; apply Hview.
    + by apply alive_head.
    + by eapply Hmem.
  - intros h Hh. apply (ok_nohead _ _ Hok). by rewrite <- Hhead.
  - apply (ok_disjoint _ _ Hok).
  - intros p Hp Hno. unfold detached_link. rewrite (Hload _ Hp).
    apply (ok_detached _ _ Hok); [|done].
    pose proof (Hload _ Hp) as Heq. destruct Hp as [v Hv]. exists v. congruence.
Qed.

Lemma NoDup_fmap_mem w mem h : lists_ok w mem -> is_head w h -> NoDup (mem h).
Proof.
  intros Hok Hh. destruct (ok_dll _ _ Hok h Hh) as [Hnd _].
  apply NoDup_cons in Hnd as [_ Hnd]. by apply NoDup_fmap_1 in Hnd.
Qed.

Lemma lists_ok_remove w mem h L1 p L2 :
  lists_ok w mem -> mem h = L1 ++ p :: L2 ->
  exists w', list_remove (SourceLink p) w = Done w' /\ frame w w'
    /\ lists_ok w' (mem_set h (L1 ++ L2) mem)
    /\ (forall m, alive w' m <-> alive w m)
    /\ p ∉ L1 ++ L2.
Proof.
  intros Hok Hmem.
  assert (p ∈ mem h) as Hp by (rewrite Hmem, elem_of_app, elem_of_cons; tauto).
  pose proof (mem_is_head _ _ _ _ Hok Hp) as Hh.
  pose proof (ok_dll _ _ Hok h Hh) as Hd.
  pose proof (NoDup_fmap_mem _ _ _ Hok Hh) as Hnd. rewrite Hmem in Hnd.
  assert (p ∉ L1 ++ L2) as HpL.
  { apply NoDup_app in Hnd as (_ & Hdis & Hnd2). apply NoDup_cons in Hnd2 as [? _].
    rewrite elem_of_app. intros [Hin|Hin]; [|done]. apply (Hdis p Hin). apply elem_of_cons. tauto. }
  rewrite Hmem, fmap_app, fmap_cons in Hd.
  destruct (dll_neighbours _ _ _ _ _ Hd) as (pr & nx & Hlast & Hhead & Hpv & Hnx & Hpre & Hnxe & Hapr & Hanx).
  destruct (list_remove_effect _ _ _ _ Hpv Hnx Hpre Hnxe Hapr Hanx) as (w' & Hrun & Hf & Hn' & Hp' & Ha').
  exists w'. split; [done|]. split; [done|]. split; [|done].
  assert (pr ∈ cycle mem h) as Hprc.
  { unfold cycle. rewrite Hmem, fmap_app, fmap_cons.
    change (h :: (SourceLink <$> L1) ++ SourceLink p :: (SourceLink <$> L2))
      with ((h :: (SourceLink <$> L1)) ++ SourceLink p :: (SourceLink <$> L2)).
    apply elem_of_app. left. by eapply last_Some_elem_of. }
  assert (nx ∈ cycle mem h) as Hnxc.
  { unfold cycle. rewrite Hmem, fmap_app, fmap_cons.
    destruct (SourceLink <$> L2) as [|y l]; simpl in Hhead; injection Hhead as <-.
    - apply elem_of_cons. tauto.
    - rewrite elem_of_cons, elem_of_app, !elem_of_cons. tauto. }
  assert (forall x h', is_head w h' -> h' <> h -> x ∈ cycle mem h' ->
            x <> SourceLink p /\ x <> pr /\ x <> nx) as Hother.
  { intros x h' Hh' Hne Hx. split; [|split]; intros ->; apply Hne.
    - apply (link_in_cycle w) in Hx; [|done]. by eapply ok_disjoint.
    - by eapply cycle_disjoint.
    - by eapply cycle_disjoint. }
  split.
  - intros h' Hh'. apply (frame_is_head _ _ _ Hf) in Hh'. unfold mem_set.
    destruct (decide (h' = h)) as [->|Hne].
    + rewrite fmap_app. by eapply dll_remove.
    + apply (dll_same w); [by apply (ok_dll _ _ Hok)|].
      intros x Hx. destruct (Hother x h' Hh' Hne Hx) as (? & ? & ?).
      rewrite Hn', Hp'. by rewrite !decide_False.
  - intros h' Hh'. unfold mem_set. rewrite decide_False.
    + apply (ok_nohead _ _ Hok). by rewrite <- (frame_is_head _ _ _ Hf).
    + intros ->. apply Hh'. by apply (frame_is_head _ _ _ Hf).
  - intros h1 h2 q. unfold mem_set. intros H1 H2.
    apply (ok_disjoint _ _ Hok h1 h2 q).
    + destruct (decide (h1 = h)) as [->|]; [|done].
      rewrite Hmem. rewrite elem_of_app in H1. rewrite elem_of_app, elem_of_cons. tauto.
    + destruct (decide (h2 = h)) as [->|]; [|done].
      rewrite Hmem. rewrite elem_of_app in H2. rewrite elem_of_app, elem_of_cons. tauto.
  - intros q Hq Hno. unfold detached_link.
    destruct (decide (q = p)) as [->|Hqp].
    + left. apply view_load. split; [done|]. rewrite Hn', Hp'. by rewrite !decide_True.
    + assert (forall h', q ∉ mem h') as Hno'.
      { intros h' Hin. apply (Hno h'). unfold mem_set.
        destruct (decide (h' = h)) as [->|]; [|done].
        rewrite Hmem in Hin. rewrite elem_of_app, elem_of_cons in Hin.
        rewrite elem_of_app. destruct Hin as [?|[?|?]]; [tauto|done|tauto]. }
      assert (load (SourceLink q) w' = load (SourceLink q) w) as ->.
      { apply load_same; [apply Ha'|..]; rewrite ?Hn', ?Hp'.
        - rewrite decide_False by congruence. rewrite decide_False; [done|].
          intros Heq. rewrite <- Heq in Hprc. apply (link_in_cycle w) in Hprc; [|done]. by apply (Hno' h).
        - rewrite decide_False by congruence. rewrite decide_False; [done|].
          intros Heq. rewrite <- Heq in Hnxc. apply (link_in_cycle w) in Hnxc; [|done]. by apply (Hno' h). }
      apply (ok_detached _ _ Hok); [by apply Ha'|done].
Qed.

Lemma detached_view w p :
  detached_link w p ->
  (next_of w (SourceLink p) = None /\ prev_of w (SourceLink p) = None)
  \/ (next_of w (SourceLink p) = Some (SourceLink p) /\ is_Some (prev_of w (SourceLink p))).
Proof.
  unfold next_of, prev_of. intros [->| ->]; simpl; [left | right]; eauto.
Qed.

Lemma lists_ok_append w mem h p :
  lists_ok w mem -> is_head w h -> alive w (SourceLink p) -> (forall h', p ∉ mem h') ->
  exists w', list_append h (SourceLink p) w = Done w' /\ frame w w'
    /\ lists_ok w' (mem_set h (mem h ++ [p]) mem)
    /\ (forall m, alive w' m <-> alive w m).
Proof.
  intros Hok Hh Hp Hno.
  pose proof (ok_dll _ _ Hok h Hh) as Hd.
  destruct (snoc_view h (SourceLink <$> mem h)) as (A & t & HA & Hlast).
  destruct (dll_last _ _ _ _ Hd Hlast) as (Hpv & Hnx & Hat).
  assert (t ∈ cycle mem h) as Htc by (by eapply last_Some_elem_of).
  assert (SourceLink p <> h) as Hph by (intros <-; done).
  assert (SourceLink p <> t) as Hpt.
  { intros <-. apply (link_in_cycle w) in Htc; [|done]. by apply (Hno h). }
  destruct (list_append_effect h (SourceLink p) t w Hpv Hnx Hp Hat
              (detached_view _ _ (ok_detached _ _ Hok p Hp Hno)) Hph Hpt)
    as (w' & Hrun & Hf & Hn' & Hp' & Ha').
  exists w'. split; [done|]. split; [done|]. split; [|done].
  split.
  - intros h' Hh'. apply (frame_is_head _ _ _ Hf) in Hh'. unfold mem_set.
    destruct (decide (h' = h)) as [->|Hne].
    + rewrite fmap_app. eapply dll_append; [done| |done..].
      intros Hin%(link_in_cycle w); [|done]. by apply (Hno h).
    + apply (dll_same w); [by apply (ok_dll _ _ Hok)|].
      intros x Hx. rewrite Hn', Hp'.
      assert (x <> t) by (intros ->; apply Hne; by eapply cycle_disjoint).
      assert (x <> h).
      { intros ->. apply Hne. eapply (cycle_disjoint w); [done..|].
        apply elem_of_cycle. by left. }
      assert (x <> SourceLink p).
      { intros ->. apply (link_in_cycle w) in Hx; [|done]. by apply (Hno h'). }
      by rewrite !decide_False.
  - intros h' Hh'. unfold mem_set. rewrite decide_False.
    + apply (ok_nohead _ _ Hok). by rewrite <- (frame_is_head _ _ _ Hf).
    + intros ->. apply Hh'. by apply (frame_is_head _ _ _ Hf).
  - intros h1 h2 q. unfold mem_set. intros H1 H2.
    destruct (decide (h1 = h)) as [->|Hne1]; destruct (decide (h2 = h)) as [->|Hne2]; [done|..].
    + apply elem_of_app in H1 as [H1| ->%list_elem_of_singleton].
      * by eapply ok_disjoint.
      * by apply Hno in H2.
    + apply elem_of_app in H2 as [H2| ->%list_elem_of_singleton].
      * by eapply ok_disjoint.
      * by apply Hno in H1.
    + by eapply ok_disjoint.
  - intros q Hq Hnoq. unfold detached_link.
    assert (q <> p) as Hqp.
    { intros ->. apply (Hnoq h). unfold mem_set. rewrite decide_True by done.
      rewrite elem_of_app, list_elem_of_singleton. tauto. }
    assert (forall h', q ∉ mem h') as Hno'.
    { intros h' Hin. apply (Hnoq h'). unfold mem_set.
      destruct (decide (h' = h)) as [->|]; [|done]. rewrite elem_of_app. tauto. }
    assert (load (SourceLink q) w' = load (SourceLink q) w) as ->.
    { apply load_same; [apply Ha'|..]; rewrite ?Hn', ?Hp'.
      - rewrite decide_False.
        + rewrite decide_False by congruence. done.
        + intros Heq. rewrite <- Heq in Htc. apply (link_in_cycle w) in Htc; [|done].
          by apply (Hno' h).
      - rewrite decide_False by (by apply not_eq_sym, (is_head_not_link w)).
        rewrite decide_False by congruence. done. }
    apply (ok_detached _ _ Hok); [by apply Ha'|done].
Qed.


Lemma update_source_put p f w s :
  srcs w !! p = Some s -> update_source p f w = Done (put p (f s) w).
Proof. intros Hs. unfold update_source, get_source. by rewrite Hs. Qed.

Lemma load_put p s s' w m :
  srcs w !! p = Some s -> link s' = link s -> load m (put p s' w) = load m w.
Proof.
  intros Hs Hl. destruct m as [k|k|q]; simpl; unfold get_sink, get_source; simpl; [done..|].
  destruct (decide (q = p)) as [->|Hne].
  - rewrite lookup_insert_eq, Hs. simpl. by rewrite Hl.
  - by rewrite lookup_insert_ne.
Qed.

Lemma alive_load_eq w w' m : load m w' = load m w -> alive w' m <-> alive w m.
Proof. unfold alive. by intros ->. Qed.

Lemma lists_ok_put w mem p s s' :
  lists_ok w mem -> srcs w !! p = Some s -> link s' = link s -> lists_ok (put p s' w) mem.
Proof.
  intros Hok Hs Hl. apply (lists_ok_same w); [done|done|..].
  - intros m _. by eapply load_put.
  - intros h q Hq. rewrite (alive_load_eq w); [by eapply mem_alive | by eapply load_put].
Qed.

Lemma lists_ok_emit w mem c : lists_ok w mem -> lists_ok (emit c w) mem.
Proof.
  intros Hok. apply (lists_ok_same w); [done|by intros []|by intros []|].
  intros h q Hq. by apply (mem_alive w mem h).
Qed.

Lemma fields_put p s w q :
  fields (put p s w) q = if decide (q = p) then Some (erase_link s) else fields w q.
Proof.
  unfold fields, put. simpl. destruct (decide (q = p)) as [->|].
  - by rewrite lookup_insert_eq.
  - by rewrite lookup_insert_ne.
Qed.

Lemma fields_frame w w' q : frame w w' -> fields w' q = fields w q.
Proof. intros (_ & _ & Hs & _). apply Hs. Qed.

Lemma fields_Some w p s0 :
  fields w p = Some s0 <-> exists s, srcs w !! p = Some s /\ erase_link s = s0.
Proof.
  unfold fields. destruct (srcs w !! p) as [s|]; simpl; split.
  - intros [= <-]. eauto.
  - by intros (s' & [= <-] & <-).
  - done.
  - by intros (? & [=] & _).
Qed.

Lemma fields_of w p s : srcs w !! p = Some s -> fields w p = Some (erase_link s).
Proof. intros Hs. unfold fields. by rewrite Hs. Qed.

(** [source_unref] on a source counted at least twice only decrements. *)
Lemma source_unref_keep w p s :
  srcs w !! p = Some s -> (2 <= refcount s < 2 ^ 32)%Z ->
  source_unref (Some p) w = Done (put p (set_refcount (refcount s - 1) s) w).
Proof.
  intros Hs Hr. unfold source_unref, get_source. rewrite Hs. simpl.
  rewrite bool_decide_true by lia. simpl.
  rewrite (update_source_put _ _ _ _ Hs). simpl.
  assert (wrap_u32 (refcount s - 1) = refcount s - 1)%Z as ->
    by (unfold wrap_u32; apply Z.mod_small; lia).
  rewrite decide_False by lia. done.
Qed.

(** [source_unref] on the last reference of an inactive source destroys
    and frees it. *)
Lemma source_unref_last w p s :
  srcs w !! p = Some s -> refcount s = 1%Z -> is_active s = false ->
  source_unref (Some p) w =
    Done (with_srcs (delete p (srcs w))
            (if decide (close_behavior s = SOURCE_CLOSE_FD_ON_DESTROY /\ fd s <> (-1)%Z)
             then emit (SysClose (fd s)) w else w)).
Proof.
  intros Hs Hr Hact. unfold source_unref, get_source. rewrite Hs. simpl.
  rewrite bool_decide_true by lia. simpl.
  rewrite (update_source_put _ _ _ _ Hs). simpl.
  rewrite Hr. change (wrap_u32 (1 - 1)) with 0%Z. rewrite decide_True by done.
  unfold source_destroy, get_source. simpl. rewrite lookup_insert_eq. simpl.
  rewrite Hact. simpl.
  destruct (decide (close_behavior s = SOURCE_CLOSE_FD_ON_DESTROY)) as [Hcb|Hcb].
  - unfold xclose. destruct (decide (fd s <> (-1)%Z)) as [Hfd|Hfd].
    + rewrite decide_True by done.
      unfold update_source, get_source. simpl. rewrite lookup_insert_eq. simpl.
      unfold free_source, get_source. simpl. rewrite lookup_insert_eq. simpl.
      unfold with_srcs, emit. simpl. by rewrite !delete_insert_eq.
    + rewrite decide_False by tauto.
      unfold update_source, get_source. simpl. rewrite lookup_insert_eq. simpl.
      unfold free_source, get_source. simpl. rewrite lookup_insert_eq. simpl.
      unfold with_srcs. simpl. by rewrite !delete_insert_eq.
  - rewrite decide_False by tauto. simpl.
    unfold free_source, get_source. simpl. rewrite lookup_insert_eq. simpl.
    unfold with_srcs. simpl. by rewrite !delete_insert_eq.
Qed.

Lemma source_remove_inactive w p s :
  srcs w !! p = Some s -> is_active s = false -> source_remove (Some p) w = Done w.
Proof. intros Hs Ha. unfold source_remove, get_source. rewrite Hs. simpl. by rewrite Ha. Qed.

Lemma mem_set_elem h L mem h' q :
  q ∈ mem_set h L mem h' <-> (h' = h /\ q ∈ L) \/ (h' <> h /\ q ∈ mem h').
Proof. unfold mem_set. destruct (decide (h' = h)) as [->|]; tauto. Qed.

(** The invariant read through [fields]. *)
Lemma reactor_inv_fields w mem B :
  reactor_inv w mem B <->
  lists_ok w mem /\ (forall q, (0 <= B q)%Z)
  /\ (forall k p, p ∈ mem (SinkSources k) ->
        exists s, fields w p = Some s /\ is_active s = true /\ src_sink s = Some k
                  /\ (2 + B p <= refcount s < 2 ^ 32)%Z)
  /\ (forall k p, p ∈ mem (SinkRemoved k) ->
        exists s, fields w p = Some s /\ is_active s = false
                  /\ (1 + B p <= refcount s < 2 ^ 32)%Z)
  /\ (forall p s, fields w p = Some s -> (forall h, p ∉ mem h) ->
        is_active s = false /\ (1 <= refcount s < 2 ^ 32)%Z).
Proof.
  split.
  - intros [H1 H2 H3 H4 H5]. split; [done|]. split; [done|]. split; [|split].
    + intros k p Hp. destruct (H3 k p Hp) as (s & Hs & ?). exists (erase_link s).
      split; [by apply fields_of | done].
    + intros k p Hp. destruct (H4 k p Hp) as (s & Hs & ?). exists (erase_link s).
      split; [by apply fields_of | done].
    + intros p s0 (s & Hs & <-)%fields_Some Hno. apply (H5 p s Hs Hno).
  - intros (H1 & H2 & H3 & H4 & H5). split; [done|done|..].
    + intros k p Hp. destruct (H3 k p Hp) as (s0 & (s & Hs & <-)%fields_Some & ?). eauto.
    + intros k p Hp. destruct (H4 k p Hp) as (s0 & (s & Hs & <-)%fields_Some & ?). eauto.
    + intros p s Hs Hno. apply (H5 p (erase_link s)); [by apply fields_of | done].
Qed.

Lemma put_same w p s : srcs w !! p = Some s -> put p s w = w.
Proof. intros Hs. unfold put, with_srcs. rewrite insert_id by done. by destruct w. Qed.

Lemma source_remove_active w mem B k p :
  reactor_inv w mem B -> p ∈ mem (SinkSources k) ->
  exists w' s snk L1 L2,
    srcs w !! p = Some s /\ sinks w !! k = Some snk
    /\ mem (SinkSources k) = L1 ++ p :: L2
    /\ source_remove (Some p) w = Done w'
    /\ reactor_inv w'
         (mem_set (SinkRemoved k) (mem (SinkRemoved k) ++ [p])
            (mem_set (SinkSources k) (L1 ++ L2) mem)) B
    /\ trace w' = trace w ++ (SysEpollCtl (epollfd snk) EPOLL_CTL_DEL (fd s) None
         :: (if decide (close_behavior s = SOURCE_CLOSE_FD_ON_REMOVE /\ fd s <> (-1)%Z)
             then [SysClose (fd s)] else []))
    /\ dispatched w' = dispatched w
    /\ fields w' p = Some (erase_link
         (set_src_sink None (set_refcount (refcount s - 1) (set_is_active false
            (if decide (close_behavior s = SOURCE_CLOSE_FD_ON_REMOVE)
             then set_fd (-1) s else s)))))
    /\ (forall q, q <> p -> fields w' q = fields w q)
    /\ (forall k', erase_heads <$> sinks w' !! k' = erase_heads <$> sinks w !! k').
Proof.
  intros Hinv Hp. pose proof Hinv as [Hok HB Hact Hpend Hdet].
  destruct (Hact k p Hp) as (s & Hs & Hsa & Hsk & Hrc).
  pose proof (HB p) as HBp.
  pose proof (mem_is_head _ _ _ _ Hok Hp) as [snk Hsnk].
  destruct (list_elem_of_split _ _ Hp) as (L1 & L2 & HL).
  (* up to the unref: only fields of [p] and the trace change *)
  set (s_b := if decide (close_behavior s = SOURCE_CLOSE_FD_ON_REMOVE) then set_fd (-1) s else s).
  set (w_a := emit (SysEpollCtl (epollfd snk) EPOLL_CTL_DEL (fd s) None) w).
  set (w_a' := if decide (close_behavior s = SOURCE_CLOSE_FD_ON_REMOVE /\ fd s <> (-1)%Z)
               then emit (SysClose (fd s)) w_a else w_a).
  assert (srcs w_a' !! p = Some s) as Hsa'.
  { subst w_a' w_a. repeat case_decide; done. }
  assert ((if decide (close_behavior s = SOURCE_CLOSE_FD_ON_REMOVE)
           then let '(f, w0) := xclose (fd s) w_a in update_source p (set_fd f) w0
           else Done w_a) = Done (put p s_b w_a')) as Hstage_b.
  { subst s_b w_a'. destruct (decide (close_behavior s = SOURCE_CLOSE_FD_ON_REMOVE)) as [Hcb|Hcb].
    - unfold xclose. destruct (decide (fd s <> (-1)%Z)) as [Hfd|Hfd].
      + rewrite decide_True by done. by apply update_source_put.
      + rewrite decide_False by tauto. by apply update_source_put.
    - rewrite decide_False by tauto. by rewrite put_same. }
  set (w_b := put p s_b w_a') in *.
  assert (link s_b = link s) as Hlb by (subst s_b; by repeat case_decide).
  assert (srcs w_b !! p = Some s_b) as Hsb by (subst w_b; simpl; by rewrite lookup_insert_eq).
  set (s_c := set_is_active false s_b).
  set (w_c := put p s_c w_b).
  assert (srcs w_c !! p = Some s_c) as Hsc by (subst w_c; simpl; by rewrite lookup_insert_eq).
  assert (refcount s_c = refcount s) as Hrcc by (subst s_c s_b; by repeat case_decide).
  set (s_d := set_refcount (refcount s_c - 1) s_c).
  set (w_d := put p s_d w_c).
  assert (srcs w_d !! p = Some s_d) as Hsd by (subst w_d; simpl; by rewrite lookup_insert_eq).
  assert (lists_ok w_d mem) as Hokd.
  { apply (lists_ok_put w_c _ p s_c); [|done|done].
    apply (lists_ok_put w_b _ p s_b); [|done|done].
    apply (lists_ok_put w_a' _ p s); [|done|done].
    subst w_a' w_a. repeat case_decide; repeat apply lists_ok_emit; done. }
  assert (sinks w_d = sinks w) as Hsinks_d.
  { subst w_d w_c w_b w_a' w_a. simpl. by repeat case_decide. }
  destruct (lists_ok_remove w_d mem (SinkSources k) L1 p L2 Hokd HL)
    as (w_e & Hrun_e & Hf_e & Hok_e & Ha_e & HpL).
  set (mem1 := mem_set (SinkSources k) (L1 ++ L2) mem) in *.
  assert (forall h, p ∉ mem1 h) as Hno1.
  { intros h [[-> Hin]|[Hne Hin]]%mem_set_elem; [done|].
    apply Hne. symmetry. by eapply (ok_disjoint _ _ Hok). }
  assert (alive w_e (SourceLink p)) as Hae.
  { apply Ha_e, alive_SourceLink. by rewrite Hsd. }
  assert (is_head w_e (SinkRemoved k)) as Hhe.
  { apply (frame_is_head _ _ _ Hf_e). unfold is_head. rewrite Hsinks_d, Hsnk. by eexists. }
  destruct (lists_ok_append w_e mem1 (SinkRemoved k) p Hok_e Hhe Hae Hno1)
    as (w_f & Hrun_f & Hf_f & Hok_f & Ha_f).
  assert (mem1 (SinkRemoved k) = mem (SinkRemoved k)) as Hm1r
    by (subst mem1; unfold mem_set; by rewrite decide_False).
  rewrite Hm1r in Hok_f.
  set (mem2 := mem_set (SinkRemoved k) (mem (SinkRemoved k) ++ [p]) mem1) in *.
  assert (fields w_d p = Some (erase_link s_d)) as Hfd by (by apply fields_of).
  assert (fields w_e p = Some (erase_link s_d)) as Hfe by (by rewrite (fields_frame _ _ _ Hf_e)).
  assert (fields w_f p = Some (erase_link s_d)) as Hff by (by rewrite (fields_frame _ _ _ Hf_f)).
  apply fields_Some in Hfe as (s_e & Hse & Hse').
  apply fields_Some in Hff as (s_f & Hsf & Hsf').
  assert (src_sink s_e = Some k) as Hsk_e.
  { apply (f_equal src_sink) in Hse'. simpl in Hse'. rewrite Hse'.
    subst s_c s_b. by repeat case_decide. }
  set (w_g := put p (set_src_sink None s_f) w_f).
  exists w_g, s, snk, L1, L2. do 3 (split; [done|]).
  split.
  { unfold source_remove, get_source. rewrite Hs. cbn [mbind outcome_bind].
    rewrite Hsa, Hsk. cbn [mbind outcome_bind negb].
    unfold get_sink. rewrite Hsnk. cbn [mbind outcome_bind]. fold w_a.
    rewrite Hstage_b. cbn [mbind outcome_bind].
    rewrite (update_source_put _ _ _ _ Hsb). cbn [mbind outcome_bind]. fold s_c w_c.
    rewrite (source_unref_keep _ _ _ Hsc) by lia. cbn [mbind outcome_bind]. fold s_d w_d.
    rewrite Hrun_e. cbn [mbind outcome_bind]. rewrite Hse. cbn [mbind outcome_bind].
    rewrite Hsk_e. cbn [mbind outcome_bind].
    rewrite Hrun_f. cbn [mbind outcome_bind]. by apply update_source_put. }
  assert (forall q, q <> p -> fields w_g q = fields w q) as Hother.
  { intros q Hq. subst w_g. rewrite fields_put, decide_False by done.
    rewrite (fields_frame _ _ _ Hf_f), (fields_frame _ _ _ Hf_e).
    subst w_d w_c w_b. rewrite !fields_put, !decide_False by done.
    subst w_a' w_a. by repeat case_decide. }
  assert (fields w_g p = Some (erase_link (set_src_sink None s_d))) as Hfg.
  { subst w_g. rewrite fields_put, decide_True by done. f_equal.
    change (erase_link (set_src_sink None s_f)) with (set_src_sink None (erase_link s_f)).
    by rewrite Hsf'. }
  split; [|split; [|split; [|split; [|split]]]].
  - apply reactor_inv_fields. split; [|split; [done|split; [|split]]].
    + subst w_g. by apply (lists_ok_put w_f _ p s_f).
    + intros k' q Hq.
      assert (q ∈ mem (SinkSources k') /\ q <> p) as [Hq' Hqp].
      { subst mem2 mem1. apply mem_set_elem in Hq as [[[=] _]|[_ Hq]].
        apply mem_set_elem in Hq as [[[= ->] Hq]|[Hne Hq]].
        - split; [rewrite HL, elem_of_app, elem_of_cons; rewrite elem_of_app in Hq; tauto|].
          intros ->. done.
        - split; [done|]. intros ->. apply Hne. by eapply (ok_disjoint _ _ Hok). }
      rewrite (Hother q Hqp).
      destruct (Hact k' q Hq') as (sq & Hsq & ?). exists (erase_link sq).
      split; [by apply fields_of | done].
    + intros k' q Hq.
      subst mem2. apply mem_set_elem in Hq as [[[= ->] Hq]|[Hne Hq]].
      * apply elem_of_app in Hq as [Hq| ->%list_elem_of_singleton].
        -- assert (q <> p) as Hqp.
           { intros ->. assert (SinkRemoved k = SinkSources k) by (by eapply (ok_disjoint _ _ Hok)). done. }
           rewrite (Hother q Hqp).
           destruct (Hpend k q Hq) as (sq & Hsq & ?). exists (erase_link sq).
           split; [by apply fields_of | done].
        -- rewrite Hfg. eexists. split; [done|]. simpl. split; [done|].
           subst s_c s_b. repeat case_decide; simpl; lia.
      * subst mem1. apply mem_set_elem in Hq as [[[=] _]|[_ Hq]].
        assert (q <> p) as Hqp.
        { intros ->. assert (SinkRemoved k' = SinkSources k) by (by eapply (ok_disjoint _ _ Hok)). done. }
        rewrite (Hother q Hqp).
        destruct (Hpend k' q Hq) as (sq & Hsq & ?). exists (erase_link sq).
        split; [by apply fields_of | done].
    + intros q s0 Hq Hno.
      assert (q <> p) as Hqp.
      { intros ->. apply (Hno (SinkRemoved k)). subst mem2. apply mem_set_elem. left.
        split; [done|]. rewrite elem_of_app, list_elem_of_singleton. tauto. }
      rewrite (Hother q Hqp) in Hq. apply fields_Some in Hq as (sq & Hsq & <-).
      apply (Hdet q sq Hsq). intros h Hin. apply (Hno h).
      subst mem2 mem1. rewrite !mem_set_elem.
      destruct (decide (h = SinkRemoved k)) as [->|Hne1].
      { left. split; [done|]. rewrite elem_of_app. tauto. }
      right. split; [done|].
      destruct (decide (h = SinkSources k)) as [->|Hne2]; [|tauto].
      left. split; [done|]. rewrite HL, elem_of_app, elem_of_cons in Hin.
      rewrite elem_of_app. destruct Hin as [?|[?|?]]; [tauto|done|tauto].
  - destruct Hf_e as (Hte & _). destruct Hf_f as (Htf & _).
    subst w_g. simpl. rewrite Htf, Hte. subst w_d w_c w_b w_a' w_a. simpl.
    case_decide; simpl; [|done]. by rewrite <- app_assoc.
  - destruct Hf_e as (_ & Hde & _). destruct Hf_f as (_ & Hdf & _).
    subst w_g. simpl. rewrite Hdf, Hde. subst w_d w_c w_b w_a' w_a. simpl.
    by repeat case_decide.
  - rewrite Hfg. do 2 f_equal. subst s_d. rewrite Hrcc. done.
  - done.
  - intros k'. destruct Hf_e as (_ & _ & _ & Hke). destruct Hf_f as (_ & _ & _ & Hkf).
    subst w_g. simpl. by rewrite Hkf, Hke, Hsinks_d.
Qed.





Lemma program_fields w w' q : fields w' q = fields w q -> program w' q = program w q.
Proof.
  unfold fields, program. destruct (srcs w' !! q) as [s'|], (srcs w !! q) as [s|]; simpl; try done.
  intros Heq. assert (dispatch (erase_link s') = dispatch (erase_link s)) as Hd by congruence.
  exact Hd.
Qed.







Lemma mem_set_same h L mem h' : h' <> h -> mem_set h L mem h' = mem h'.
Proof. intros. unfold mem_set. by rewrite decide_False. Qed.

Lemma mem_set_at h L mem : mem_set h L mem h = L.
Proof. unfold mem_set. by rewrite decide_True. Qed.





Lemma dll_next_head w h L : dll w h L -> next_of w h = Some (hd h L).
Proof. intros [_ Hp]. destruct L; simpl in *; by destruct Hp as [[? _] _]. Qed.

Lemma dll_next_first w h x L : dll w h (x :: L) -> next_of w x = Some (hd h L).
Proof. intros [_ Hp]. destruct L; simpl in *; by destruct Hp as [_ [[? _] _]]. Qed.

Lemma load_next w n m : next_of w n = Some m -> exists v, load n w = Done v /\ next v = Some m.
Proof.
  intros Hn. destruct (load_alive w n (next_of_alive _ _ _ Hn)) as (v & Hv & Hnx & _).
  exists v. split; [done | congruence].
Qed.



Lemma released_erase o : erase_link <$> released o = released (erase_link <$> o).
Proof. destruct o as [s|]; simpl; [|done]. by case_decide. Qed.

Lemma lists_ok_ext w mem mem' :
  (forall h, mem' h = mem h) -> lists_ok w mem -> lists_ok w mem'.
Proof.
  intros Hext [H1 H2 H3 H4]. split.
  - intros h Hh. rewrite Hext. by apply H1.
  - intros h Hh. rewrite Hext. by apply H2.
  - intros h h' p. rewrite !Hext. apply H3.
  - intros p Hp Hno. apply H4; [done|]. intros h. rewrite <- Hext. apply Hno.
Qed.

Lemma reactor_inv_ext w mem mem' B :
  (forall h, mem' h = mem h) -> reactor_inv w mem B -> reactor_inv w mem' B.
Proof.
  intros Hext [H1 H2 H3 H4 H5]. split.
  - by apply (lists_ok_ext w mem).
  - done.
  - intros k p. rewrite Hext. apply H3.
  - intros k p. rewrite Hext. apply H4.
  - intros p s Hs Hno. apply (H5 p s Hs). intros h. rewrite <- Hext. apply Hno.
Qed.



(** Inversion: what a completed operation leaves unchanged. *)

Ltac inv_bind H :=
  repeat match type of H with
  | _ ≫= _ = Done _ => apply bind_Done in H as (? & ? & H)
  end.

Lemma set_next_frame n x w w' : set_next n x w = Done w' -> frame w w'.
Proof. unfold set_next. intros H. inv_bind H. by eapply store_frame. Qed.

Lemma set_prev_frame n x w w' : set_prev n x w = Done w' -> frame w w'.
Proof. unfold set_prev. intros H. inv_bind H. by eapply store_frame. Qed.

Lemma list_init_frame l w w' : list_init l w = Done w' -> frame w w'.
Proof.
  unfold list_init. intros H. inv_bind H.
  eauto using frame_trans, set_next_frame, set_prev_frame.
Qed.

Lemma list_remove_frame e w w' : list_remove e w = Done w' -> frame w w'.
Proof.
  unfold list_remove. intros H. inv_bind H.
  repeat match goal with
  | H : set_next _ _ _ = Done _ |- _ => apply set_next_frame in H
  | H : set_prev _ _ _ = Done _ |- _ => apply set_prev_frame in H
  end.
  eauto using frame_trans.
Qed.

Lemma list_append_frame l e w w' : list_append l e w = Done w' -> frame w w'.
Proof.
  unfold list_append. intros H. inv_bind H.
  repeat match goal with
  | H : set_next _ _ _ = Done _ |- _ => apply set_next_frame in H
  | H : set_prev _ _ _ = Done _ |- _ => apply set_prev_frame in H
  end.
  eauto using frame_trans.
Qed.

Lemma quiet_refl w : quiet w w.
Proof. split; [done|]. exists []. by rewrite app_nil_r. Qed.

Lemma quiet_trans w1 w2 w3 : quiet w1 w2 -> quiet w2 w3 -> quiet w1 w3.
Proof.
  intros [Hd1 [r1 Ht1]] [Hd2 [r2 Ht2]]. split; [congruence|].
  exists (r1 ++ r2). by rewrite Ht2, Ht1, app_assoc.
Qed.

Lemma frame_quiet w w' : frame w w' -> quiet w w'.
Proof. intros (Ht & Hd & _). split; [done|]. exists []. by rewrite app_nil_r. Qed.

Lemma emit_quiet c w : quiet w (emit c w).
Proof. split; [done|]. by exists [c]. Qed.

Lemma update_source_quiet p f w w' : update_source p f w = Done w' -> quiet w w'.
Proof.
  unfold update_source. intros H. inv_bind H. injection H as <-.
  split; [done|]. exists []. by rewrite app_nil_r.
Qed.

Lemma xclose_quiet f w : quiet w (xclose f w).2.
Proof. unfold xclose. simpl. case_decide; [apply emit_quiet | apply quiet_refl]. Qed.

Lemma source_unref_quiet src w w' : source_unref src w = Done w' -> quiet w w'.
Proof.
  destruct src as [p|]; unfold source_unref; [|intros [= <-]; apply quiet_refl].
  intros H. inv_bind H.
  match goal with H : update_source _ _ _ = Done _ |- _ =>
    apply update_source_quiet in H as Hq1 end.
  case_decide; [|by injection H as <-].
  inv_bind H. unfold free_source in H. inv_bind H. injection H as <-.
  match goal with H : source_destroy _ _ = Done _ |- _ => rename H into Hdes end.
  unfold source_destroy in Hdes. inv_bind Hdes.
  apply (quiet_trans _ _ _ Hq1).
  match goal with |- quiet ?a (with_srcs _ ?b) =>
    assert (quiet a b) as [Hd Ht]; [|by split] end.
  case_decide; [|injection Hdes as <-; apply quiet_refl].
  match type of Hdes with (let '(_, _) := xclose ?f ?v in _) = _ =>
    pose proof (xclose_quiet f v) as Hx; destruct (xclose f v) as [f' wx] end.
  apply update_source_quiet in Hdes. eauto using quiet_trans.
Qed.

Lemma source_remove_quiet src w w' : source_remove src w = Done w' -> quiet w w'.
Proof.
  destruct src as [p|]; unfold source_remove; [|intros [= <-]; apply quiet_refl].
  intros H. inv_bind H.
  destruct (negb _); [injection H as <-; apply quiet_refl|].
  inv_bind H.
  repeat match goal with
  | H : update_source _ _ _ = Done _ |- _ => apply update_source_quiet in H
  | H : source_unref _ _ = Done _ |- _ => apply source_unref_quiet in H
  | H : list_remove _ _ = Done _ |- _ => apply list_remove_frame, frame_quiet in H
  | H : list_append _ _ _ = Done _ |- _ => apply list_append_frame, frame_quiet in H
  end.
  match goal with
  | H : (if decide _ then _ else _) = Done ?y |- _ =>
      assert (quiet w y) as Hb; [|clear H]
  end.
  { case_decide as Hcb.
    - match goal with H : (let '(_, _) := xclose ?f ?v in _) = Done _ |- _ =>
        pose proof (xclose_quiet f v) as Hx; destruct (xclose f v) as [f' wx];
        apply update_source_quiet in H end.
      eapply quiet_trans; [apply emit_quiet|]. eauto using quiet_trans.
    - match goal with H : Done _ = Done _ |- _ => injection H as <- end. apply emit_quiet. }
  eauto 10 using quiet_trans.
Qed.

Lemma exec_calls_quiet cs : forall w w', exec_calls cs w = Done w' -> quiet w w'.
Proof.
  induction cs as [|c cs IH]; intros w w' H; simpl in H; [injection H as <-; apply quiet_refl|].
  inv_bind H. apply IH in H. eapply quiet_trans; [|done].
  destruct c; unfold exec_call in *;
    [by eapply source_remove_quiet | by eapply source_unref_quiet].
Qed.

(** The callbacks that ran, in order, are events of the list: at most one
    per event, none for an event that was skipped. *)
Lemma dispatch_events_log evs : forall w w',
  dispatch_events evs w = Done w' ->
  exists new, dispatched w' = dispatched w ++ new /\ new `sublist_of` evs
    /\ exists rest, trace w' = trace w ++ rest.
Proof.
  induction evs as [|e evs IH]; intros w w' H; simpl in H.
  - injection H as <-. exists []. rewrite app_nil_r. split; [done|]. split; [done|].
    exists []. by rewrite app_nil_r.
  - inv_bind H. apply IH in H as (new & Hd & Hsub & rest & Ht).
    match goal with H : (if decide _ then _ else _) = Done _ |- _ => rename H into Hcb end.
    case_decide.
    + injection Hcb as <-. exists new. split; [done|]. split; [by apply sublist_cons|]. eauto.
    + apply exec_calls_quiet in Hcb as [Hd1 [r1 Ht1]]. simpl in Hd1, Ht1.
      exists (e :: new). split; [|split; [by apply sublist_skip|]].
      * rewrite Hd, Hd1, <- app_assoc. done.
      * exists (r1 ++ rest). by rewrite Ht, Ht1, app_assoc.
Qed.

Lemma reap_quiet n w w' : reap n w = Done w' -> quiet w w'.
Proof.
  unfold reap. intros H. inv_bind H.
  repeat match goal with
  | H : list_remove _ _ = Done _ |- _ => apply list_remove_frame, frame_quiet in H
  | H : list_init _ _ = Done _ |- _ => apply list_init_frame, frame_quiet in H
  end.
  apply source_unref_quiet in H. eauto using quiet_trans.
Qed.

Lemma list_for_each_safe_from_quiet fuel : forall head pos tmp w w',
  list_for_each_safe_from fuel head pos tmp reap w = Done w' -> quiet w w'.
Proof.
  induction fuel as [|fuel IH]; intros head pos tmp w w' H; simpl in H; [done|].
  case_decide; [injection H as <-; apply quiet_refl|].
  inv_bind H. apply IH in H.
  match goal with H : reap _ _ = Done _ |- _ => apply reap_quiet in H end.
  eauto using quiet_trans.
Qed.

Lemma sink_dispatch_log fuel k ready w rc w' :
  sink_dispatch fuel k (EpollReady ready) w = Done (rc, w') ->
  exists new snk rest,
    dispatched w' = dispatched w ++ new
    /\ new `sublist_of` epoll_wait ready MAX_EVENTS
    /\ sinks w !! k = Some snk
    /\ trace w' = trace w ++ (SysEpollWait (epollfd snk) MAX_EVENTS 0 :: rest).
Proof.
  unfold sink_dispatch. intros H. inv_bind H. injection H as <- <-.
  match goal with H : dispatch_events _ _ = Done _ |- _ =>
    apply dispatch_events_log in H as (new & Hd & Hsub & r1 & Ht1) end.
  match goal with H : list_for_each_safe _ _ _ _ = Done _ |- _ => rename H into Hl end.
  unfold list_for_each_safe in Hl. inv_bind Hl.
  apply list_for_each_safe_from_quiet in Hl as [Hd2 [r2 Ht2]].
  match goal with H : get_sink _ _ = Done _ |- _ => apply get_sink_Done in H end.
  eexists new, _, (r1 ++ r2). split; [by rewrite Hd2, Hd|]. split; [done|]. split; [done|].
  rewrite Ht2, Ht1. simpl. by rewrite <- !app_assoc.
Qed.

Lemma source_ref_put w p s :
  srcs w !! p = Some s -> (1 <= refcount s < 2 ^ 32 - 1)%Z ->
  source_ref p w = Done (put p (set_refcount (refcount s + 1) s) w).
Proof.
  intros Hs Hr. unfold source_ref, get_source. rewrite Hs. cbn [mbind outcome_bind].
  rewrite bool_decide_true by lia. cbn [assert mbind outcome_bind].
  rewrite (update_source_put _ _ _ _ Hs).
  replace (wrap_u32 (refcount s + 1)) with (refcount s + 1)%Z; [done|].
  unfold wrap_u32. symmetry. apply Z.mod_small. lia.
Qed.

Lemma put_put p s1 s2 w : put p s2 (put p s1 w) = put p s2 w.
Proof. unfold put, with_srcs. simpl. by rewrite insert_insert_eq. Qed.

Lemma set_refcount_same s : set_refcount (refcount s) s = s.
Proof. by destruct s. Qed.

Lemma sink_add_source_fail w k p reply s snk :
  srcs w !! p = Some s -> sinks w !! k = Some snk ->
  (1 <= refcount s < 2 ^ 32 - 1)%Z -> (xerrno reply < 0)%Z ->
  sink_add_source k p reply w
  = Done (xerrno reply, emit (SysEpollCtl (epollfd snk) EPOLL_CTL_ADD (fd s) (Some p)) w).
Proof.
  intros Hs Hk Hr Hrc. unfold sink_add_source.
  rewrite (source_ref_put _ _ _ Hs Hr). cbn [mbind outcome_bind].
  unfold get_sink, get_source. cbn [put with_srcs sinks srcs]. rewrite Hk, lookup_insert_eq.
  cbn [mbind outcome_bind]. rewrite decide_True by done.
  set (s1 := set_refcount (refcount s + 1) s).
  rewrite (source_unref_keep _ p s1); [|cbn; by rewrite lookup_insert_eq | simpl; lia].
  cbn [mbind outcome_bind]. do 2 f_equal.
  unfold put, emit, with_srcs. simpl. rewrite !insert_insert_eq.
  rewrite insert_id; [done|]. rewrite Hs. f_equal. subst s1. destruct s; unfold set_refcount; cbn. f_equal. lia.
Qed.

Lemma sink_add_source_ok w mem B k p reply s :
  reactor_inv w mem B -> is_head w (SinkSources k) ->
  srcs w !! p = Some s -> (forall h, p ∉ mem h) ->
  (refcount s + 2 < 2 ^ 32)%Z -> (B p <= refcount s)%Z -> (0 <= xerrno reply)%Z ->
  exists w' snk,
    sinks w !! k = Some snk
    /\ sink_add_source k p reply w = Done (0%Z, w')
    /\ reactor_inv w' (mem_set (SinkSources k) (mem (SinkSources k) ++ [p]) mem) B
    /\ fields w' p = Some (erase_link (set_refcount (refcount s + 2)
                             (set_src_sink (Some k) (set_is_active true s))))
    /\ (forall q, q <> p -> fields w' q = fields w q)
    /\ (forall k', erase_heads <$> sinks w' !! k' = erase_heads <$> sinks w !! k')
    /\ trace w' = trace w ++ [SysEpollCtl (epollfd snk) EPOLL_CTL_ADD (fd s) (Some p)]
    /\ dispatched w' = dispatched w.
Proof.
  intros Hinv Hh Hs Hno Hr HBp Hrc. pose proof Hinv as [Hok HB Hact Hpend Hdet].
  destruct (Hdet p s Hs Hno) as [Hsa Hr1].
  pose proof Hh as [snk Hk].
  set (s1 := set_refcount (refcount s + 1) s).
  set (w1 := put p s1 w).
  set (w2 := emit (SysEpollCtl (epollfd snk) EPOLL_CTL_ADD (fd s) (Some p)) w1).
  set (s3 := set_is_active true s1). set (w3 := put p s3 w2).
  set (s4 := set_src_sink (Some k) s3). set (w4 := put p s4 w3).
  set (s5 := set_refcount (refcount s + 2) s4). set (w5 := put p s5 w4).
  assert (srcs w1 !! p = Some s1) as Hs1 by (subst w1; simpl; by rewrite lookup_insert_eq).
  assert (srcs w2 !! p = Some s1) as Hs2 by (subst w2 w1; simpl; by rewrite lookup_insert_eq).
  assert (srcs w3 !! p = Some s3) as Hs3 by (subst w3; simpl; by rewrite lookup_insert_eq).
  assert (srcs w4 !! p = Some s4) as Hs4 by (subst w4; simpl; by rewrite lookup_insert_eq).
  assert (srcs w5 !! p = Some s5) as Hs5 by (subst w5; simpl; by rewrite lookup_insert_eq).
  assert (lists_ok w5 mem) as Hok5.
  { apply (lists_ok_put w4 _ p s4); [|done|done].
    apply (lists_ok_put w3 _ p s3); [|done|done].
    apply (lists_ok_put w2 _ p s1); [|done|done].
    apply lists_ok_emit. by apply (lists_ok_put w _ p s). }
  assert (is_head w5 (SinkSources k)) as Hh5 by done.
  assert (alive w5 (SourceLink p)) as Ha5 by (apply alive_SourceLink; by rewrite Hs5).
  destruct (lists_ok_append w5 mem (SinkSources k) p Hok5 Hh5 Ha5 Hno)
    as (w6 & Hrun6 & Hf6 & Hok6 & Ha6).
  exists w6, snk. split; [done|]. split.
  { unfold sink_add_source. rewrite (source_ref_put _ _ _ Hs) by lia.
    cbn [mbind outcome_bind]. fold s1 w1.
    unfold get_sink, get_source. replace (sinks w1) with (sinks w) by done.
    rewrite Hk, Hs1. cbn [mbind outcome_bind].
    replace (fd s1) with (fd s) by done. fold w2.
    rewrite decide_False by lia.
    rewrite (update_source_put _ _ _ _ Hs2). cbn [mbind outcome_bind]. fold s3 w3.
    rewrite (update_source_put _ _ _ _ Hs3). cbn [mbind outcome_bind]. fold s4 w4.
    rewrite (source_ref_put _ _ _ Hs4) by (simpl; lia). cbn [mbind outcome_bind].
    replace (refcount s4 + 1)%Z with (refcount s + 2)%Z by (simpl; lia). fold s5 w5.
    by rewrite Hrun6. }
  assert (forall q, q <> p -> fields w6 q = fields w q) as Hother.
  { intros q Hq. rewrite (fields_frame _ _ _ Hf6). subst w5 w4 w3.
    rewrite !fields_put, !decide_False by done.
    change (fields w2 q) with (fields w1 q). subst w1.
    by rewrite fields_put, decide_False. }
  assert (fields w6 p = Some (erase_link s5)) as Hfp.
  { rewrite (fields_frame _ _ _ Hf6). by apply fields_of. }
  split; [|split; [done|split; [done|split; [|split]]]].
  - apply reactor_inv_fields. apply reactor_inv_fields in Hinv as (_ & _ & Hact' & Hpend' & Hdet').
    split; [done|]. split; [done|]. split; [|split].
    + intros k' q Hq. apply mem_set_elem in Hq as [[[= ->] Hq]|[Hne Hq]].
      * apply elem_of_app in Hq as [Hq| ->%list_elem_of_singleton].
        -- rewrite Hother by (intros ->; by apply Hno in Hq). by apply (Hact' k).
        -- rewrite Hfp. eexists. split; [done|]. simpl. do 2 (split; [done|]). lia.
      * rewrite Hother by (intros ->; by apply Hno in Hq). by apply (Hact' k').
    + intros k' q Hq. rewrite mem_set_same in Hq by done.
      rewrite Hother by (intros ->; by apply Hno in Hq). by apply (Hpend' k').
    + intros q s0 Hq Hnoq.
      assert (q <> p) as Hqp.
      { intros ->. apply (Hnoq (SinkSources k)). rewrite mem_set_at, elem_of_app, list_elem_of_singleton. tauto. }
      rewrite Hother in Hq by done. apply (Hdet' q s0 Hq).
      intros h Hin. apply (Hnoq h). apply mem_set_elem.
      destruct (decide (h = SinkSources k)) as [->|]; [|tauto].
      left. split; [done|]. rewrite elem_of_app. tauto.
  - intros k'. destruct Hf6 as (_ & _ & _ & Hk6). by rewrite Hk6.
  - destruct Hf6 as (Ht6 & _). by rewrite Ht6.
  - destruct Hf6 as (_ & Hd6 & _). by rewrite Hd6.
Qed.

(** The invariant holds when nothing exists, and creating sinks and
    sources keeps it. *)

Lemma reactor_inv_empty B : (forall q, 0 <= B q)%Z -> reactor_inv w_empty (fun _ => []) B.
Proof.
  intros HB. split.
  - split.
    + intros h Hh. destruct h; simpl in Hh; [| |done]; rewrite lookup_empty in Hh; by destruct Hh.
    + done.
    + intros h h' p Hp. by apply elem_of_nil in Hp.
    + intros p [v Hv]. simpl in Hv. unfold get_source in Hv. simpl in Hv.
      by rewrite lookup_empty in Hv.
  - done.
  - intros k p Hp. by apply elem_of_nil in Hp.
  - intros k p Hp. by apply elem_of_nil in Hp.
  - intros p s Hs. simpl in Hs. by rewrite lookup_empty in Hs.
Qed.

Lemma source_new_inv w mem B f prog data :
  reactor_inv w mem B -> reactor_inv (source_new f prog data w).2 mem B.
Proof.
  intros Hinv. pose proof Hinv as [Hok HB Hact Hpend Hdet].
  unfold source_new. simpl. set (p := fresh (dom (srcs w))).
  assert (srcs w !! p = None) as Hfresh.
  { apply not_elem_of_dom. subst p. apply is_fresh. }
  assert (forall h, p ∉ mem h) as Hno.
  { intros h Hin. apply (mem_alive _ _ _ _ Hok), alive_SourceLink in Hin.
    rewrite Hfresh in Hin. by destruct Hin. }
  set (w' := with_srcs _ w).
  assert (forall q, fields w' q = if decide (q = p)
            then Some (erase_link {| refcount := 1; src_sink := None;
                   link := self_loop (SourceLink p); dispatch := prog; user_data := data;
                   close_behavior := SOURCE_CLOSE_FD_ON_REMOVE; fd := f; is_active := false |})
            else fields w q) as Hf.
  { intros q. subst w'. unfold fields. simpl. case_decide as Hq.
    - subst q. by rewrite lookup_insert_eq.
    - by rewrite lookup_insert_ne. }
  assert (forall m, m <> SourceLink p -> load m w' = load m w) as Hload.
  { intros m Hm. destruct m as [k|k|q]; simpl; unfold get_sink, get_source; simpl; [done..|].
    rewrite lookup_insert_ne by congruence. done. }
  apply reactor_inv_fields. apply reactor_inv_fields in Hinv as (_ & _ & Hact' & Hpend' & Hdet').
  split; [|split; [done|split; [|split]]].
  - split.
    + intros h Hh. apply (dll_same w); [by apply (ok_dll _ _ Hok)|].
      intros x Hx. assert (x <> SourceLink p) as Hxp.
      { intros ->. apply (link_in_cycle w) in Hx; [|done]. by apply (Hno h). }
      unfold next_of, prev_of. by rewrite Hload.
    + intros h Hh. by apply (ok_nohead _ _ Hok).
    + apply (ok_disjoint _ _ Hok).
    + intros q Hq Hnoq. unfold detached_link. destruct (decide (q = p)) as [->|Hqp].
      * right. simpl. unfold get_source. simpl. by rewrite lookup_insert_eq.
      * rewrite Hload by congruence. apply (ok_detached _ _ Hok); [|done].
        unfold alive in *. by rewrite <- Hload by congruence.
  - intros k q Hq. rewrite Hf, decide_False by (intros ->; by apply Hno in Hq). by apply (Hact' k).
  - intros k q Hq. rewrite Hf, decide_False by (intros ->; by apply Hno in Hq). by apply (Hpend' k).
  - intros q s0 Hq Hnoq. rewrite Hf in Hq. case_decide.
    + injection Hq as <-. simpl. split; [done | lia].
    + by apply (Hdet' q).
Qed.

Lemma sink_new_inv w mem B reply :
  reactor_inv w mem B -> reactor_inv (sink_new reply w).2 mem B.
Proof.
  intros Hinv. pose proof Hinv as [Hok HB Hact Hpend Hdet].
  unfold sink_new. case_decide; [done|]. simpl. set (k := fresh (dom (sinks w))).
  assert (sinks w !! k = None) as Hfresh.
  { apply not_elem_of_dom. subst k. apply is_fresh. }
  set (w' := with_sinks _ w).
  assert (forall m, m <> SinkSources k -> m <> SinkRemoved k -> load m w' = load m w) as Hload.
  { intros m Hm1 Hm2. destruct m as [k'|k'|q]; simpl; unfold get_sink, get_source; simpl; [| |done].
    - rewrite lookup_insert_ne by congruence. done.
    - rewrite lookup_insert_ne by congruence. done. }
  assert (forall h, is_head w h -> h <> SinkSources k /\ h <> SinkRemoved k) as Hold.
  { intros h Hh. split; intros ->; simpl in Hh; rewrite Hfresh in Hh; by destruct Hh. }
  assert (forall h, is_head w' h <-> is_head w h \/ h = SinkSources k \/ h = SinkRemoved k) as Hheads.
  { intros h. destruct h as [k'|k'|q]; simpl.
    - rewrite lookup_insert_is_Some. split; [intros [->|[_ ?]]; eauto | intros [?|[[= ->]|[=]]]; eauto].
      destruct (decide (k = k')); eauto.
    - rewrite lookup_insert_is_Some. split; [intros [->|[_ ?]]; eauto | intros [?|[[=]|[= ->]]]; eauto].
      destruct (decide (k = k')); eauto.
    - split; [done|]. by intros [?|[?|?]]. }
  assert (forall h, ~ is_head w h -> mem h = []) as Hnil by apply (ok_nohead _ _ Hok).
  split; [|done|done|done|done].
  split.
  - intros h [Hh|Hnew]%Hheads.
    + destruct (Hold h Hh) as [Hh1 Hh2].
      apply (dll_same w); [by apply (ok_dll _ _ Hok)|].
      intros x Hx. assert (x <> SinkSources k /\ x <> SinkRemoved k) as [Hx1 Hx2].
      { apply elem_of_cycle in Hx as [->|(q & -> & _)]; [done|]. done. }
      unfold next_of, prev_of. by rewrite Hload.
    + assert (mem h = []) as ->.
      { apply Hnil. intros Hh. destruct (Hold h Hh). destruct Hnew; done. }
      split; [apply NoDup_singleton|]. simpl. unfold links, next_of, prev_of.
      destruct Hnew as [-> | ->]; simpl; unfold get_sink; simpl; by rewrite lookup_insert_eq.
  - intros h Hh. apply Hnil. intros Hh'. apply Hh, Hheads. tauto.
  - apply (ok_disjoint _ _ Hok).
  - intros q Hq Hnoq. unfold detached_link. rewrite Hload by done.
    apply (ok_detached _ _ Hok); [|done]. unfold alive in *. by rewrite <- Hload.
Qed.





Lemma source_unref_fields w p s w' :
  srcs w !! p = Some s -> source_unref (Some p) w = Done w' ->
  fields w' p = None
  \/ fields w' p = Some (erase_link (set_refcount (wrap_u32 (refcount s - 1)) s)).
Proof.
  intros Hs. unfold source_unref, get_source. rewrite Hs. cbn [mbind outcome_bind].
  destruct (bool_decide (refcount s >= 1)%Z); [|done]. cbn [assert mbind outcome_bind].
  rewrite (update_source_put _ _ _ _ Hs). cbn [mbind outcome_bind].
  case_decide as Hz.
  - intros Hrun. inv_bind Hrun. unfold free_source in Hrun. inv_bind Hrun. injection Hrun as <-.
    left. unfold fields. simpl. by rewrite lookup_delete_eq.
  - intros [= <-]. right. by rewrite fields_put, decide_True.
Qed.

(** A completed [source_remove] leaves the source inactive, so that a
    second call returns at once. *)
Lemma source_remove_twice p w w' :
  source_remove (Some p) w = Done w' -> source_remove (Some p) w' = Done w'.
Proof.
  intros Hrun. pose proof Hrun as H. unfold source_remove in H.
  inv_bind H. match goal with H : get_source _ _ = Done ?x |- _ =>
    apply get_source_Done in H; rename H into Hs; rename x into s end.
  destruct (is_active s) eqn:Ha; cbn [negb] in H.
  2:{ injection H as <-. exact Hrun. }
  inv_bind H.
  (* the last write leaves a source that is alive *)
  match goal with H : update_source _ (set_src_sink None) ?v = Done _ |- _ =>
    rename H into Hlast; rename v into w_f end.
  unfold update_source in Hlast. inv_bind Hlast.
  match goal with H : get_source p w_f = Done ?x |- _ =>
    apply get_source_Done in H; rename H into Hsf; rename x into s_f end.
  injection Hlast as <-.
  (* its fields are those left by the unref *)
  match goal with H : list_append _ _ ?v = Done w_f |- _ =>
    apply list_append_frame in H; rename H into Hf_f; rename v into w_e end.
  match goal with H : list_remove _ ?v = Done w_e |- _ =>
    apply list_remove_frame in H; rename H into Hf_e; rename v into w_d end.
  match goal with H : source_unref _ ?v = Done w_d |- _ =>
    rename H into Hunref; rename v into w_c end.
  match goal with H : update_source _ (set_is_active false) ?v = Done w_c |- _ =>
    rename H into Hc; rename v into w_b end.
  unfold update_source in Hc. inv_bind Hc.
  match goal with H : get_source p w_b = Done ?x |- _ =>
    apply get_source_Done in H; rename H into Hsb; rename x into s_b end.
  injection Hc as <-.
  assert (fields w_f p = fields w_d p) as Hfields.
  { by rewrite (fields_frame _ _ _ Hf_f), (fields_frame _ _ _ Hf_e). }
  rewrite (fields_of _ _ _ Hsf) in Hfields.
  assert (srcs (with_srcs (<[p:=set_is_active false s_b]> (srcs w_b)) w_b) !! p
          = Some (set_is_active false s_b)) as Hsc by (simpl; by rewrite lookup_insert_eq).
  destruct (source_unref_fields _ p _ _ Hsc Hunref) as [Hnone|Hsome]; [congruence|].
  rewrite Hsome in Hfields.
  assert (is_active s_f = false) as E.
  { change (is_active (erase_link s_f) = false).
    match type of Hfields with Some ?a = Some ?b =>
      assert (is_active a = is_active b) as -> by congruence end.
    done. }
  apply (source_remove_inactive _ p (set_src_sink None s_f)).
  - simpl. by rewrite lookup_insert_eq.
  - exact E.
Qed.

(** A completed [sink_add_source] after a successful [epoll_ctl]. *)
Lemma sink_add_source_done w k p reply s snk rc w' :
  srcs w !! p = Some s -> sinks w !! k = Some snk ->
  (1 <= refcount s < 2 ^ 32 - 2)%Z -> (0 <= ret reply)%Z ->
  sink_add_source k p reply w = Done (rc, w') ->
  rc = 0%Z
  /\ fields w' p = Some (erase_link (set_refcount (refcount s + 2)
                           (set_src_sink (Some k) (set_is_active true s))))
  /\ (forall q, q <> p -> fields w' q = fields w q)
  /\ trace w' = trace w ++ [SysEpollCtl (epollfd snk) EPOLL_CTL_ADD (fd s) (Some p)].
Proof.
  intros Hs Hk Hr Hret.
  assert (xerrno reply = ret reply) as Hx.
  { unfold xerrno. destruct (ret reply <? 0)%Z eqn:E; [|done]. apply Z.ltb_lt in E. lia. }
  set (s1 := set_refcount (refcount s + 1) s).
  set (w1 := put p s1 w).
  set (w2 := emit (SysEpollCtl (epollfd snk) EPOLL_CTL_ADD (fd s) (Some p)) w1).
  set (s3 := set_is_active true s1). set (w3 := put p s3 w2).
  set (s4 := set_src_sink (Some k) s3). set (w4 := put p s4 w3).
  set (s5 := set_refcount (refcount s + 2) s4). set (w5 := put p s5 w4).
  assert (srcs w1 !! p = Some s1) as Hs1 by (subst w1; simpl; by rewrite lookup_insert_eq).
  assert (srcs w2 !! p = Some s1) as Hs2 by (subst w2 w1; simpl; by rewrite lookup_insert_eq).
  assert (srcs w3 !! p = Some s3) as Hs3 by (subst w3; simpl; by rewrite lookup_insert_eq).
  assert (srcs w4 !! p = Some s4) as Hs4 by (subst w4; simpl; by rewrite lookup_insert_eq).
  assert (srcs w5 !! p = Some s5) as Hs5 by (subst w5; simpl; by rewrite lookup_insert_eq).
  unfold sink_add_source. rewrite (source_ref_put _ _ _ Hs) by lia.
  cbn [mbind outcome_bind]. fold s1 w1.
  unfold get_sink, get_source. replace (sinks w1) with (sinks w) by done.
  rewrite Hk, Hs1. cbn [mbind outcome_bind].
  replace (fd s1) with (fd s) by done. fold w2.
  rewrite decide_False by lia.
  rewrite (update_source_put _ _ _ _ Hs2). cbn [mbind outcome_bind]. fold s3 w3.
  rewrite (update_source_put _ _ _ _ Hs3). cbn [mbind outcome_bind]. fold s4 w4.
  rewrite (source_ref_put _ _ _ Hs4) by (simpl; lia). cbn [mbind outcome_bind].
  replace (refcount s4 + 1)%Z with (refcount s + 2)%Z by (simpl; lia). fold s5 w5.
  intros H. inv_bind H. injection H as <- <-.
  match goal with H : list_append _ _ _ = Done _ |- _ =>
    apply list_append_frame in H; rename H into Hf end.
  split; [done|]. split; [|split].
  - rewrite (fields_frame _ _ _ Hf). by apply fields_of.
  - intros q Hq. rewrite (fields_frame _ _ _ Hf). subst w5 w4 w3.
    rewrite !fields_put, !decide_False by done.
    change (fields w2 q) with (fields w1 q). subst w1.
    by rewrite fields_put, decide_False.
  - destruct Hf as (Ht & _). by rewrite Ht.
Qed.

Lemma active_listed w mem B p s :
  reactor_inv w mem B -> srcs w !! p = Some s -> is_active s = true ->
  exists k, p ∈ mem (SinkSources k).
Proof.
  intros Hinv Hs Ha. pose proof Hinv as [Hok _ Hact Hpend Hdet].
  assert (forall k, p ∉ mem (SinkRemoved k)) as Hnr.
  { intros k Hp. destruct (Hpend k p Hp) as (s' & Hs' & Ha' & _). congruence. }
  assert ((forall k, p ∉ mem (SinkSources k)) -> False) as Hns.
  { intros Hno. destruct (Hdet p s Hs) as [Ha' _]; [|congruence].
    intros h Hp. pose proof (mem_is_head _ _ _ _ Hok Hp) as Hh.
    destruct h as [k|k|q]; [by apply (Hno k) | by apply (Hnr k) | done]. }
  destruct (src_sink s) as [k|] eqn:Hk.
  - exists k. destruct (decide (p ∈ mem (SinkSources k))) as [|Hnot]; [done|].
    exfalso. apply Hns. intros k' Hp. destruct (Hact k' p Hp) as (s' & Hs' & _ & Hk' & _).
    assert (k' = k) as -> by congruence. done.
  - exfalso. apply Hns. intros k' Hp. destruct (Hact k' p Hp) as (s' & Hs' & _ & Hk' & _).
    congruence.
Qed.

(** C6: [source_remove] does nothing on the null pointer and on an
    inactive source; on an active source of a consistent reactor it issues
    the [EPOLL_CTL_DEL], closes the descriptor when the policy is
    close-on-remove, and leaves the source inactive, counted one less,
    without sink, and last on the pending list of its sink; a second call
    then changes nothing.  On a consistent reactor the call completes on
    every source, and wherever a call completes a second one is a no-op. *)
Theorem source_remove_idempotent (w : world) (mem : node -> list nat) (spare : nat -> Z) :
  source_remove None w = Done w
  /\ (forall p s, srcs w !! p = Some s -> is_active s = false ->
        source_remove (Some p) w = Done w)
  /\ (reactor_inv w mem spare -> forall k p, p ∈ mem (SinkSources k) ->
        exists w' s snk s' mem',
          srcs w !! p = Some s /\ sinks w !! k = Some snk /\ is_active s = true
          /\ source_remove (Some p) w = Done w'
          /\ trace w' = trace w ++ (SysEpollCtl (epollfd snk) EPOLL_CTL_DEL (fd s) None
               :: (if decide (close_behavior s = SOURCE_CLOSE_FD_ON_REMOVE /\ fd s <> (-1)%Z)
                   then [SysClose (fd s)] else []))
          /\ srcs w' !! p = Some s'
          /\ is_active s' = false /\ src_sink s' = None
          /\ refcount s' = (refcount s - 1)%Z
          /\ fd s' = (if decide (close_behavior s = SOURCE_CLOSE_FD_ON_REMOVE)
                      then (-1)%Z else fd s)
          /\ reactor_inv w' mem' spare
          /\ (p ∉ mem' (SinkSources k))
          /\ mem' (SinkRemoved k) = mem (SinkRemoved k) ++ [p]
          /\ source_remove (Some p) w' = Done w')
  /\ (reactor_inv w mem spare -> forall p, is_Some (srcs w !! p) ->
        exists w', source_remove (Some p) w = Done w'
                   /\ source_remove (Some p) w' = Done w')
  /\ (forall p w', source_remove (Some p) w = Done w' ->
        source_remove (Some p) w' = Done w').
Proof.
  assert (reactor_inv w mem spare -> forall k p, p ∈ mem (SinkSources k) ->
        exists w' s snk s' mem',
          srcs w !! p = Some s /\ sinks w !! k = Some snk /\ is_active s = true
          /\ source_remove (Some p) w = Done w'
          /\ trace w' = trace w ++ (SysEpollCtl (epollfd snk) EPOLL_CTL_DEL (fd s) None
               :: (if decide (close_behavior s = SOURCE_CLOSE_FD_ON_REMOVE /\ fd s <> (-1)%Z)
                   then [SysClose (fd s)] else []))
          /\ srcs w' !! p = Some s'
          /\ is_active s' = false /\ src_sink s' = None
          /\ refcount s' = (refcount s - 1)%Z
          /\ fd s' = (if decide (close_behavior s = SOURCE_CLOSE_FD_ON_REMOVE)
                      then (-1)%Z else fd s)
          /\ reactor_inv w' mem' spare
          /\ (p ∉ mem' (SinkSources k))
          /\ mem' (SinkRemoved k) = mem (SinkRemoved k) ++ [p]
          /\ source_remove (Some p) w' = Done w') as Hactive.
  { intros Hinv k p Hp.
    destruct (source_remove_active w mem spare k p Hinv Hp)
      as (w' & s & snk & L1 & L2 & Hs & Hsnk & HL & Hrun & Hinv' & Ht & _ & Hfp & _ & _).
    apply fields_Some in Hfp as (s' & Hs' & Heq).
    destruct (inv_active _ _ _ Hinv k p Hp) as (s0 & Hs0 & Ha0 & _).
    assert (s0 = s) as -> by congruence.
    assert (is_active s' = false /\ src_sink s' = None /\ refcount s' = (refcount s - 1)%Z
            /\ fd s' = (if decide (close_behavior s = SOURCE_CLOSE_FD_ON_REMOVE)
                        then (-1)%Z else fd s)) as (Ha' & Hk' & Hr' & Hfd').
    { pose proof (f_equal is_active Heq) as E1. pose proof (f_equal src_sink Heq) as E2.
      pose proof (f_equal refcount Heq) as E3. pose proof (f_equal fd Heq) as E4.
      simpl in E1, E2, E3, E4. repeat split; [done|done|done|].
      rewrite E4. by case_decide. }
    eexists w', s, snk, s', _. do 10 (split; [done|]). split; [exact Hinv'|].
    split; [|split].
    - rewrite (mem_set_same _ _ _ (SinkSources k)) by done. rewrite mem_set_at.
      pose proof (NoDup_fmap_mem _ _ _ (inv_lists _ _ _ Hinv) (mem_is_head _ _ _ _ (inv_lists _ _ _ Hinv) Hp)) as Hnd.
      rewrite HL in Hnd. apply NoDup_app in Hnd as (_ & Hdis & Hnd2).
      apply NoDup_cons in Hnd2 as [? _]. rewrite elem_of_app. intros [Hin|Hin]; [|done].
      apply (Hdis p Hin). apply elem_of_cons. tauto.
    - by rewrite mem_set_at.
    - by apply (source_remove_inactive _ _ s'). }
  split; [done|]. split; [apply source_remove_inactive|]. split; [exact Hactive|].
  split; [|intros p w'; apply source_remove_twice].
  intros Hinv p [s Hs]. destruct (is_active s) eqn:Ha.
  - destruct (active_listed _ _ _ _ _ Hinv Hs Ha) as [k Hp].
    destruct (Hactive Hinv k p Hp) as (w' & ? & ? & ? & ? & H). exists w'. tauto.
  - exists w. by rewrite (source_remove_inactive _ _ _ Hs Ha).
Qed.

(** C9: when [epoll_ctl] fails, [sink_add_source] returns the negated
    errno and the heap is as before the call, the reference taken for the
    registration released: only the system call was made.  When it
    succeeds on a source that is on no list of a consistent reactor, the
    source is active, points to the sink, is counted twice more and is last
    on the list of the sink; and wherever the call completes after a
    successful [epoll_ctl] it returns 0 and has changed these three fields
    of the source and nothing of the other sources. *)
Theorem sink_add_source_atomic (w : world) (k p : nat) (reply : os_reply)
    (s : source) (snk : sink) :
  srcs w !! p = Some s -> sinks w !! k = Some snk ->
  (1 <= refcount s < 2 ^ 32 - 2)%Z ->
  ((ret reply < 0 /\ 0 < errno reply)%Z ->
     sink_add_source k p reply w
     = Done ((- errno reply)%Z,
             emit (SysEpollCtl (epollfd snk) EPOLL_CTL_ADD (fd s) (Some p)) w))
  /\ ((0 <= ret reply)%Z ->
      forall mem spare, reactor_inv w mem spare -> (forall h, p ∉ mem h) ->
        (spare p <= refcount s)%Z ->
        exists w' s',
          sink_add_source k p reply w = Done (0%Z, w')
          /\ srcs w' !! p = Some s'
          /\ is_active s' = true /\ src_sink s' = Some k
          /\ refcount s' = (refcount s + 2)%Z
          /\ reactor_inv w' (mem_set (SinkSources k) (mem (SinkSources k) ++ [p]) mem) spare
          /\ trace w' = trace w ++ [SysEpollCtl (epollfd snk) EPOLL_CTL_ADD (fd s) (Some p)])
  /\ ((0 <= ret reply)%Z ->
      forall rc w', sink_add_source k p reply w = Done (rc, w') ->
        rc = 0%Z
        /\ fields w' p = Some (erase_link (set_refcount (refcount s + 2)
                                 (set_src_sink (Some k) (set_is_active true s))))
        /\ (forall q, q <> p -> fields w' q = fields w q)
        /\ trace w' = trace w ++ [SysEpollCtl (epollfd snk) EPOLL_CTL_ADD (fd s) (Some p)]).
Proof.
  intros Hs Hk Hr. split; [|split].
  3:{ intros Hret rc w' Hrun. by apply (sink_add_source_done w k p reply s snk rc w'). }
  - intros [Hret Herr].
    assert (xerrno reply = - errno reply)%Z as Hx.
    { unfold xerrno. destruct (ret reply <? 0)%Z eqn:E; [done|]. apply Z.ltb_ge in E. lia. }
    rewrite <- Hx. apply sink_add_source_fail; [done|done|lia|lia].
  - intros Hret mem spare Hinv Hno Hsp.
    assert (xerrno reply = ret reply) as Hx.
    { unfold xerrno. destruct (ret reply <? 0)%Z eqn:E; [|done]. apply Z.ltb_lt in E. lia. }
    destruct (sink_add_source_ok w mem spare k p reply s Hinv) as
      (w' & snk' & Hk' & Hrun & Hinv' & Hfp & _ & _ & Ht & _); [by eexists|done|done|lia|done|lia|].
    assert (snk' = snk) as -> by congruence.
    apply fields_Some in Hfp as (s' & Hs' & Heq).
    exists w', s'. do 2 (split; [done|]).
    pose proof (f_equal is_active Heq) as E1. pose proof (f_equal src_sink Heq) as E2.
    pose proof (f_equal refcount Heq) as E3. simpl in E1, E2, E3. done.
Qed.

(** C10: a completed pass asks [epoll_wait] for at most 32 events and
    invokes callbacks only for events among the first 32 ready sources, at
    most one callback per event. *)
Theorem sink_dispatch_at_most_32 (fuel k : nat) (ready : list nat) (w : world)
    (rc : Z) (w' : world) :
  sink_dispatch fuel k (EpollReady ready) w = Done (rc, w') ->
  exists new snk rest,
    dispatched w' = dispatched w ++ new
    /\ new `sublist_of` take 32 ready
    /\ length new <= 32
    /\ (forall q, q ∉ take 32 ready -> q ∉ new)
    /\ sinks w !! k = Some snk
    /\ trace w' = trace w ++ (SysEpollWait (epollfd snk) 32 0 :: rest).
Proof.
  intros H. destruct (sink_dispatch_log _ _ _ _ _ _ H) as (new & snk & rest & Hd & Hsub & Hk & Ht).
  exists new, snk, rest. split; [done|]. split; [done|]. split; [|split; [|done]].
  - apply sublist_length in Hsub. unfold epoll_wait, MAX_EVENTS in Hsub.
    rewrite length_take in Hsub. lia.
  - intros q Hq Hin. apply Hq. eapply sublist_submseteq, elem_of_submseteq in Hsub; done.
Qed.

Example crowd_pass :
  match sink_dispatch 40 0 (EpollReady (seq 0 33)) w_crowd with
  | Done (rc, w') => rc = 0%Z /\ dispatched w' = seq 0 32
  | Fault _ => False
  end.
Proof. vm_compute. split; reflexivity. Qed.

(** The small reactors are consistent. *)
Lemma w_sink_inv (B : nat -> Z) : (forall q, 0 <= B q)%Z -> reactor_inv w_sink (fun _ => []) B.
Proof. intros HB. apply sink_new_inv. by apply reactor_inv_empty. Qed.

Lemma w_new_inv (B : nat -> Z) : (forall q, 0 <= B q)%Z -> reactor_inv w_new (fun _ => []) B.
Proof. intros HB. apply source_new_inv. by apply w_sink_inv. Qed.

Lemma w_new_source : srcs w_new !! 0 = Some demo_source.
Proof. by vm_compute. Qed.

Lemma w_new_sink : sinks w_new !! 0 = Some demo_sink.
Proof. by vm_compute. Qed.

Lemma w_active_run : sink_add_source 0 0 (OsReply 0 0) w_new = Done (0%Z, w_active).
Proof. by vm_compute. Qed.

Lemma w_active_inv (B : nat -> Z) :
  (forall q, 0 <= B q)%Z -> (B 0%nat <= 1)%Z -> reactor_inv w_active mem_active B.
Proof.
  intros HB H0.
  destruct (sink_add_source_ok w_new (fun _ => []) B 0 0 (OsReply 0 0) demo_source)
    as (w' & snk & _ & Hrun & Hinv & _).
  - by apply w_new_inv.
  - exists demo_sink. exact w_new_sink.
  - exact w_new_source.
  - intros h Hin. by apply elem_of_nil in Hin.
  - by vm_compute.
  - simpl. exact H0.
  - by vm_compute.
  - rewrite w_active_run in Hrun. injection Hrun as <-. exact Hinv.
Qed.


Lemma source_remove_idempotent_witness :
  exists w' s snk s' mem',
    srcs w_active !! 0 = Some s /\ sinks w_active !! 0 = Some snk /\ is_active s = true
    /\ source_remove (Some 0) w_active = Done w'
    /\ trace w' = trace w_active ++ (SysEpollCtl (epollfd snk) EPOLL_CTL_DEL (fd s) None
         :: (if decide (close_behavior s = SOURCE_CLOSE_FD_ON_REMOVE /\ fd s <> (-1)%Z)
             then [SysClose (fd s)] else []))
    /\ srcs w' !! 0 = Some s'
    /\ is_active s' = false /\ src_sink s' = None
    /\ refcount s' = (refcount s - 1)%Z
    /\ fd s' = (if decide (close_behavior s = SOURCE_CLOSE_FD_ON_REMOVE)
                then (-1)%Z else fd s)
    /\ reactor_inv w' mem' (fun _ => 0%Z)
    /\ (0 ∉ mem' (SinkSources 0))
    /\ mem' (SinkRemoved 0) = mem_active (SinkRemoved 0) ++ [0]
    /\ source_remove (Some 0) w' = Done w'.
Proof.
  apply (proj1 (proj2 (proj2 (source_remove_idempotent w_active mem_active (fun _ => 0%Z))))).
  - apply w_active_inv; intros; lia.
  - vm_compute. by left.
Defined.

Lemma sink_add_source_atomic_witness :
  sink_add_source 0 0 (OsReply (-1) 9) w_new
  = Done ((-9)%Z, emit (SysEpollCtl 3 EPOLL_CTL_ADD 7 (Some 0)) w_new)
  /\ exists w' s',
       sink_add_source 0 0 (OsReply 0 0) w_new = Done (0%Z, w')
       /\ srcs w' !! 0 = Some s'
       /\ is_active s' = true /\ src_sink s' = Some 0
       /\ refcount s' = 3%Z
       /\ reactor_inv w' mem_active (fun _ => 0%Z)
       /\ trace w' = trace w_new ++ [SysEpollCtl 3 EPOLL_CTL_ADD 7 (Some 0)].
Proof.
  assert (1 <= refcount demo_source < 2 ^ 32 - 2)%Z as Hr by (simpl; lia).
  split.
  - apply (proj1 (sink_add_source_atomic w_new 0 0 (OsReply (-1) 9) demo_source demo_sink
                    w_new_source w_new_sink Hr)).
    simpl. lia.
  - apply (proj1 (proj2 (sink_add_source_atomic w_new 0 0 (OsReply 0 0) demo_source demo_sink
                    w_new_source w_new_sink Hr))
             ltac:(simpl; lia) (fun _ => []) (fun _ => 0%Z)).
    + apply w_new_inv; intros; lia.
    + intros h Hin. by apply elem_of_nil in Hin.
    + simpl. lia.
Defined.

Lemma w_crowd_run :
  sink_dispatch 40 0 (EpollReady (seq 0 33)) w_crowd = Done (0%Z, w_crowd_after).
Proof. vm_compute. reflexivity. Qed.

Lemma sink_dispatch_at_most_32_witness :
  exists new snk rest,
    dispatched w_crowd_after = dispatched w_crowd ++ new
    /\ new `sublist_of` take 32 (seq 0 33)
    /\ length new <= 32
    /\ (forall q, q ∉ take 32 (seq 0 33) -> q ∉ new)
    /\ sinks w_crowd !! 0 = Some snk
    /\ trace w_crowd_after = trace w_crowd ++ (SysEpollWait (epollfd snk) 32 0 :: rest).
Proof.
  apply (sink_dispatch_at_most_32 40 0 (seq 0 33) w_crowd 0 w_crowd_after).
  vm_compute. reflexivity.
Defined.

Lemma w_linked_run : list_append (SinkSources 0) (SourceLink 0) w_one = Done w_linked.
Proof. vm_compute. reflexivity. Qed.

Lemma w_removed_run : list_remove (SourceLink 0) w_linked = Done w_removed.
Proof. vm_compute. reflexivity. Qed.

Lemma list_remove_then_reuse_witness :
  load (SourceLink 0) w_removed = Done (ListNode None None)
  /\ list_insert (SourceLink 0) (SinkSources 0) w_removed = Fault AssertionFailed
  /\ list_remove (SourceLink 0) w_removed = Fault AssertionFailed
  /\ list_empty (SourceLink 0) w_removed = Fault AssertionFailed
  /\ list_check (SinkRemoved 0) (SourceLink 0) w_removed = Done ()
  /\ list_append (SinkRemoved 0) (SourceLink 0) w_linked = Fault AssertionFailed.
Proof.
  pose proof (list_remove_then_reuse w_linked (SourceLink 0)) as (Hreset & _ & _ & Hlinked).
  pose proof (list_remove_then_reuse w_removed (SourceLink 0)) as (_ & _ & Hnull & _).
  pose proof (Hreset w_removed w_removed_run) as Hload.
  destruct (Hnull Hload) as (Hhead & Hrem & Hemp & Helem).
  split; [exact Hload|]. split; [apply Hhead|]. split; [exact Hrem|]. split; [exact Hemp|].
  split.
  - apply (Helem (SinkRemoved 0) (self_loop (SinkRemoved 0))); [by vm_compute|done|done].
  - apply (Hlinked (SinkRemoved 0) {| prev := Some (SinkSources 0); next := Some (SinkSources 0) |}
             (SinkSources 0)); [eexists; by vm_compute|by vm_compute|done|done].
Defined.

(** A source that waits on the pending list cannot be added again before
    the next pass has taken it off: with [epoll_ctl] succeeding,
    [list_append] fails its assertion on the link. *)
Example sink_add_source_pending :
  srcs w_keep_pending !! 0
  = Some {| refcount := 2; src_sink := None;
            link := {| prev := Some (SinkRemoved 0); next := Some (SinkRemoved 0) |};
            dispatch := [CallSourceRemove 0; CallSourceUnref 0]; user_data := 0;
            close_behavior := SOURCE_CLOSE_FD_NEVER; fd := 7; is_active := false |}
  /\ sink_add_source 0 0 (OsReply 0 0) w_keep_pending = Fault AssertionFailed.
Proof. split; vm_compute; reflexivity. Qed.

(** ** The list on its own, and the rest of the source and sink operations *)

(** What [list_insert] does with a node that is on no list; [n] is the node
    that was first (the head, on an empty list). *)
Lemma list_insert_effect h e n w :
  next_of w h = Some n -> is_Some (prev_of w h) ->
  alive w e -> alive w n ->
  (next_of w e = None /\ prev_of w e = None) \/ (next_of w e = Some e /\ is_Some (prev_of w e)) ->
  e <> h -> e <> n ->
  exists w', list_insert h e w = Done w' /\ frame w w'
    /\ (forall m, next_of w' m =
          if decide (m = h) then Some e else if decide (m = e) then Some n else next_of w m)
    /\ (forall m, prev_of w' m =
          if decide (m = n) then Some e else if decide (m = e) then Some h else prev_of w m)
    /\ (forall m, alive w' m <-> alive w m).
Proof.
  intros Hn [hp Hhp] Hae Han Hfree Heh Hen.
  pose proof (next_of_alive _ _ _ Hn) as Hah.
  unfold list_insert, list_check.
  destruct (load_alive w h Hah) as (hv & -> & Hnx & Hpv). simpl.
  rewrite Hnx, Hpv, Hhp, Hn. simpl.
  destruct (load_alive w e Hae) as (ev & Hev & Henx & Hepv). rewrite Hev. simpl.
  assert ((if bool_decide (next ev = None /\ prev ev = None) then Done true
           else list_empty e w) = Done true) as ->.
  { rewrite Henx, Hepv. destruct Hfree as [[-> ->]|[Hs [x Hx]]]; [done|].
    rewrite Hs, Hx. simpl. unfold list_empty. rewrite Hev. simpl.
    rewrite Henx, Hepv, Hs, Hx. simpl. by rewrite bool_decide_true. }
  simpl.
  destruct (set_prev_spec e (Some h) w Hae) as (w1 & -> & Hf1 & Hn1 & Hp1 & Ha1). simpl.
  assert (alive w1 h) as Hah1 by (by apply Ha1).
  destruct (load_alive w1 h Hah1) as (hv1 & -> & Hnx1 & Hpv1). simpl.
  rewrite Hnx1, Hn1, Hn.
  assert (alive w1 e) as Hae1 by (by apply Ha1).
  destruct (set_next_spec e (Some n) w1 Hae1) as (w2 & -> & Hf2 & Hn2 & Hp2 & Ha2). simpl.
  assert (alive w2 h) as Hah2 by (by apply Ha2).
  destruct (set_next_spec h (Some e) w2 Hah2) as (w3 & -> & Hf3 & Hn3 & Hp3 & Ha3). simpl.
  assert (alive w3 e) as Hae3 by (by apply Ha3, Ha2).
  destruct (load_alive w3 e Hae3) as (ev3 & -> & Hnx3 & Hpv3). simpl.
  rewrite Hnx3, Hn3, Hn2, decide_False, decide_True by done. simpl.
  assert (alive w3 n) as Han3 by (by apply Ha3, Ha2, Ha1).
  destruct (set_prev_spec n (Some e) w3 Han3) as (w4 & -> & Hf4 & Hn4 & Hp4 & Ha4).
  exists w4. split; [done|].
  split; [eauto using frame_trans|].
  split; [|split].
  - intros m. rewrite Hn4, Hn3, Hn2, Hn1. done.
  - intros m. rewrite Hp4, Hp3, Hp2, Hp1. done.
  - intros m. rewrite Ha4, Ha3, Ha2, Ha1. done.
Qed.

Lemma dll_insert w w' h L e n :
  dll w h L -> e ∉ h :: L -> head (L ++ [h]) = Some n ->
  (forall m, next_of w' m =
     if decide (m = h) then Some e else if decide (m = e) then Some n else next_of w m) ->
  (forall m, prev_of w' m =
     if decide (m = n) then Some e else if decide (m = e) then Some h else prev_of w m) ->
  dll w' h (e :: L).
Proof.
  intros [Hnd Hp] He Hhead Hn' Hp'.
  assert (h <> e) as Hhe by (intros ->; apply He, elem_of_cons; tauto).
  split.
  { apply NoDup_cons in Hnd as [HhL HndL]. apply NoDup_cons. split.
    - rewrite elem_of_cons. intros [?|?]; [done|]. done.
    - apply NoDup_cons. split; [|done]. intros Hin. apply He, elem_of_cons. tauto. }
  assert (n <> e) as Hne.
  { intros ->. apply He. destruct L as [|x L]; simpl in Hhead; injection Hhead as <-.
    - apply elem_of_cons. tauto.
    - rewrite !elem_of_cons. tauto. }
  change (path w' (h :: e :: L ++ [h])).
  destruct (L ++ [h]) as [|n0 X] eqn:HX; [done|]. simpl in Hhead. injection Hhead as ->.
  change (links w' h e /\ links w' e n /\ path w' (n :: X)).
  split; [|split].
  - unfold links. rewrite Hn', Hp'. rewrite decide_True by done.
    rewrite (decide_False (P := e = n)) by done. by rewrite decide_True.
  - unfold links. rewrite Hn', Hp'. rewrite (decide_False (P := e = h)) by done.
    rewrite decide_True by done. by rewrite decide_True.
  - assert (path w (n :: X)) as HpX.
    { destruct X; simpl in Hp |- *; tauto. }
    assert (NoDup (n :: X)) as HndX.
    { rewrite <- HX, <- Permutation_cons_append. exact Hnd. }
    apply NoDup_cons in HndX as [HnX _].
    apply (path_frame w); [done|]. intros a b l1 l2 Heq.
    assert (a ∈ L) as HaL.
    { destruct (snoc_view b l2) as (l2' & z & Hl2 & _).
      assert (L ++ [h] = (l1 ++ a :: l2') ++ [z]) as Heq'.
      { rewrite HX, Heq, Hl2, <- app_assoc. done. }
      apply app_inj_tail in Heq' as [-> _]. rewrite elem_of_app, elem_of_cons. tauto. }
    assert (b ∈ X) as HbX.
    { destruct l1 as [|y l1]; simpl in Heq; injection Heq as _ ->.
      - apply elem_of_cons. tauto.
      - rewrite elem_of_app, !elem_of_cons. tauto. }
    assert (b <> n) as Hbn by (intros ->; done).
    assert (b <> e) as Hbe.
    { intros ->. apply He.
      assert (e ∈ L ++ [h]) as Hin by (rewrite HX; apply elem_of_cons; tauto).
      rewrite elem_of_cons. apply elem_of_app in Hin as [?| ->%list_elem_of_singleton]; tauto. }
    rewrite Hn', Hp'.
    rewrite (decide_False (P := a = h)).
    2:{ intros ->. apply NoDup_cons in Hnd as [Hh _]. done. }
    rewrite (decide_False (P := a = e)).
    2:{ intros ->. apply He, elem_of_cons. tauto. }
    by rewrite !decide_False.
Qed.

Lemma dll_first w h L n :
  dll w h L -> head (L ++ [h]) = Some n ->
  next_of w h = Some n /\ is_Some (prev_of w h) /\ alive w n.
Proof.
  intros Hd Hhead. pose proof (dll_next_head _ _ _ Hd) as Hn.
  assert (hd h L = n) as <-.
  { destruct L; simpl in *; congruence. }
  split; [done|]. split.
  - destruct (snoc_view h L) as (A & t & HA & Hlast).
    destruct (dll_last _ _ _ _ Hd Hlast) as (-> & _). by eexists.
  - eapply dll_alive; [done|]. destruct L; simpl; [by left | right; by left].
Qed.

Lemma unlinked_view w e :
  unlinked w e ->
  alive w e
  /\ ((next_of w e = None /\ prev_of w e = None)
      \/ (next_of w e = Some e /\ is_Some (prev_of w e))).
Proof.
  intros [H|H]; (split; [by eexists|]); unfold next_of, prev_of; rewrite H; simpl; eauto.
Qed.

Lemma list_link_effect (w : world) (h : node) (L : list node) (e : node) :
  dll w h L -> unlinked w e -> e ∉ h :: L ->
  (exists w', list_insert h e w = Done w' /\ dll w' h (e :: L) /\ frame w w'
     /\ forall h2 L2, dll w h2 L2 -> e ∉ h2 :: L2 -> (forall x, x ∈ h2 :: L2 -> x ∉ h :: L) ->
          dll w' h2 L2)
  /\ (exists w', list_append h e w = Done w' /\ dll w' h (L ++ [e]) /\ frame w w'
     /\ forall h2 L2, dll w h2 L2 -> e ∉ h2 :: L2 -> (forall x, x ∈ h2 :: L2 -> x ∉ h :: L) ->
          dll w' h2 L2).
Proof.
  intros Hd Hun He. destruct (unlinked_view _ _ Hun) as [Hae Hfree].
  assert (e <> h) as Heh by (intros ->; apply He, elem_of_cons; tauto).
  split.
  - destruct (head (L ++ [h])) as [n|] eqn:Hhead; [|by destruct L].
    destruct (dll_first _ _ _ _ Hd Hhead) as (Hn & Hp & Han).
    assert (n ∈ h :: L) as HnL.
    { destruct L; simpl in Hhead; injection Hhead as <-; rewrite ?elem_of_cons; tauto. }
    assert (e <> n) as Hen by (intros ->; done).
    destruct (list_insert_effect h e n w Hn Hp Hae Han Hfree Heh Hen)
      as (w' & Hrun & Hf & Hn' & Hp' & _).
    exists w'. split; [done|]. split; [by eapply dll_insert|]. split; [done|].
    intros h2 L2 Hd2 He2 Hdis. apply (dll_same w); [done|]. intros x Hx.
    rewrite Hn', Hp'.
    assert (x <> h) by (intros ->; apply (Hdis h Hx), elem_of_cons; tauto).
    assert (x <> e) by (intros ->; done).
    assert (x <> n) by (intros ->; by apply (Hdis n Hx)).
    by rewrite !decide_False.
  - destruct (snoc_view h L) as (A & t & HA & Hlast).
    destruct (dll_last _ _ _ _ Hd Hlast) as (Hp & Hn & Hat).
    assert (t ∈ h :: L) as HtL by (by eapply last_Some_elem_of).
    assert (e <> t) as Het by (intros ->; done).
    destruct (list_append_effect h e t w Hp Hn Hae Hat Hfree Heh Het)
      as (w' & Hrun & Hf & Hn' & Hp' & _).
    exists w'. split; [done|]. split; [by eapply dll_append|]. split; [done|].
    intros h2 L2 Hd2 He2 Hdis. apply (dll_same w); [done|]. intros x Hx.
    rewrite Hn', Hp'.
    assert (x <> h) by (intros ->; apply (Hdis h Hx), elem_of_cons; tauto).
    assert (x <> e) by (intros ->; done).
    assert (x <> t) by (intros ->; by apply (Hdis t Hx)).
    by rewrite !decide_False.
Qed.

(** X9: on a well-formed list, [list_insert] links the node first and
    [list_append] links it last; the order of the other nodes is kept, and
    a list that shares no node with this one is as it was. *)
Theorem list_insert_append_order (w : world) (h : node) (L : list node) (e : node) :
  dll w h L -> unlinked w e -> e ∉ h :: L ->
  (exists w', list_insert h e w = Done w' /\ dll w' h (e :: L) /\ frame w w'
     /\ forall h2 L2, dll w h2 L2 -> e ∉ h2 :: L2 -> (forall x, x ∈ h2 :: L2 -> x ∉ h :: L) ->
          dll w' h2 L2)
  /\ (exists w', list_append h e w = Done w' /\ dll w' h (L ++ [e]) /\ frame w w'
     /\ forall h2 L2, dll w h2 L2 -> e ∉ h2 :: L2 -> (forall x, x ∈ h2 :: L2 -> x ∉ h :: L) ->
          dll w' h2 L2).
Proof. apply list_link_effect. Qed.

Lemma list_remove_dll (w : world) (h : node) (L1 : list node) (e : node)
    (L2 : list node) :
  dll w h (L1 ++ e :: L2) ->
  exists w', list_remove e w = Done w' /\ dll w' h (L1 ++ L2)
    /\ load e w' = Done (ListNode None None) /\ frame w w'.
Proof.
  intros Hd.
  destruct (dll_neighbours _ _ _ _ _ Hd)
    as (p & n & Hlast & Hhead & Hp & Hn & Hpe & Hne & Hap & Han).
  destruct (list_remove_effect e p n w Hp Hn Hpe Hne Hap Han)
    as (w' & Hrun & Hf & Hn' & Hp' & _).
  exists w'. split; [done|]. split; [by eapply dll_remove|]. split; [|done].
  by apply (list_remove_resets e w).
Qed.

(** X10: [list_remove] takes a member out of a well-formed list, keeps the
    order of the others, and leaves the node with null pointers. *)
Theorem list_remove_member (w : world) (h : node) (L1 : list node) (e : node)
    (L2 : list node) :
  dll w h (L1 ++ e :: L2) ->
  exists w', list_remove e w = Done w' /\ dll w' h (L1 ++ L2)
    /\ load e w' = Done (ListNode None None) /\ frame w w'.
Proof. apply list_remove_dll. Qed.

(** X11: linking a node with [list_insert] or [list_append] and taking it
    out again with [list_remove] gives back the list. *)
Theorem list_link_remove_round_trip (w : world) (h : node) (L : list node) (e : node) :
  dll w h L -> unlinked w e -> e ∉ h :: L ->
  (exists w1 w2, list_insert h e w = Done w1 /\ list_remove e w1 = Done w2 /\ dll w2 h L)
  /\ (exists w1 w2, list_append h e w = Done w1 /\ list_remove e w1 = Done w2 /\ dll w2 h L).
Proof.
  intros Hd Hun He.
  destruct (list_link_effect w h L e Hd Hun He)
    as [(w1 & Hrun1 & Hd1 & _) (w1' & Hrun1' & Hd1' & _)].
  split.
  - destruct (list_remove_dll w1 h [] e L Hd1) as (w2 & Hrun2 & Hd2 & _).
    by exists w1, w2.
  - destruct (list_remove_dll w1' h L e [] Hd1') as (w2 & Hrun2 & Hd2 & _).
    rewrite app_nil_r in Hd2. by exists w1', w2.
Qed.

(** X12: [list_init] makes the node an empty list, and [list_empty] tells
    whether a well-formed list has no member. *)
Theorem list_empty_iff (w : world) (h : node) (L : list node) :
  (dll w h L -> list_empty h w = Done (bool_decide (L = [])))
  /\ (alive w h ->
      exists w', list_init h w = Done w' /\ dll w' h [] /\ list_empty h w' = Done true).
Proof.
  assert (forall w0 L0, dll w0 h L0 -> list_empty h w0 = Done (bool_decide (L0 = []))) as Hempty.
  { intros w0 L0 Hd. pose proof (dll_next_head _ _ _ Hd) as Hn.
    destruct (snoc_view h L0) as (A & t & HA & Hlast).
    destruct (dll_last _ _ _ _ Hd Hlast) as (Hp & _ & _).
    destruct (load_alive w0 h (next_of_alive _ _ _ Hn)) as (v & Hv & Hvn & Hvp).
    unfold list_empty. rewrite Hv. cbn [mbind outcome_bind].
    rewrite Hvn, Hvp, Hn, Hp. rewrite (bool_decide_true (Some (hd h L0) <> None /\ Some t <> None))
      by (split; congruence).
    cbn [assert mbind outcome_bind].
    f_equal. destruct L0 as [|x L0]; simpl.
    - by rewrite !bool_decide_true.
    - rewrite !bool_decide_false; [done..|].
      intros [= ->]. destruct Hd as [Hnd _]. apply NoDup_cons in Hnd as [Hx _].
      apply Hx, elem_of_cons. tauto. }
  split; [apply Hempty|]. intros Hah.
  destruct (list_init_effect h w Hah) as (w' & Hrun & _ & Hn' & Hp' & _).
  assert (dll w' h []) as Hd.
  { split; [apply NoDup_singleton|]. simpl. unfold links. rewrite Hn', Hp'.
    by rewrite !decide_True. }
  exists w'. split; [done|]. split; [done|]. by rewrite (Hempty w' []).
Qed.

Lemma source_unref_last_active w p s :
  srcs w !! p = Some s -> refcount s = 1%Z -> is_active s = true ->
  source_unref (Some p) w = Fault AssertionFailed.
Proof.
  intros Hs Hr Ha. unfold source_unref, get_source. rewrite Hs. cbn [mbind outcome_bind].
  rewrite Hr. cbn [bool_decide decide_rel assert mbind outcome_bind].
  rewrite bool_decide_true by lia. cbn [assert mbind outcome_bind].
  rewrite (update_source_put _ _ _ _ Hs). cbn [mbind outcome_bind].
  change (wrap_u32 (1 - 1)) with 0%Z. rewrite decide_True by done.
  unfold source_destroy, get_source. cbn [put with_srcs srcs].
  rewrite lookup_insert_eq. cbn [mbind outcome_bind set_refcount is_active].
  rewrite Ha. done.
Qed.

(** X14: dropping the last reference.  An inactive source is destroyed and
    its storage freed, its descriptor closed only under close-on-destroy;
    an active source fails the assertion of [source_destroy]: it has to be
    removed first.  The null pointer is ignored. *)
Theorem source_unref_last_reference (w : world) (p : nat) (s : source) :
  srcs w !! p = Some s -> refcount s = 1%Z ->
  source_unref None w = Done w
  /\ (is_active s = true -> source_unref (Some p) w = Fault AssertionFailed)
  /\ (is_active s = false ->
      exists w', source_unref (Some p) w = Done w'
        /\ srcs w' = delete p (srcs w) /\ sinks w' = sinks w
        /\ dispatched w' = dispatched w
        /\ trace w' = trace w ++
             (if decide (close_behavior s = SOURCE_CLOSE_FD_ON_DESTROY /\ fd s <> (-1)%Z)
              then [SysClose (fd s)] else [])
        /\ source_unref (Some p) w' = Fault UseAfterFree
        /\ source_remove (Some p) w' = Fault UseAfterFree).
Proof.
  intros Hs Hr. split; [done|]. split.
  - intros Ha. by apply (source_unref_last_active w p s).
  - intros Ha. rewrite (source_unref_last _ _ _ Hs Hr Ha). eexists. split; [reflexivity|].
    cbn [with_srcs srcs sinks dispatched trace].
    assert (forall w0 : world,
              srcs w0 !! p = None ->
              source_unref (Some p) w0 = Fault UseAfterFree
              /\ source_remove (Some p) w0 = Fault UseAfterFree) as Hfree.
    { intros w0 H0. unfold source_unref, source_remove, get_source. by rewrite H0. }
    case_decide; cbn [emit srcs sinks dispatched trace].
    + repeat (split; [done|]). apply Hfree. simpl. by rewrite lookup_delete_eq.
    + rewrite app_nil_r. repeat (split; [done|]). apply Hfree. simpl. by rewrite lookup_delete_eq.
Qed.

(** X13: taking a reference and dropping it again leaves everything as it
    was; both [source_ref] and [source_unref] fail their assertion on a
    count of 0. *)
Theorem source_ref_unref_round_trip (w : world) (p : nat) (s : source) :
  srcs w !! p = Some s ->
  ((1 <= refcount s < 2 ^ 32 - 1)%Z ->
     exists w1, source_ref p w = Done w1
       /\ srcs w1 !! p = Some (set_refcount (refcount s + 1) s)
       /\ source_unref (Some p) w1 = Done w)
  /\ (refcount s = 0%Z ->
      source_ref p w = Fault AssertionFailed
      /\ source_unref (Some p) w = Fault AssertionFailed).
Proof.
  intros Hs. split.
  - intros Hr. rewrite (source_ref_put _ _ _ Hs) by lia. eexists. split; [reflexivity|].
    set (s1 := set_refcount (refcount s + 1) s).
    assert (srcs (put p s1 w) !! p = Some s1) as Hs1 by (simpl; by rewrite lookup_insert_eq).
    split; [done|].
    rewrite (source_unref_keep _ _ _ Hs1) by (simpl; lia). f_equal.
    rewrite put_put. subst s1. cbn [set_refcount refcount].
    replace (refcount s + 1 - 1)%Z with (refcount s) by lia.
    rewrite (put_same w p); [done|]. rewrite Hs. f_equal. by destruct s.
  - intros Hz. unfold source_ref, source_unref, get_source. rewrite Hs.
    cbn [mbind outcome_bind]. rewrite Hz. done.
Qed.

(** X15: [source_enable_write] fails its assertion on a source that is not
    active.  On an active source it issues one [EPOLL_CTL_MOD]; when that
    succeeds nothing else changes, and when it fails the call returns the
    negated errno and drops one reference of the source, which it had not
    taken: with a single reference left, the source is destroyed while
    active and the assertion of [source_destroy] fails.  The event mask
    [EPOLLIN | (enable ? EPOLLOUT : 0)], the only use of [enable], is not
    part of the trace. *)
Theorem source_enable_write_effect (w : world) (p : nat) (s : source) (reply : os_reply) :
  srcs w !! p = Some s ->
  (is_active s = false -> source_enable_write p reply w = Fault AssertionFailed)
  /\ (forall k snk, is_active s = true -> src_sink s = Some k -> sinks w !! k = Some snk ->
      let w1 := emit (SysEpollCtl (epollfd snk) EPOLL_CTL_MOD (fd s) (Some p)) w in
      ((0 <= ret reply)%Z -> source_enable_write p reply w = Done (0%Z, w1))
      /\ ((ret reply < 0 /\ 0 < errno reply)%Z -> (2 <= refcount s < 2 ^ 32)%Z ->
          source_enable_write p reply w
          = Done ((- errno reply)%Z, put p (set_refcount (refcount s - 1) s) w1))
      /\ ((ret reply < 0 /\ 0 < errno reply)%Z -> refcount s = 1%Z ->
          source_enable_write p reply w = Fault AssertionFailed)).
Proof.
  intros Hs. split.
  - intros Ha. unfold source_enable_write, get_source. rewrite Hs. cbn [mbind outcome_bind].
    by rewrite Ha.
  - intros k snk Ha Hk Hsnk w1.
    assert (forall r, source_enable_write p r w
              = if decide (xerrno r < 0)%Z
                then w' ← source_unref (Some p) w1; Done (xerrno r, w')
                else Done (0%Z, w1)) as Hrun.
    { intros r. unfold source_enable_write, get_source, get_sink. rewrite Hs.
      cbn [mbind outcome_bind]. rewrite Ha. cbn [assert mbind outcome_bind].
      rewrite Hk. cbn [mbind outcome_bind]. rewrite Hsnk. cbn [mbind outcome_bind]. done. }
    assert (srcs w1 !! p = Some s) as Hs1 by done.
    split; [|split].
    + intros Hret. rewrite Hrun. rewrite decide_False; [done|].
      unfold xerrno. destruct (ret reply <? 0)%Z eqn:E; [apply Z.ltb_lt in E|]; lia.
    + intros [Hret Herr] Hr.
      assert (xerrno reply = - errno reply)%Z as Hx.
      { unfold xerrno. destruct (ret reply <? 0)%Z eqn:E; [done|]. apply Z.ltb_ge in E. lia. }
      rewrite Hrun, Hx. rewrite decide_True by lia.
      rewrite (source_unref_keep _ _ _ Hs1 Hr). done.
    + intros [Hret Herr] Hr.
      assert (xerrno reply = - errno reply)%Z as Hx.
      { unfold xerrno. destruct (ret reply <? 0)%Z eqn:E; [done|]. apply Z.ltb_ge in E. lia. }
      rewrite Hrun, Hx. rewrite decide_True by lia.
      by rewrite (source_unref_last_active w1 p s Hs1 Hr Ha).
Qed.

Lemma list_for_each_safe_empty fuel h body w :
  dll w h [] -> 0 < fuel -> list_for_each_safe fuel h body w = Done w.
Proof.
  intros Hd Hfuel. pose proof (dll_next_head _ _ _ Hd) as Hn. simpl in Hn.
  destruct (load_next _ _ _ Hn) as (v & Hv & Hvn).
  unfold list_for_each_safe. rewrite Hv. cbn [mbind outcome_bind].
  rewrite Hvn. cbn [deref mbind outcome_bind]. rewrite Hv. cbn [mbind outcome_bind].
  rewrite Hvn. cbn [deref mbind outcome_bind].
  destruct fuel; [lia|]. simpl. by rewrite decide_True.
Qed.

(** X18: a pass in which no source is ready and none waits on the pending
    list makes the [epoll_wait] call and changes nothing else; a pass in
    which [epoll_wait] fails returns the negated errno at once: no callback
    runs and the pending sources are not released. *)
Theorem sink_dispatch_idle (w : world) (mem : node -> list nat) (spare : nat -> Z)
    (k : nat) (snk : sink) (fuel : nat) :
  sinks w !! k = Some snk ->
  let w1 := emit (SysEpollWait (epollfd snk) MAX_EVENTS 0) w in
  (forall e, sink_dispatch fuel k (EpollFail e) w = Done ((- e)%Z, w1))
  /\ (reactor_inv w mem spare -> mem (SinkRemoved k) = [] -> 0 < fuel ->
      sink_dispatch fuel k (EpollReady []) w = Done (0%Z, w1)
      /\ sink_dispatch fuel k (EpollReady []) w1
         = Done (0%Z, emit (SysEpollWait (epollfd snk) MAX_EVENTS 0) w1)).
Proof.
  intros Hk w1. split.
  - intros e. unfold sink_dispatch, get_sink. by rewrite Hk.
  - intros Hinv Hmem Hfuel.
    assert (forall w0, sinks w0 = sinks w -> srcs w0 = srcs w ->
              sink_dispatch fuel k (EpollReady []) w0
              = Done (0%Z, emit (SysEpollWait (epollfd snk) MAX_EVENTS 0) w0)) as Hrun.
    { intros w0 Hsk Hsr. unfold sink_dispatch, get_sink. rewrite Hsk, Hk.
      cbn [mbind outcome_bind]. unfold epoll_wait. rewrite take_nil.
      cbn [dispatch_events mbind outcome_bind].
      rewrite list_for_each_safe_empty; [done| |done].
      assert (is_head w (SinkRemoved k)) as Hh by (by eexists).
      pose proof (ok_dll _ _ (inv_lists _ _ _ Hinv) _ Hh) as Hd. rewrite Hmem in Hd.
      apply (dll_same w); [done|]. intros x _.
      unfold next_of, prev_of. destruct x; simpl; unfold get_sink, get_source; simpl;
        by rewrite ?Hsk, ?Hsr. }
    split; [by apply Hrun | by apply Hrun].
Qed.

Lemma fd_kept_refl w : fd_kept w w.
Proof. intros q s' Hs. eauto. Qed.

Lemma fd_kept_trans w1 w2 w3 : fd_kept w1 w2 -> fd_kept w2 w3 -> fd_kept w1 w3.
Proof.
  intros H1 H2 q s3 Hs3. destruct (H2 q s3 Hs3) as (s2 & Hs2 & Hfd2).
  destruct (H1 q s2 Hs2) as (s1 & Hs1 & Hfd1). exists s1. split; [done|].
  destruct Hfd2 as [->| ->]; tauto.
Qed.

Lemma fd_kept_srcs w w' : srcs w' = srcs w -> fd_kept w w'.
Proof. intros Heq q s' Hs. rewrite Heq in Hs. eauto. Qed.

Lemma frame_fd_kept w w' : frame w w' -> fd_kept w w'.
Proof.
  intros (_ & _ & Hsrc & _) q s' Hs. specialize (Hsrc q). rewrite Hs in Hsrc.
  destruct (srcs w !! q) as [s|]; [|done]. exists s. split; [done|]. left.
  simpl in Hsrc. change (fd (erase_link s') = fd (erase_link s)). congruence.
Qed.

Lemma update_source_fd_kept p f w w' :
  (forall s, fd (f s) = fd s \/ fd (f s) = (-1)%Z) ->
  update_source p f w = Done w' -> fd_kept w w'.
Proof.
  intros Hf H. unfold update_source in H. inv_bind H.
  match goal with H : get_source _ _ = Done ?x |- _ =>
    apply get_source_Done in H; rename H into Hs; rename x into s end.
  injection H as <-. intros q s' Hq. simpl in Hq.
  destruct (decide (q = p)) as [->|Hne].
  - rewrite lookup_insert_eq in Hq. injection Hq as <-. eauto.
  - rewrite lookup_insert_ne in Hq by done. eauto.
Qed.

Lemma xclose_fd_kept f w : (xclose f w).1 = (-1)%Z /\ fd_kept w (xclose f w).2.
Proof. split; [done|]. apply fd_kept_srcs. unfold xclose. simpl. by case_decide. Qed.

Lemma source_unref_fd_kept src w w' : source_unref src w = Done w' -> fd_kept w w'.
Proof.
  destruct src as [p|]; unfold source_unref; [|intros [= <-]; apply fd_kept_refl].
  intros H. inv_bind H.
  match goal with H : update_source _ _ _ = Done _ |- _ =>
    apply update_source_fd_kept in H as Hq1; [|intros; simpl; tauto] end.
  case_decide; [|by injection H as <-].
  inv_bind H. unfold free_source in H. inv_bind H. injection H as <-.
  match goal with H : source_destroy _ _ = Done _ |- _ => rename H into Hdes end.
  unfold source_destroy in Hdes. inv_bind Hdes.
  apply (fd_kept_trans _ _ _ Hq1).
  match goal with |- fd_kept ?a (with_srcs _ ?b) =>
    assert (fd_kept a b) as Hab end.
  { case_decide; [|injection Hdes as <-; apply fd_kept_refl].
    match type of Hdes with (let '(_, _) := xclose ?f ?v in _) = _ =>
      destruct (xclose_fd_kept f v) as [Hx1 Hx2]; destruct (xclose f v) as [f' wx] end.
    simpl in Hx1, Hx2. subst f'.
    apply update_source_fd_kept in Hdes; [|intros; simpl; tauto].
    eauto using fd_kept_trans. }
  intros q s' Hq. simpl in Hq. apply lookup_delete_Some in Hq as [_ Hq]. by apply Hab.
Qed.

Lemma source_remove_fd_kept src w w' : source_remove src w = Done w' -> fd_kept w w'.
Proof.
  destruct src as [p|]; unfold source_remove; [|intros [= <-]; apply fd_kept_refl].
  intros H. inv_bind H.
  destruct (negb _); [injection H as <-; apply fd_kept_refl|].
  inv_bind H.
  match goal with
  | H : (if decide _ then _ else _) = Done ?y |- _ =>
      assert (fd_kept w y) as Hb; [|clear H]
  end.
  { case_decide as Hcb.
    - match goal with H : (let '(_, _) := xclose ?f ?v in _) = Done _ |- _ =>
        destruct (xclose_fd_kept f v) as [Hx1 Hx2]; destruct (xclose f v) as [f' wx];
        simpl in Hx1, Hx2; subst f';
        apply update_source_fd_kept in H; [|intros; simpl; tauto] end.
      eapply fd_kept_trans; [|done]. eapply fd_kept_trans; [|done]. by apply fd_kept_srcs.
    - match goal with H : Done _ = Done _ |- _ => injection H as <- end. by apply fd_kept_srcs. }
  repeat match goal with
  | H : update_source _ _ _ = Done _ |- _ =>
      apply update_source_fd_kept in H; [|intros; simpl; tauto]
  | H : source_unref _ _ = Done _ |- _ => apply source_unref_fd_kept in H
  | H : list_remove _ _ = Done _ |- _ => apply list_remove_frame, frame_fd_kept in H
  | H : list_append _ _ _ = Done _ |- _ => apply list_append_frame, frame_fd_kept in H
  end.
  eauto 10 using fd_kept_trans.
Qed.

Lemma exec_calls_fd_kept cs : forall w w', exec_calls cs w = Done w' -> fd_kept w w'.
Proof.
  induction cs as [|c cs IH]; intros w w' H; simpl in H; [injection H as <-; apply fd_kept_refl|].
  inv_bind H. apply IH in H. eapply fd_kept_trans; [|done].
  destruct c; unfold exec_call in *;
    [by eapply source_remove_fd_kept | by eapply source_unref_fd_kept].
Qed.

(** A relation that every run of the body keeps is kept by the loop. *)
Lemma list_for_each_safe_from_rel (R : world -> world -> Prop) body :
  (forall w, R w w) -> (forall w1 w2 w3, R w1 w2 -> R w2 w3 -> R w1 w3) ->
  (forall n w w', body n w = Done w' -> R w w') ->
  forall fuel head pos tmp w w',
    list_for_each_safe_from fuel head pos tmp body w = Done w' -> R w w'.
Proof.
  intros Hrefl Htrans Hbody fuel.
  induction fuel as [|fuel IH]; intros head pos tmp w w' H; simpl in H; [done|].
  case_decide; [injection H as <-; apply Hrefl|].
  inv_bind H. apply IH in H.
  match goal with H : body _ _ = Done _ |- _ => apply Hbody in H end.
  eauto.
Qed.

Lemma list_for_each_safe_rel (R : world -> world -> Prop) body :
  (forall w, R w w) -> (forall w1 w2 w3, R w1 w2 -> R w2 w3 -> R w1 w3) ->
  (forall n w w', body n w = Done w' -> R w w') ->
  forall fuel head w w', list_for_each_safe fuel head body w = Done w' -> R w w'.
Proof.
  intros Hrefl Htrans Hbody fuel head w w' H.
  unfold list_for_each_safe in H. inv_bind H.
  by eapply list_for_each_safe_from_rel.
Qed.

Lemma reap_fd_kept n w w' : reap n w = Done w' -> fd_kept w w'.
Proof.
  unfold reap. intros H. inv_bind H.
  repeat match goal with
  | H : list_remove _ _ = Done _ |- _ => apply list_remove_frame, frame_fd_kept in H
  | H : list_init _ _ = Done _ |- _ => apply list_init_frame, frame_fd_kept in H
  end.
  apply source_unref_fd_kept in H. eauto using fd_kept_trans.
Qed.

Lemma fd_kept_gone w w' q : fd_kept w w' -> gone w q -> gone w' q.
Proof.
  intros Hk Hg. unfold gone in *. destruct (srcs w' !! q) as [s'|] eqn:Hs'; [|done].
  destruct (Hk q s' Hs') as (s & Hs & Hfd). rewrite Hs in Hg. destruct Hfd; congruence.
Qed.

Lemma dispatch_events_gone evs q : forall w w',
  dispatch_events evs w = Done w' -> gone w q ->
  gone w' q /\ exists new, dispatched w' = dispatched w ++ new /\ q ∉ new.
Proof.
  induction evs as [|e evs IH]; intros w w' H Hg; simpl in H.
  - injection H as <-. split; [done|]. exists []. split; [by rewrite app_nil_r | apply not_elem_of_nil].
  - inv_bind H.
    match goal with H : get_source _ _ = Done ?x |- _ =>
      apply get_source_Done in H; rename H into Hs; rename x into s end.
    match goal with H : (if decide _ then _ else _) = Done ?y |- _ =>
      rename H into Hstep; rename y into w1 end.
    case_decide as Hfd.
    + injection Hstep as <-. by apply IH.
    + assert (e <> q) as Hne.
      { intros ->. unfold gone in Hg. rewrite Hs in Hg. done. }
      apply exec_calls_fd_kept in Hstep as Hk.
      apply exec_calls_quiet in Hstep as [Hd _]. simpl in Hd.
      assert (gone w1 q) as Hg1.
      { apply (fd_kept_gone _ _ _ Hk). unfold gone in *. done. }
      destruct (IH _ _ H Hg1) as (Hg' & new & Hnew & Hq).
      split; [done|]. exists (e :: new). split.
      * rewrite Hnew, Hd, <- app_assoc. done.
      * rewrite elem_of_cons. intros [?|?]; [congruence|done].
Qed.

(** X19: a source whose descriptor is closed gets no callback.  Removing an
    active source under close-on-remove closes its descriptor at once, so a
    source removed by an earlier callback of a pass is skipped when its own
    event comes up later in the same pass, and in every pass after. *)
Theorem sink_dispatch_skips_closed (w : world) (q : nat) :
  (forall mem spare k, reactor_inv w mem spare -> q ∈ mem (SinkSources k) ->
     (forall s, srcs w !! q = Some s -> close_behavior s = SOURCE_CLOSE_FD_ON_REMOVE) ->
     exists w', source_remove (Some q) w = Done w' /\ gone w' q)
  /\ (gone w q ->
      (forall evs w', dispatch_events evs w = Done w' ->
         gone w' q /\ exists new, dispatched w' = dispatched w ++ new /\ q ∉ new)
      /\ (forall fuel k ready rc w', sink_dispatch fuel k (EpollReady ready) w = Done (rc, w') ->
         gone w' q /\ exists new, dispatched w' = dispatched w ++ new /\ q ∉ new)).
Proof.
  split.
  - intros mem spare k Hinv Hq Hcb.
    destruct (source_remove_active w mem spare k q Hinv Hq)
      as (w' & s & snk & L1 & L2 & Hs & _ & _ & Hrun & _ & _ & _ & Hf & _).
    exists w'. split; [done|]. apply fields_Some in Hf as (s' & Hs' & Heq).
    unfold gone. rewrite Hs'. apply (f_equal fd) in Heq. simpl in Heq.
    rewrite Heq. rewrite decide_True by (by apply Hcb). done.
  - intros Hg. split; [intros evs w' Hrun; by apply (dispatch_events_gone evs q w w')|].
    intros fuel k ready rc w' H. unfold sink_dispatch in H. inv_bind H. injection H as <- <-.
    match goal with H : dispatch_events _ _ = Done ?y |- _ =>
      apply dispatch_events_gone with (q := q) in H as (Hg1 & new & Hnew & Hq); [|done];
      rename y into w1 end.
    match goal with H : list_for_each_safe _ _ _ _ = Done ?y |- _ =>
      rename H into Hloop; rename y into w2 end.
    assert (fd_kept w1 w2 /\ dispatched w2 = dispatched w1) as [Hk Hd].
    { split.
      - apply (list_for_each_safe_rel fd_kept reap fd_kept_refl fd_kept_trans reap_fd_kept
                 _ _ _ _ Hloop).
      - apply (list_for_each_safe_rel quiet reap quiet_refl quiet_trans reap_quiet
                 _ _ _ _ Hloop). }
    split; [by eapply fd_kept_gone|]. exists new. split; [|done]. by rewrite Hd, Hnew.
Qed.

Lemma load_is_head w h : is_head w h <-> (alive w h /\ forall p, h <> SourceLink p).
Proof.
  destruct h as [k|k|p]; simpl.
  - unfold alive. simpl. unfold get_sink. split.
    + intros [s ->]. split; [by eexists | done].
    + intros [[v Hv] _]. destruct (sinks w !! k); [by eexists | done].
  - unfold alive. simpl. unfold get_sink. split.
    + intros [s ->]. split; [by eexists | done].
    + intros [[v Hv] _]. destruct (sinks w !! k); [by eexists | done].
  - split; [done|]. intros [_ H]. by apply (H p).
Qed.

(** A change of the heap that no [struct list] and no source sees. *)
Lemma reactor_inv_loads w w0 mem B :
  reactor_inv w mem B -> srcs w0 = srcs w -> (forall m, load m w0 = load m w) ->
  reactor_inv w0 mem B.
Proof.
  intros [Hok HB Hact Hpend Hdet] Hsr Hload.
  assert (forall m, alive w0 m <-> alive w m) as Hal.
  { intros m. unfold alive. by rewrite Hload. }
  split; [|done|by rewrite Hsr..].
  apply (lists_ok_same w); [done| | |].
  - intros h. rewrite !load_is_head, Hal. done.
  - intros m _. apply Hload.
  - intros h q Hq. apply Hal. by eapply mem_alive.
Qed.

Lemma removal_calls_erase epfd s : removal_calls epfd (erase_link s) = removal_calls epfd s.
Proof. done. Qed.

Lemma release_calls_erase s : release_calls (erase_link s) = release_calls s.
Proof. done. Qed.

Lemma cons_app_NoDup {A} (a : A) (L L1 L2 : list A) :
  NoDup (a :: L) -> a :: L = L1 ++ a :: L2 -> L1 = [] /\ L2 = L.
Proof.
  intros Hnd Heq. destruct L1 as [|y L1]; simpl in Heq.
  - injection Heq as <-. done.
  - injection Heq as <- ->. apply NoDup_cons in Hnd as [Hin _]. exfalso. apply Hin.
    rewrite elem_of_app, elem_of_cons. tauto.
Qed.

Lemma removed_erase s : removed (erase_link s) = erase_link (removed s).
Proof. unfold removed. simpl. by case_decide. Qed.

Lemma the_sources_ext w w' L :
  (forall x, x ∈ L -> fields w' x = fields w x) -> the_sources w' L = the_sources w L.
Proof.
  induction L as [|x L IH]; intros H; [done|]. unfold the_sources in *. cbn [omap list_omap].
  rewrite (H x) by (apply elem_of_cons; tauto).
  rewrite IH; [done|]. intros y Hy. apply H, elem_of_cons. tauto.
Qed.

(** The first loop of [sink_destroy]: every active source is removed. *)
Lemma remove_loop k epfd A : forall w mem B fuel tmp,
  reactor_inv w mem B -> mem (SinkSources k) = A -> epollfd <$> sinks w !! k = Some epfd ->
  length A < fuel ->
  (forall q A', A = q :: A' -> tmp = hd (SinkSources k) (SourceLink <$> A')) ->
  exists w',
    list_for_each_safe_from fuel (SinkSources k) (hd (SinkSources k) (SourceLink <$> A)) tmp
      remove_body w = Done w'
    /\ reactor_inv w' (mem_set (SinkRemoved k) (mem (SinkRemoved k) ++ A)
                         (mem_set (SinkSources k) [] mem)) B
    /\ (forall x, fields w' x = if decide (x ∈ A) then removed <$> fields w x else fields w x)
    /\ (forall k', erase_heads <$> sinks w' !! k' = erase_heads <$> sinks w !! k')
    /\ dispatched w' = dispatched w
    /\ trace w' = trace w ++ concat (removal_calls epfd <$> the_sources w A).
Proof.
  induction A as [|a A IH]; intros w mem B fuel tmp Hinv HA Hk Hfuel Htmp.
  - destruct fuel as [|fuel]; [simpl in Hfuel; lia|].
    cbn [list_for_each_safe_from hd fmap list_fmap]. rewrite decide_True by done.
    exists w. split; [done|]. split; [|split; [|split; [done|split; [done|]]]].
    + apply (reactor_inv_ext w mem); [|done]. intros h. unfold mem_set.
      repeat case_decide; subst; rewrite ?app_nil_r; done.
    + intros x. rewrite decide_False; [done|]. apply not_elem_of_nil.
    + simpl. by rewrite app_nil_r.
  - destruct fuel as [|fuel]; [simpl in Hfuel; lia|].
    specialize (Htmp a A eq_refl). subst tmp.
    destruct (sinks w !! k) as [snk|] eqn:Hsnk; [|done]. injection Hk as Hep.
    assert (is_head w (SinkSources k)) as Hh by (by eexists).
    assert (NoDup (a :: A)) as Hnd.
    { rewrite <- HA. apply (NoDup_fmap_mem w); [apply (inv_lists _ _ _ Hinv) | done]. }
    assert (a ∈ mem (SinkSources k)) as Ha by (rewrite HA; apply elem_of_cons; tauto).
    destruct (source_remove_active w mem B k a Hinv Ha)
      as (w1 & s & snk' & L1 & L2 & Hs & Hk' & HL & Hrun1 & Hinv1 & Ht1 & Hd1 & Hf1 & Hother1 & Hsinks1).
    assert (snk' = snk) as -> by congruence.
    rewrite HA in HL. destruct (cons_app_NoDup _ _ _ _ Hnd HL) as [-> ->]. simpl app in Hinv1.
    set (mem1 := mem_set (SinkRemoved k) (mem (SinkRemoved k) ++ [a])
                   (mem_set (SinkSources k) A mem)) in *.
    assert (epollfd <$> sinks w1 !! k = Some epfd) as Hk1.
    { specialize (Hsinks1 k). rewrite Hsnk in Hsinks1.
      destruct (sinks w1 !! k) as [snk1|]; [|done].
      simpl in Hsinks1 |- *. f_equal. rewrite <- Hep.
      change (epollfd (erase_heads snk1) = epollfd (erase_heads snk)). congruence. }
    assert (is_head w1 (SinkSources k)) as Hh1.
    { simpl. by apply (fmap_is_Some epollfd); eexists. }
    assert (mem1 (SinkSources k) = A) as HA1.
    { subst mem1. rewrite mem_set_same by done. by rewrite mem_set_at. }
    pose proof (ok_dll _ _ (inv_lists _ _ _ Hinv1) _ Hh1) as Hd. rewrite HA1 in Hd.
    assert (exists tmp', next_of w1 (hd (SinkSources k) (SourceLink <$> A)) = Some tmp'
              /\ forall q' A', A = q' :: A' -> tmp' = hd (SinkSources k) (SourceLink <$> A'))
      as (tmp' & Hnext & Htmp').
    { destruct A as [|q2 A2].
      - exists (SinkSources k). split; [|done]. apply (dll_next_head _ _ _ Hd).
      - eexists. split; [apply (dll_next_first _ _ _ _ Hd)|]. by intros q' A' [= <- <-]. }
    destruct (load_next _ _ _ Hnext) as (tv & Htv & Htvn).
    destruct (IH w1 mem1 B fuel tmp' Hinv1 HA1 Hk1)
      as (w2 & Hrun2 & Hinv2 & Hf2 & Hsinks2 & Hd2 & Ht2); [simpl in Hfuel; lia | done |].
    exists w2. split.
    { cbn [list_for_each_safe_from hd fmap list_fmap]. rewrite decide_False by done.
      change (remove_body (SourceLink a) w) with (source_remove (Some a) w).
      rewrite Hrun1. cbn [mbind outcome_bind]. rewrite Htv. cbn [mbind outcome_bind].
      rewrite Htvn. cbn [deref mbind outcome_bind]. exact Hrun2. }
    apply NoDup_cons in Hnd as [HaA _].
    assert (fields w a = Some (erase_link s)) as Hfa by (by apply fields_of).
    split; [|split; [|split; [|split]]].
    + eapply reactor_inv_ext; [|exact Hinv2]. intros h. subst mem1. unfold mem_set.
      repeat case_decide; subst; try done; by rewrite <- app_assoc.
    + intros x. rewrite Hf2. destruct (decide (x = a)) as [->|Hxa].
      * rewrite decide_False by done. rewrite decide_True by (apply elem_of_cons; tauto).
        rewrite Hf1, Hfa. simpl. f_equal. fold (removed s). by rewrite removed_erase.
      * rewrite (Hother1 x Hxa). destruct (decide (x ∈ A)) as [Hx|Hx].
        -- by rewrite decide_True by (apply elem_of_cons; tauto).
        -- by rewrite decide_False by (rewrite elem_of_cons; tauto).
    + intros k'. by rewrite Hsinks2, Hsinks1.
    + congruence.
    + rewrite Ht2, Ht1, Hep. rewrite (the_sources_ext w w1 A).
      2:{ intros x Hx. apply Hother1. intros ->. done. }
      unfold the_sources. cbn [omap list_omap]. rewrite Hfa.
      cbn [fmap list_fmap concat]. rewrite removal_calls_erase.
      unfold removal_calls at 2. rewrite <- !app_assoc. done.
Qed.

(** What [source_unref] does to an inactive source. *)
Lemma source_unref_effect w q s :
  srcs w !! q = Some s -> is_active s = false -> (1 <= refcount s < 2 ^ 32)%Z ->
  exists w', source_unref (Some q) w = Done w'
    /\ sinks w' = sinks w /\ dispatched w' = dispatched w
    /\ trace w' = trace w ++ release_calls s
    /\ (forall x, srcs w' !! x = if decide (x = q) then released (Some s) else srcs w !! x).
Proof.
  intros Hs Ha Hr. destruct (decide (refcount s = 1)%Z) as [H1|H1].
  - rewrite (source_unref_last _ _ _ Hs H1 Ha). eexists. split; [reflexivity|].
    unfold release_calls, released. rewrite (decide_True (P := refcount s = 1%Z)) by done.
    assert (forall x, delete q (srcs w) !! x = if decide (x = q) then None else srcs w !! x)
      as Hdel.
    { intros x. case_decide as Hx; [subst x; by rewrite lookup_delete_eq|].
      by rewrite lookup_delete_ne. }
    destruct (decide (close_behavior s = SOURCE_CLOSE_FD_ON_DESTROY /\ fd s <> (-1)%Z)) as [Hc|Hc].
    + rewrite decide_True by tauto. simpl. repeat (split; [done|]). intros x. by apply Hdel.
    + rewrite decide_False by tauto. simpl. rewrite app_nil_r.
      repeat (split; [done|]). intros x. by apply Hdel.
  - rewrite (source_unref_keep _ _ _ Hs) by lia. eexists. split; [reflexivity|].
    unfold release_calls, released. rewrite (decide_False (P := refcount s = 1%Z)) by done.
    rewrite decide_False by tauto. simpl. rewrite app_nil_r.
    repeat (split; [done|]). intros x. case_decide as Hx.
    + subst x. by rewrite lookup_insert_eq.
    + by rewrite lookup_insert_ne.
Qed.

Lemma chain_same w w' h L :
  chain w h L -> (forall x, x ∈ L -> next_of w' x = next_of w x) -> chain w' h L.
Proof.
  induction L as [|x L IH]; [done|]. intros [Hn Hc] Hsame. split.
  - rewrite Hsame; [done|]. apply elem_of_cons. tauto.
  - apply IH; [done|]. intros y Hy. apply Hsame, elem_of_cons. tauto.
Qed.

Lemma path_chain w h L : path w (L ++ [h]) -> chain w h L.
Proof.
  induction L as [|x L IH]; [done|]. intros Hp. split.
  - destruct L as [|y L]; simpl in Hp |- *; by destruct Hp as [[? _] _].
  - apply IH. destruct L as [|y L]; [done|]. simpl in Hp |- *. tauto.
Qed.

(** The second loop of [sink_destroy]: every pending source loses a
    reference; its link is left as it is. *)
Lemma unref_loop h R : forall w fuel tmp,
  (forall p, h <> SourceLink p) ->
  chain w h (SourceLink <$> R) -> is_Some (next_of w h) -> NoDup R ->
  (forall q, q ∈ R -> exists s, srcs w !! q = Some s /\ is_active s = false
                                /\ (1 <= refcount s < 2 ^ 32)%Z) ->
  length R < fuel ->
  (forall q R', R = q :: R' -> tmp = hd h (SourceLink <$> R')) ->
  exists w',
    list_for_each_safe_from fuel h (hd h (SourceLink <$> R)) tmp unref_body w = Done w'
    /\ sinks w' = sinks w /\ dispatched w' = dispatched w
    /\ (forall x, srcs w' !! x = if decide (x ∈ R) then released (srcs w !! x)
                                 else srcs w !! x)
    /\ trace w' = trace w ++ concat (release_calls <$> the_sources w R).
Proof.
  induction R as [|q R IH]; intros w fuel tmp Hh Hc Hhn Hnd Hsrc Hfuel Htmp.
  - destruct fuel as [|fuel]; [simpl in Hfuel; lia|].
    cbn [list_for_each_safe_from hd fmap list_fmap]. rewrite decide_True by done.
    exists w. split; [done|]. split; [done|]. split; [done|]. split.
    + intros x. rewrite decide_False; [done|]. apply not_elem_of_nil.
    + simpl. by rewrite app_nil_r.
  - destruct fuel as [|fuel]; [simpl in Hfuel; lia|].
    specialize (Htmp q R eq_refl). subst tmp.
    apply NoDup_cons in Hnd as [HqR Hnd].
    destruct (Hsrc q) as (s & Hs & Ha & Hr); [apply elem_of_cons; tauto|].
    destruct (source_unref_effect w q s Hs Ha Hr) as (w1 & Hrun1 & Hk1 & Hd1 & Ht1 & Hs1).
    assert (forall m, m <> SourceLink q -> load m w1 = load m w) as Hload.
    { intros m Hm. destruct m as [k|k|x]; simpl; unfold get_sink, get_source.
      - by rewrite Hk1.
      - by rewrite Hk1.
      - rewrite Hs1, decide_False by congruence. done. }
    assert (forall m, m <> SourceLink q -> next_of w1 m = next_of w m) as Hnext1.
    { intros m Hm. unfold next_of. by rewrite Hload. }
    destruct Hc as [_ Hc]. fold (@fmap list _ nat node SourceLink R) in Hc.
    assert (chain w1 h (SourceLink <$> R)) as Hc1.
    { apply (chain_same w); [done|]. intros x Hx. apply Hnext1. intros ->.
      apply list_elem_of_fmap in Hx as (y & [= <-] & Hy). done. }
    assert (is_Some (next_of w1 h)) as Hhn1 by (rewrite Hnext1; [done|apply Hh]).
    assert (exists tmp', next_of w1 (hd h (SourceLink <$> R)) = Some tmp'
              /\ forall q' R', R = q' :: R' -> tmp' = hd h (SourceLink <$> R'))
      as (tmp' & Hnext & Htmp').
    { destruct R as [|q2 R2].
      - destruct Hhn1 as [t Ht]. exists t. done.
      - destruct Hc1 as [Hn2 _]. eexists. split; [exact Hn2|]. by intros q' R' [= <- <-]. }
    destruct (load_next _ _ _ Hnext) as (tv & Htv & Htvn).
    destruct (IH w1 fuel tmp' Hh Hc1 Hhn1 Hnd)
      as (w2 & Hrun2 & Hk2 & Hd2 & Hs2 & Ht2); [ | simpl in Hfuel; lia | done |].
    { intros x Hx. rewrite Hs1, decide_False by (intros ->; done).
      apply Hsrc, elem_of_cons. tauto. }
    exists w2. split.
    { cbn [list_for_each_safe_from hd fmap list_fmap]. rewrite decide_False by apply not_eq_sym, Hh.
      change (unref_body (SourceLink q) w) with (source_unref (Some q) w).
      rewrite Hrun1. cbn [mbind outcome_bind]. rewrite Htv. cbn [mbind outcome_bind].
      rewrite Htvn. cbn [deref mbind outcome_bind]. exact Hrun2. }
    split; [congruence|]. split; [congruence|]. split.
    + intros x. rewrite Hs2, Hs1. destruct (decide (x = q)) as [->|Hxq].
      * rewrite decide_False by done. rewrite decide_True by (apply elem_of_cons; tauto).
        by rewrite Hs.
      * destruct (decide (x ∈ R)) as [Hx|Hx].
        -- by rewrite decide_True by (apply elem_of_cons; tauto).
        -- by rewrite decide_False by (rewrite elem_of_cons; tauto).
    + rewrite Ht2, Ht1. rewrite (the_sources_ext w w1 R).
      2:{ intros x Hx. unfold fields. rewrite Hs1, decide_False by (intros ->; done). done. }
      unfold the_sources. cbn [omap list_omap]. rewrite (fields_of _ _ _ Hs).
      cbn [fmap list_fmap concat]. rewrite release_calls_erase.
      by rewrite <- !app_assoc.
Qed.

Lemma remove_all w mem B k epfd fuel :
  reactor_inv w mem B -> epollfd <$> sinks w !! k = Some epfd ->
  length (mem (SinkSources k)) < fuel ->
  exists w',
    list_for_each_safe fuel (SinkSources k) remove_body w = Done w'
    /\ reactor_inv w' (mem_set (SinkRemoved k) (mem (SinkRemoved k) ++ mem (SinkSources k))
                         (mem_set (SinkSources k) [] mem)) B
    /\ (forall x, fields w' x = if decide (x ∈ mem (SinkSources k))
                                then removed <$> fields w x else fields w x)
    /\ (forall k', erase_heads <$> sinks w' !! k' = erase_heads <$> sinks w !! k')
    /\ dispatched w' = dispatched w
    /\ trace w' = trace w ++ concat (removal_calls epfd <$> the_sources w (mem (SinkSources k))).
Proof.
  intros Hinv Hk Hfuel.
  assert (is_head w (SinkSources k)) as Hh.
  { simpl. by apply (fmap_is_Some epollfd); eexists. }
  pose proof (ok_dll _ _ (inv_lists _ _ _ Hinv) _ Hh) as Hd.
  destruct (load_next _ _ _ (dll_next_head _ _ _ Hd)) as (hv & Hhv & Hhvn).
  assert (exists tmp, next_of w (hd (SinkSources k) (SourceLink <$> mem (SinkSources k))) = Some tmp
            /\ forall q R', mem (SinkSources k) = q :: R' -> tmp = hd (SinkSources k) (SourceLink <$> R'))
    as (tmp & Hnext & Htmp).
  { destruct (mem (SinkSources k)) as [|q R] eqn:HR.
    - exists (SinkSources k). split; [|done]. apply (dll_next_head _ _ _ Hd).
    - eexists. split; [apply (dll_next_first _ _ _ _ Hd)|]. by intros q' R' [= <- <-]. }
  destruct (load_next _ _ _ Hnext) as (pv & Hpv & Hpvn).
  destruct (remove_loop k epfd (mem (SinkSources k)) w mem B fuel tmp Hinv eq_refl Hk Hfuel Htmp)
    as (w' & Hrun & ?).
  exists w'. split; [|done].
  unfold list_for_each_safe. rewrite Hhv. cbn [mbind outcome_bind].
  rewrite Hhvn. cbn [deref mbind outcome_bind]. rewrite Hpv. cbn [mbind outcome_bind].
  rewrite Hpvn. cbn [deref mbind outcome_bind]. exact Hrun.
Qed.

Lemma unref_all w mem B k fuel :
  reactor_inv w mem B -> is_head w (SinkRemoved k) -> mem (SinkSources k) = [] ->
  length (mem (SinkRemoved k)) < fuel ->
  exists w',
    list_for_each_safe fuel (SinkRemoved k) unref_body w = Done w'
    /\ sinks w' = sinks w /\ dispatched w' = dispatched w
    /\ (forall x, fields w' x = if decide (x ∈ mem (SinkRemoved k))
                                then released (fields w x) else fields w x)
    /\ trace w' = trace w ++ concat (release_calls <$> the_sources w (mem (SinkRemoved k))).
Proof.
  intros Hinv Hh _ Hfuel. set (h := SinkRemoved k) in *.
  assert (NoDup (mem h)) as Hnd.
  { apply (NoDup_fmap_mem w); [apply (inv_lists _ _ _ Hinv) | done]. }
  assert (forall q, q ∈ mem h -> exists s, srcs w !! q = Some s /\ is_active s = false
                                          /\ (1 <= refcount s < 2 ^ 32)%Z) as Hsrc.
  { intros q Hq. destruct (inv_pending _ _ _ Hinv k q Hq) as (s & Hs & Ha & Hr).
    exists s. split; [done|]. split; [done|]. pose proof (inv_spare _ _ _ Hinv q). lia. }
  pose proof (ok_dll _ _ (inv_lists _ _ _ Hinv) _ Hh) as Hd.
  remember (mem h) as R eqn:HR0. clear HR0.
  assert (chain w h (SourceLink <$> R)) as Hc.
  { apply path_chain. destruct Hd as [_ Hp].
    change (path w ([h] ++ (SourceLink <$> R) ++ [h])) in Hp.
    destruct (SourceLink <$> R) as [|x L]; [done|]. simpl in Hp |- *. tauto. }
  pose proof (dll_next_head _ _ _ Hd) as Hn.
  destruct (load_next _ _ _ Hn) as (hv & Hhv & Hhvn).
  assert (exists tmp, next_of w (hd h (SourceLink <$> R)) = Some tmp
            /\ forall q R', R = q :: R' -> tmp = hd h (SourceLink <$> R'))
    as (tmp & Hnext & Htmp).
  { destruct R as [|q R'].
    - exists h. done.
    - destruct Hc as [Hc _]. eexists. split; [exact Hc|]. by intros q' R'' [= <- <-]. }
  destruct (load_next _ _ _ Hnext) as (pv & Hpv & Hpvn).
  assert (forall p, h <> SourceLink p) as Hhp by (intros p; subst h; discriminate).
  assert (is_Some (next_of w h)) as Hhn' by (rewrite Hn; by eexists).
  destruct (unref_loop h R w fuel tmp Hhp Hc Hhn' Hnd Hsrc Hfuel Htmp)
    as (w' & Hrun & Hk' & Hd' & Hs' & Ht').
  - exists w'. split.
    { unfold list_for_each_safe. rewrite Hhv. cbn [mbind outcome_bind].
      rewrite Hhvn. cbn [deref mbind outcome_bind]. rewrite Hpv. cbn [mbind outcome_bind].
      rewrite Hpvn. cbn [deref mbind outcome_bind]. exact Hrun. }
    split; [done|]. split; [done|]. split; [|done].
    intros x. unfold fields. rewrite Hs'. case_decide; [|done]. by rewrite released_erase.
Qed.

Lemma the_sources_app w L1 L2 : the_sources w (L1 ++ L2) = the_sources w L1 ++ the_sources w L2.
Proof. unfold the_sources. apply omap_app. Qed.

Lemma the_sources_fmap w w' f L :
  (forall x, x ∈ L -> fields w' x = f <$> fields w x) ->
  the_sources w' L = f <$> the_sources w L.
Proof.
  induction L as [|x L IH]; intros H; [done|]. unfold the_sources in *. cbn [omap list_omap].
  rewrite (H x) by (apply elem_of_cons; tauto).
  rewrite IH by (intros y Hy; apply H, elem_of_cons; tauto).
  by destruct (fields w x).
Qed.

(** X20: dropping the only reference of a sink destroys it: every active
    source is removed ([EPOLL_CTL_DEL], and its descriptor closed under
    close-on-remove), then every source of the pending list, the ones just
    removed included, loses the reference of the list and is freed if that
    was its last, then the epoll descriptor is closed and the sink freed.
    The callbacks are not invoked and the other sinks are not touched.  The
    null pointer is ignored. *)
Theorem sink_unref_releases (w : world) (mem : node -> list nat) (B : nat -> Z)
    (k : nat) (snk : sink) (fuel : nat) :
  reactor_inv w mem B -> sinks w !! k = Some snk -> sink_refcount snk = 1%Z ->
  let A := mem (SinkSources k) in
  let P := mem (SinkRemoved k) in
  length A + length P < fuel ->
  sink_unref fuel None w = Done w
  /\ exists w',
      sink_unref fuel (Some k) w = Done w'
      /\ sinks w' !! k = None
      /\ (forall k', k' <> k -> erase_heads <$> sinks w' !! k' = erase_heads <$> sinks w !! k')
      /\ (forall x, fields w' x =
            if decide (x ∈ A) then released (removed <$> fields w x)
            else if decide (x ∈ P) then released (fields w x)
            else fields w x)
      /\ dispatched w' = dispatched w
      /\ trace w' = trace w
           ++ concat (removal_calls (epollfd snk) <$> the_sources w A)
           ++ concat (release_calls <$> (the_sources w P ++ (removed <$> the_sources w A)))
           ++ (if decide (epollfd snk <> (-1)%Z) then [SysClose (epollfd snk)] else []).
Proof.
  intros Hinv Hk Hr A P Hfuel. split; [done|].
  set (snk0 := set_sink_refcount 0 snk).
  set (w0 := with_sinks (<[k := snk0]> (sinks w)) w).
  assert (forall m, load m w0 = load m w) as Hload0.
  { intros m. destruct m as [k'|k'|p]; simpl; unfold get_sink, get_source; simpl; [| |done].
    - destruct (decide (k' = k)) as [->|Hne].
      + by rewrite lookup_insert_eq, Hk.
      + by rewrite lookup_insert_ne.
    - destruct (decide (k' = k)) as [->|Hne].
      + by rewrite lookup_insert_eq, Hk.
      + by rewrite lookup_insert_ne. }
  assert (reactor_inv w0 mem B) as Hinv0 by (by apply (reactor_inv_loads w)).
  assert (sinks w0 !! k = Some snk0) as Hk0 by (simpl; by rewrite lookup_insert_eq).
  destruct (remove_all w0 mem B k (epollfd snk) fuel Hinv0)
    as (w1 & Hrun1 & Hinv1 & Hf1 & Hsinks1 & Hd1 & Ht1); [by rewrite Hk0 | fold A; lia |].
  fold A P in Hinv1, Hf1, Ht1.
  set (mem1 := mem_set (SinkRemoved k) (P ++ A) (mem_set (SinkSources k) [] mem)) in *.
  assert (exists snk1, sinks w1 !! k = Some snk1 /\ epollfd snk1 = epollfd snk) as (snk1 & Hk1 & Hep1).
  { specialize (Hsinks1 k). rewrite Hk0 in Hsinks1.
    destruct (sinks w1 !! k) as [snk1|]; [|done]. exists snk1. split; [done|].
    simpl in Hsinks1. change (epollfd (erase_heads snk1) = epollfd (erase_heads snk0)).
    congruence. }
  assert (mem1 (SinkRemoved k) = P ++ A) as HR1 by (subst mem1; by rewrite mem_set_at).
  destruct (unref_all w1 mem1 B k fuel Hinv1)
    as (w2 & Hrun2 & Hsinks2 & Hd2 & Hf2 & Ht2).
  { by eexists. }
  { subst mem1. rewrite mem_set_same by done. by rewrite mem_set_at. }
  { rewrite HR1, length_app. lia. }
  rewrite HR1 in Hf2, Ht2.
  exists (with_sinks (delete k (sinks w2)) (xclose (epollfd snk1) w2).2). split.
  { unfold sink_unref, get_sink. rewrite Hk. cbn [mbind outcome_bind]. rewrite Hr.
    rewrite bool_decide_true by lia. cbn [assert mbind outcome_bind].
    unfold update_sink, get_sink. rewrite Hk. cbn [mbind outcome_bind].
    change (wrap_u32 (1 - 1)) with 0%Z. fold snk0 w0. rewrite decide_True by done.
    unfold sink_destroy. rewrite Hrun1. cbn [mbind outcome_bind].
    rewrite Hrun2. cbn [mbind outcome_bind]. unfold get_sink at 1. rewrite Hsinks2, Hk1.
    cbn [mbind outcome_bind]. unfold free_sink, get_sink.
    replace (sinks (xclose (epollfd snk1) w2).2) with (sinks w2)
      by (unfold xclose; simpl; by case_decide).
    rewrite Hsinks2, Hk1. cbn [mbind outcome_bind]. done. }
  assert (forall x, fields w0 x = fields w x) as Hf0 by done.
  assert (forall x, x ∈ A -> x ∉ P) as Hdis.
  { intros x HxA HxP. pose proof (ok_disjoint _ _ (inv_lists _ _ _ Hinv) _ _ _ HxA HxP). done. }
  split; [|split; [|split; [|split]]].
  - simpl. by rewrite lookup_delete_eq.
  - intros k' Hne. simpl. rewrite lookup_delete_ne by done.
    rewrite Hsinks2, Hsinks1. simpl. by rewrite lookup_insert_ne.
  - intros x. 
    assert (fields (with_sinks (delete k (sinks w2)) (xclose (epollfd snk1) w2).2) x
            = fields w2 x) as ->.
    { unfold fields, xclose. simpl. by case_decide. }
    rewrite Hf2, Hf1, Hf0. destruct (decide (x ∈ A)) as [HxA|HxA].
    + rewrite decide_True by (rewrite elem_of_app; tauto). done.
    + destruct (decide (x ∈ P)) as [HxP|HxP].
      * rewrite decide_True by (rewrite elem_of_app; tauto). done.
      * rewrite decide_False by (rewrite elem_of_app; tauto). done.
  - change (dispatched w0) with (dispatched w) in Hd1.
    unfold xclose. simpl. case_decide; simpl; congruence.
  - assert (trace (with_sinks (delete k (sinks w2)) (xclose (epollfd snk1) w2).2)
            = trace w2 ++ (if decide (epollfd snk <> (-1)%Z) then [SysClose (epollfd snk)] else []))
      as ->.
    { unfold xclose. simpl. rewrite Hep1. case_decide; simpl; [done | by rewrite app_nil_r]. }
    rewrite Ht2, Ht1. change (trace w0) with (trace w).
    rewrite (the_sources_ext w w0 A) by done.
    rewrite the_sources_app.
    rewrite (the_sources_ext w w1 P).
    2:{ intros x Hx. rewrite Hf1, Hf0. rewrite decide_False; [done|].
        intros HxA. by apply (Hdis x). }
    rewrite (the_sources_fmap w w1 removed A).
    2:{ intros x Hx. rewrite Hf1, Hf0. by rewrite decide_True. }
    by rewrite <- !app_assoc.
Qed.

(** X17: a source that is on a list of a sink, active or waiting on the
    pending list, cannot be added: when [epoll_ctl] accepts the descriptor,
    [list_append] fails its assertion on the link.  A removed source can be
    added again only after a pass has taken it off the pending list. *)
Theorem sink_add_source_registered (w : world) (mem : node -> list nat) (B : nat -> Z)
    (k p : nat) (reply : os_reply) (snk : sink) :
  reactor_inv w mem B -> registered mem p -> sinks w !! k = Some snk ->
  (forall s, srcs w !! p = Some s -> (refcount s < 2 ^ 32 - 2)%Z) ->
  (0 <= ret reply)%Z ->
  sink_add_source k p reply w = Fault AssertionFailed.
Proof.
  intros Hinv [h0 Hp] Hk Hrc Hret.
  pose proof (inv_lists _ _ _ Hinv) as Hok.
  pose proof (mem_is_head _ _ _ _ Hok Hp) as Hh0.
  pose proof (mem_alive _ _ _ _ Hok Hp) as Hal. apply alive_SourceLink in Hal as [s Hs].
  specialize (Hrc s Hs).
  assert (1 <= refcount s)%Z as Hr1.
  { destruct h0 as [k0|k0|q0]; [| |done].
    - destruct (inv_active _ _ _ Hinv k0 p Hp) as (s' & Hs' & _ & _ & ?).
      pose proof (inv_spare _ _ _ Hinv p). assert (s' = s) as -> by congruence. lia.
    - destruct (inv_pending _ _ _ Hinv k0 p Hp) as (s' & Hs' & _ & ?).
      pose proof (inv_spare _ _ _ Hinv p). assert (s' = s) as -> by congruence. lia. }
  (* the link of the source leads to another node *)
  apply list_elem_of_split in Hp as (L1 & L2 & HL).
  pose proof (ok_dll _ _ Hok h0 Hh0) as Hd. rewrite HL, fmap_app, fmap_cons in Hd.
  destruct (dll_neighbours _ _ _ _ _ Hd) as (pn & n & _ & _ & _ & Hn & _ & Hne & _ & _).
  destruct (load_next _ _ _ Hn) as (ev & Hev & Hevn).
  assert (xerrno reply = ret reply) as Hx.
  { unfold xerrno. destruct (ret reply <? 0)%Z eqn:E; [|done]. apply Z.ltb_lt in E. lia. }
  set (s1 := set_refcount (refcount s + 1) s).
  set (w1 := put p s1 w).
  set (w2 := emit (SysEpollCtl (epollfd snk) EPOLL_CTL_ADD (fd s) (Some p)) w1).
  set (s3 := set_is_active true s1). set (w3 := put p s3 w2).
  set (s4 := set_src_sink (Some k) s3). set (w4 := put p s4 w3).
  set (s5 := set_refcount (refcount s + 2) s4). set (w5 := put p s5 w4).
  assert (srcs w1 !! p = Some s1) as Hs1 by (subst w1; simpl; by rewrite lookup_insert_eq).
  assert (srcs w2 !! p = Some s1) as Hs2 by (subst w2 w1; simpl; by rewrite lookup_insert_eq).
  assert (srcs w3 !! p = Some s3) as Hs3 by (subst w3; simpl; by rewrite lookup_insert_eq).
  assert (srcs w4 !! p = Some s4) as Hs4 by (subst w4; simpl; by rewrite lookup_insert_eq).
  assert (forall m, load m w5 = load m w) as Hload.
  { intros m. subst w5. rewrite (load_put p s4 s5 w4 m Hs4) by done.
    subst w4. rewrite (load_put p s3 s4 w3 m Hs3) by done.
    subst w3. rewrite (load_put p s1 s3 w2 m Hs2) by done.
    change (load m w2) with (load m w1). subst w1. by rewrite (load_put p s s1 w m Hs). }
  unfold sink_add_source. rewrite (source_ref_put _ _ _ Hs) by lia.
  cbn [mbind outcome_bind]. fold s1 w1.
  unfold get_sink, get_source. replace (sinks w1) with (sinks w) by done.
  rewrite Hk, Hs1. cbn [mbind outcome_bind].
  replace (fd s1) with (fd s) by done. fold w2.
  rewrite decide_False by lia.
  rewrite (update_source_put _ _ _ _ Hs2). cbn [mbind outcome_bind]. fold s3 w3.
  rewrite (update_source_put _ _ _ _ Hs3). cbn [mbind outcome_bind]. fold s4 w4.
  rewrite (source_ref_put _ _ _ Hs4) by (simpl; lia). cbn [mbind outcome_bind].
  replace (refcount s4 + 1)%Z with (refcount s + 2)%Z by (simpl; lia). fold s5 w5.
  unfold list_append.
  rewrite (list_check_linked (SinkSources k) (SourceLink p) w5 ev n); [done| | |done|done].
  - unfold alive. rewrite Hload. simpl. unfold get_sink. rewrite Hk. by eexists.
  - by rewrite Hload.
Qed.

Lemma w_one_inv (B : nat -> Z) : (forall q, 0 <= B q)%Z -> reactor_inv w_one (fun _ => []) B.
Proof. intros HB. apply source_new_inv. by apply w_sink_inv. Qed.

Lemma w_one_dll : dll w_one (SinkSources 0) [].
Proof.
  apply (ok_dll _ _ (inv_lists _ _ _ (w_one_inv (fun _ => 0%Z) ltac:(done))) (SinkSources 0)).
  eexists. vm_compute. reflexivity.
Qed.

Lemma w_one_unlinked : unlinked w_one (SourceLink 0).
Proof. right. vm_compute. reflexivity. Qed.

Lemma w_one_fresh : SourceLink 0 ∉ [SinkSources 0].
Proof. intros H. apply elem_of_cons in H as [H|H]; [discriminate H | by apply elem_of_nil in H]. Qed.

Lemma list_insert_append_order_witness :
  (exists w', list_insert (SinkSources 0) (SourceLink 0) w_one = Done w'
              /\ dll w' (SinkSources 0) [SourceLink 0])
  /\ (exists w', list_append (SinkSources 0) (SourceLink 0) w_one = Done w'
                 /\ dll w' (SinkSources 0) [SourceLink 0]).
Proof.
  destruct (list_insert_append_order w_one (SinkSources 0) [] (SourceLink 0)
              w_one_dll w_one_unlinked w_one_fresh)
    as [(w1 & Hrun1 & Hd1 & _) (w2 & Hrun2 & Hd2 & _)].
  split; [exists w1 | exists w2]; (split; [assumption|assumption]).
Defined.

Lemma w_linked_dll : dll w_linked (SinkSources 0) [SourceLink 0].
Proof.
  destruct (list_link_effect w_one (SinkSources 0) [] (SourceLink 0)
              w_one_dll w_one_unlinked w_one_fresh) as [_ (w2 & Hrun2 & Hd2 & _)].
  rewrite w_linked_run in Hrun2. injection Hrun2 as <-. exact Hd2.
Qed.

Lemma list_remove_member_witness :
  exists w', list_remove (SourceLink 0) w_linked = Done w' /\ dll w' (SinkSources 0) []
    /\ load (SourceLink 0) w' = Done (ListNode None None).
Proof.
  destruct (list_remove_member w_linked (SinkSources 0) [] (SourceLink 0) [] w_linked_dll)
    as (w' & Hrun & Hd & Hl & _).
  exists w'. split; [exact Hrun|]. split; [exact Hd|exact Hl].
Defined.

Lemma list_link_remove_round_trip_witness :
  exists w1 w2, list_insert (SinkSources 0) (SourceLink 0) w_one = Done w1
    /\ list_remove (SourceLink 0) w1 = Done w2 /\ dll w2 (SinkSources 0) [].
Proof.
  exact (proj1 (list_link_remove_round_trip w_one (SinkSources 0) [] (SourceLink 0)
                  w_one_dll w_one_unlinked w_one_fresh)).
Defined.

Lemma list_empty_iff_witness :
  list_empty (SinkSources 0) w_one = Done true
  /\ list_empty (SinkSources 0) w_linked = Done false.
Proof.
  split.
  - exact (proj1 (list_empty_iff w_one (SinkSources 0) []) w_one_dll).
  - exact (proj1 (list_empty_iff w_linked (SinkSources 0) [SourceLink 0]) w_linked_dll).
Defined.

Lemma source_unref_last_reference_witness :
  exists w', source_unref (Some 0) w_new = Done w'
    /\ srcs w' = delete 0 (srcs w_new) /\ trace w' = trace w_new ++ [].
Proof.
  destruct (proj2 (proj2 (source_unref_last_reference w_new 0 demo_source w_new_source eq_refl))
              eq_refl) as (w' & Hrun & Hs & _ & _ & Ht & _).
  exists w'. split; [exact Hrun|]. split; [exact Hs|exact Ht].
Defined.

Lemma source_ref_unref_round_trip_witness :
  exists w1, source_ref 0 w_new = Done w1
    /\ srcs w1 !! 0 = Some (set_refcount 2 demo_source)
    /\ source_unref (Some 0) w1 = Done w_new.
Proof.
  apply (proj1 (source_ref_unref_round_trip w_new 0 demo_source w_new_source)).
  simpl. lia.
Defined.

Lemma w_active_source : srcs w_active !! 0 = Some active_source.
Proof. vm_compute. reflexivity. Qed.

Lemma w_active_sink : sinks w_active !! 0 = Some active_sink.
Proof. vm_compute. reflexivity. Qed.

Lemma source_enable_write_effect_witness :
  source_enable_write 0 (OsReply 0 0) w_active
  = Done (0%Z, emit (SysEpollCtl 3 EPOLL_CTL_MOD 7 (Some 0)) w_active)
  /\ source_enable_write 0 (OsReply (-1) 9) w_active
     = Done ((-9)%Z, put 0 (set_refcount 2 active_source)
                       (emit (SysEpollCtl 3 EPOLL_CTL_MOD 7 (Some 0)) w_active)).
Proof.
  split.
  - apply (proj1 (proj2 (source_enable_write_effect w_active 0 active_source (OsReply 0 0)
                           w_active_source) 0 active_sink eq_refl eq_refl w_active_sink)).
    simpl. lia.
  - apply (proj1 (proj2 (proj2 (source_enable_write_effect w_active 0 active_source
                           (OsReply (-1) 9) w_active_source) 0 active_sink eq_refl eq_refl
                           w_active_sink))).
    + simpl. lia.
    + simpl. lia.
Defined.

Lemma sink_dispatch_idle_witness :
  sink_dispatch 1 0 (EpollReady []) w_new
  = Done (0%Z, emit (SysEpollWait 3 MAX_EVENTS 0) w_new).
Proof.
  apply (proj1 (proj2 (sink_dispatch_idle w_new (fun _ => []) (fun _ => 0%Z) 0 demo_sink 1
                         w_new_sink) (w_new_inv (fun _ => 0%Z) ltac:(done)) eq_refl ltac:(lia))).
Defined.

Lemma w_pending_run : source_remove (Some 0) w_active = Done w_pending.
Proof. vm_compute. reflexivity. Qed.

Lemma sink_dispatch_skips_closed_witness :
  (exists w', source_remove (Some 0) w_active = Done w' /\ gone w' 0)
  /\ forall fuel k ready rc w',
       sink_dispatch fuel k (EpollReady ready) w_pending = Done (rc, w') ->
       gone w' 0 /\ exists new, dispatched w' = dispatched w_pending ++ new /\ 0 ∉ new.
Proof.
  split.
  - apply (proj1 (sink_dispatch_skips_closed w_active 0) mem_active (fun _ => 0%Z) 0).
    + apply w_active_inv; intros; lia.
    + vm_compute. by left.
    + intros s Hs. rewrite w_active_source in Hs. injection Hs as <-. reflexivity.
  - apply (proj2 (sink_dispatch_skips_closed w_pending 0)). vm_compute. reflexivity.
Defined.

Lemma sink_unref_releases_witness :
  exists w',
    sink_unref 3 (Some 0) w_active = Done w'
    /\ sinks w' !! 0 = None
    /\ fields w' 0 = released (removed <$> fields w_active 0)
    /\ trace w' = trace w_active
         ++ [SysEpollCtl 3 EPOLL_CTL_DEL 7 None; SysClose 7] ++ [] ++ [SysClose 3].
Proof.
  destruct (proj2 (sink_unref_releases w_active mem_active (fun _ => 0%Z) 0 active_sink 3
              (w_active_inv (fun _ => 0%Z) ltac:(done) ltac:(lia)) w_active_sink eq_refl
              ltac:(vm_compute; lia)))
    as (w' & Hrun & Hk & _ & Hf & _ & Ht).
  exists w'. split; [exact Hrun|]. split; [exact Hk|]. split.
  - exact (Hf 0).
  - exact Ht.
Defined.

Lemma sink_add_source_registered_witness :
  sink_add_source 0 0 (OsReply 0 0) w_active = Fault AssertionFailed.
Proof.
  apply (sink_add_source_registered w_active mem_active (fun _ => 0%Z) 0 0 (OsReply 0 0)
           active_sink).
  - apply w_active_inv; intros; lia.
  - exists (SinkSources 0). vm_compute. by left.
  - exact w_active_sink.
  - intros s Hs. rewrite w_active_source in Hs. injection Hs as <-. simpl. lia.
  - simpl. lia.
Defined.

(** X16: the policy set by [source_never_close_fd].  Removing the source
    then makes the [EPOLL_CTL_DEL] call only and leaves the descriptor
    open and stored in the source; the loop of [sink_dispatch] looks at the
    descriptor alone, so an event of this source that comes up later in the
    same pass still runs its callback, on a source that is no longer
    active. *)
Theorem source_never_close_fd_keeps_open (w : world) (mem : node -> list nat)
    (B : nat -> Z) (k p : nat) (s : source) :
  srcs w !! p = Some s ->
  source_never_close_fd p w = Done (put p (set_close_behavior SOURCE_CLOSE_FD_NEVER s) w)
  /\ (reactor_inv w mem B -> p ∈ mem (SinkSources k) ->
      close_behavior s = SOURCE_CLOSE_FD_NEVER ->
      exists w' snk s',
        sinks w !! k = Some snk
        /\ source_remove (Some p) w = Done w'
        /\ trace w' = trace w ++ [SysEpollCtl (epollfd snk) EPOLL_CTL_DEL (fd s) None]
        /\ srcs w' !! p = Some s' /\ fd s' = fd s /\ is_active s' = false
        /\ (fd s <> (-1)%Z -> forall evs w'', dispatch_events (p :: evs) w' = Done w'' ->
              exists new, dispatched w'' = dispatched w' ++ p :: new)).
Proof.
  intros Hs. split; [by apply update_source_put|].
  intros Hinv Hp Hcb.
  destruct (source_remove_active w mem B k p Hinv Hp)
    as (w' & s0 & snk & L1 & L2 & Hs0 & Hk & _ & Hrun & _ & Ht & _ & Hf & _).
  assert (s0 = s) as -> by congruence.
  apply fields_Some in Hf as (s' & Hs' & Heq).
  exists w', snk, s'. split; [done|]. split; [done|].
  rewrite Hcb in Ht, Heq. rewrite decide_False in Ht by (intros [? _]; done).
  rewrite decide_False in Heq by done.
  split; [done|]. split; [done|].
  assert (fd s' = fd s) as Hfd by (by apply (f_equal fd) in Heq).
  assert (is_active s' = false) as Ha by (by apply (f_equal is_active) in Heq).
  split; [done|]. split; [done|].
  intros Hopen evs w'' Hd. cbn [dispatch_events] in Hd. unfold get_source in Hd.
  rewrite Hs' in Hd. cbn [mbind outcome_bind] in Hd.
  rewrite decide_False in Hd by congruence. inv_bind Hd.
  match goal with H : exec_calls _ _ = Done _ |- _ => apply exec_calls_quiet in H as [Hq _] end.
  apply dispatch_events_log in Hd as (new & Hnew & _).
  exists new. rewrite Hnew, Hq. simpl. by rewrite <- app_assoc.
Qed.

Lemma w_keep_source :
  srcs w_keep_active !! 0
  = Some (set_close_behavior SOURCE_CLOSE_FD_NEVER active_source).
Proof. vm_compute. reflexivity. Qed.

Lemma w_keep_active_inv : reactor_inv w_keep_active mem_active (fun _ => 0%Z).
Proof.
  assert (srcs w_new !! 0 = Some demo_source) as Hs by apply w_new_source.
  assert (reactor_inv w_keep (fun _ => []) (fun _ => 0%Z)) as Hinv.
  { unfold w_keep. unfold source_never_close_fd. rewrite (update_source_put _ _ _ _ Hs).
    simpl done_or. pose proof (w_new_inv (fun _ => 0%Z) ltac:(done)) as [Hok HB Hact Hpend Hdet].
    split; [by apply (lists_ok_put _ _ _ demo_source)|done| | |].
    - intros k q Hq. by apply elem_of_nil in Hq.
    - intros k q Hq. by apply elem_of_nil in Hq.
    - intros q s0 Hq _. simpl in Hq. destruct (decide (q = 0)) as [->|Hne].
      + rewrite lookup_insert_eq in Hq. injection Hq as <-. simpl. lia.
      + rewrite lookup_insert_ne in Hq by done. apply (Hdet q s0 Hq).
        intros h Hin. by apply elem_of_nil in Hin. }
  destruct (sink_add_source_ok w_keep (fun _ => []) (fun _ => 0%Z) 0 0 (OsReply 0 0)
              (set_close_behavior SOURCE_CLOSE_FD_NEVER demo_source) Hinv)
    as (w' & snk & _ & Hrun & Hinv' & _).
  - eexists. vm_compute. reflexivity.
  - vm_compute. reflexivity.
  - intros h Hin. by apply elem_of_nil in Hin.
  - by vm_compute.
  - by vm_compute.
  - by vm_compute.
  - assert (sink_add_source 0 0 (OsReply 0 0) w_keep = Done (0%Z, w_keep_active)) as Hrun'
      by (vm_compute; reflexivity).
    rewrite Hrun' in Hrun. injection Hrun as <-. exact Hinv'.
Qed.

Lemma source_never_close_fd_keeps_open_witness :
  exists w' snk s',
    sinks w_keep_active !! 0 = Some snk
    /\ source_remove (Some 0) w_keep_active = Done w'
    /\ trace w' = trace w_keep_active ++ [SysEpollCtl (epollfd snk) EPOLL_CTL_DEL 7 None]
    /\ srcs w' !! 0 = Some s' /\ fd s' = 7%Z /\ is_active s' = false
    /\ (7%Z <> (-1)%Z -> forall evs w'', dispatch_events (0 :: evs) w' = Done w'' ->
          exists new, dispatched w'' = dispatched w' ++ 0 :: new).
Proof.
  apply (proj2 (source_never_close_fd_keeps_open w_keep_active mem_active (fun _ => 0%Z) 0 0
                  (set_close_behavior SOURCE_CLOSE_FD_NEVER active_source) w_keep_source)).
  - exact w_keep_active_inv.
  - vm_compute. by left.
  - reflexivity.
Defined.

End ReactorFacts.
